(** * randomSOCPProb: cone-structure partitioning of a random SOCP instance

    A shallow embedding of [examples/c/randomSOCPProb.c]: the program
    reads a variable count [n] and two fractions [p_f], [p_l], derives
    the sizes of the zero cone, of the linear cone and a bound [max_q]
    on second-order-cone blocks, and splits the remaining rows into
    random blocks.  The C program is a single [main]; it is embedded
    statement by statement in a small state monad whose state holds the
    local variables, the [Cone] object [k] points to, the state of the
    C library's random generator and the trace of calls and prints. *)

From Stdlib Require Import ZArith Lia Bool.
From Stdlib Require Import Floats.SpecFloat.
From stdpp Require Import base list.

Local Open Scope Z_scope.

(** ** Machine numbers *)

(** Modelled from the spec: the typedefs [idxint] and [pfloat] come from
    [scs.h], which is not part of the sources at hand; the spec calls
    them an integer and a floating-point fraction.  They are taken as
    in the default build: [idxint] is [int] (32-bit two's complement)
    and [pfloat] is [double] (IEEE 754 binary64). *)
Definition INT_MAX : Z := 2147483647.

Definition INT_MIN : Z := -2147483648.

(** Result of an [int] operation: the mathematical result reduced to 32
    bits, two's complement. *)
Definition wrap (z : Z) : Z := (z + 2 ^ 31) mod 2 ^ 32 - 2 ^ 31.

Definition in_int (z : Z) : Prop := INT_MIN <= z <= INT_MAX.

Definition pfloat : Type := spec_float.

Definition prec : Z := 53.

Definition emax : Z := 1024.

Definition fadd : pfloat -> pfloat -> pfloat := SFadd prec emax.

Definition fmul : pfloat -> pfloat -> pfloat := SFmul prec emax.

Definition fdiv : pfloat -> pfloat -> pfloat := SFdiv prec emax.

Definition sqrt : pfloat -> pfloat := SFsqrt prec emax.

(** [x > y] on doubles; false as soon as one side is a NaN. *)
Definition fgt (x y : pfloat) : bool := SFltb y x.

Definition fle (x y : pfloat) : bool := SFleb x y.

(** Conversion of an [int] to [double] (exact: 32 bits fit in 53). *)
Definition of_int (z : Z) : pfloat := binary_normalize prec emax z 0 false.

(** The double literals of the program. *)
Definition lit_0_1 : pfloat := S754_finite false 7205759403792794 (-56).

Definition lit_0_3 : pfloat := S754_finite false 5404319552844595 (-54).

Definition lit_1_0 : pfloat := S754_finite false 4503599627370496 (-52).

(** Largest integer below or equal to a finite double. *)
Definition Zfloor (s : bool) (m : positive) (e : Z) : Z :=
  Z.shiftl (cond_Zopp s (Zpos m)) e.

(** Smallest integer above or equal to a finite double. *)
Definition Zceil (s : bool) (m : positive) (e : Z) : Z :=
  - Z.shiftl (cond_Zopp (negb s) (Zpos m)) e.

(** [floor] and [ceil] of [math.h]: the result is again a double; zeros,
    infinities and NaN are returned unchanged, and a zero result keeps
    the sign of the argument. *)
Definition floor (x : pfloat) : pfloat :=
  match x with
  | S754_finite s m e => binary_normalize prec emax (Zfloor s m e) 0 s
  | _ => x
  end.

Definition ceil (x : pfloat) : pfloat :=
  match x with
  | S754_finite s m e => binary_normalize prec emax (Zceil s m e) 0 s
  | _ => x
  end.

(** Integral part of a double (rounding toward zero), when it has one. *)
Definition Ztrunc (x : pfloat) : option Z :=
  match x with
  | S754_zero _ => Some 0
  | S754_finite s m e => Some (cond_Zopp s (Z.shiftl (Zpos m) e))
  | S754_infinity _ | S754_nan => None
  end.

(** ** The C library, as far as the program uses it *)

(** [log] is the natural logarithm of [math.h]; [indefinite] is what a
    conversion [(idxint) x] yields when the integral part of [x] does
    not fit (the C standard leaves it open; x86 yields [INT_MIN]);
    [rand_seq seed i] is the value of the [i]-th call of [rand()] after
    [srand(seed)]; [now] is what [time(NULL)] returns. *)
Record libc : Type := Libc {
  log : pfloat -> pfloat;
  indefinite : Z;
  rand_seq : Z -> nat -> Z;
  now : Z
}.

Definition RAND_MAX : Z := 2147483647.

(** The generator respects the range the C standard gives [rand()]. *)
Definition rand_in_range (E : libc) : Prop :=
  forall seed i, 0 <= rand_seq E seed i <= RAND_MAX.

(** The cast [(idxint) x] and [(int) x]. *)
Definition to_idxint (E : libc) (x : pfloat) : Z :=
  match Ztrunc x with
  | Some z => if (INT_MIN <=? z) && (z <=? INT_MAX) then z else indefinite E
  | None => indefinite E
  end.

(** A command-line argument, seen through the two parsers the program
    applies to it. *)
Record arg : Type := Arg {
  atoi : Z;
  atof : pfloat
}.

(** ** Program state *)

(** The [Cone] structure of [scs.h], restricted to the members [main]
    touches.  [q] is the buffer [k->q] points to: one cell per allocated
    [idxint], [None] while the cell has not been written; the empty
    list stands for [NULL] and for an allocation of no cell. *)
Module Cone.
Record t : Type := Make {
  f : Z;
  l : Z;
  q : list (option Z);
  qsize : Z;
  ssize : Z;
  ep : Z;
  ed : Z
}.

(** What [scs_calloc(1, sizeof(Cone))] returns. *)
Definition zero : t := Make 0 0 [] 0 0 0 0.

Definition set_f (v : Z) (c : t) : t :=
  Make v (l c) (q c) (qsize c) (ssize c) (ep c) (ed c).

Definition set_l (v : Z) (c : t) : t :=
  Make (f c) v (q c) (qsize c) (ssize c) (ep c) (ed c).

Definition set_q (v : list (option Z)) (c : t) : t :=
  Make (f c) (l c) v (qsize c) (ssize c) (ep c) (ed c).

Definition set_qsize (v : Z) (c : t) : t :=
  Make (f c) (l c) (q c) v (ssize c) (ep c) (ed c).

Definition set_psd_exp (c : t) : t :=
  Make (f c) (l c) (q c) (qsize c) 0 0 0.

(** The block sizes stored so far: the written cells among the first
    [qsize]. *)
Definition blocks (c : t) : list Z :=
  omap id (take (Z.to_nat (qsize c)) (q c)).
End Cone.

(** What the program prints and which external functions it calls, in
    order. *)
Inductive event : Type :=
| Print_usage
| Print_seed (seed : Z)
| Print_error
| Print_sizes (m n col_nnz nnz : Z)
| Print_cone (f l qsize q_total : Z) (sizes : list Z)
| Print_covered (covered m : Z)
| Print_optimum
| Call_srand (seed : Z)
| Call_rand (value : Z)
| Call_calloc
| Call_malloc (cells : Z)
| Call_genRandomProbData (nnz col_nnz : Z)
| Call_setScsParams
| Call_scs
| Call_free.

(** Local variables of [main].  The [idxint] locals are declared without
    initialiser: [None] is a variable that has not been assigned; [k] is
    [None] until [scs_calloc] has returned. *)
Module St.
Record t : Type := Make {
  n : option Z;
  m : option Z;
  col_nnz : option Z;
  nnz : option Z;
  q_total : option Z;
  q_num_rows : option Z;
  max_q : option Z;
  p_f : option pfloat;
  p_l : option pfloat;
  seed : Z;
  k : option Cone.t;
  d : option (Z * Z);
  rng_seed : Z;
  rng_calls : nat;
  trace : list event
}.

(** State on entry of [main]: [seed] has the initialiser [0]; before any
    [srand] the generator is seeded with 1. *)
Definition init : t :=
  Make None None None None None None None None None 0 None None 1 0 [].
End St.

Module Upd.
Import St.

Definition n (v : Z) (s : t) : t :=
  Make (Some v) (m s) (col_nnz s) (nnz s) (q_total s) (q_num_rows s) (max_q s)
    (p_f s) (p_l s) (seed s) (k s) (d s) (rng_seed s) (rng_calls s) (trace s).

Definition m (v : Z) (s : t) : t :=
  Make (St.n s) (Some v) (col_nnz s) (nnz s) (q_total s) (q_num_rows s) (max_q s)
    (p_f s) (p_l s) (seed s) (k s) (d s) (rng_seed s) (rng_calls s) (trace s).

Definition col_nnz (v : Z) (s : t) : t :=
  Make (St.n s) (St.m s) (Some v) (nnz s) (q_total s) (q_num_rows s) (max_q s)
    (p_f s) (p_l s) (seed s) (k s) (d s) (rng_seed s) (rng_calls s) (trace s).

Definition nnz (v : Z) (s : t) : t :=
  Make (St.n s) (St.m s) (St.col_nnz s) (Some v) (q_total s) (q_num_rows s) (max_q s)
    (p_f s) (p_l s) (seed s) (k s) (d s) (rng_seed s) (rng_calls s) (trace s).

Definition q_total (v : Z) (s : t) : t :=
  Make (St.n s) (St.m s) (St.col_nnz s) (St.nnz s) (Some v) (q_num_rows s) (max_q s)
    (p_f s) (p_l s) (seed s) (k s) (d s) (rng_seed s) (rng_calls s) (trace s).

Definition q_num_rows (v : Z) (s : t) : t :=
  Make (St.n s) (St.m s) (St.col_nnz s) (St.nnz s) (St.q_total s) (Some v) (max_q s)
    (p_f s) (p_l s) (seed s) (k s) (d s) (rng_seed s) (rng_calls s) (trace s).

Definition max_q (v : Z) (s : t) : t :=
  Make (St.n s) (St.m s) (St.col_nnz s) (St.nnz s) (St.q_total s) (St.q_num_rows s) (Some v)
    (p_f s) (p_l s) (seed s) (k s) (d s) (rng_seed s) (rng_calls s) (trace s).

Definition p_f (v : pfloat) (s : t) : t :=
  Make (St.n s) (St.m s) (St.col_nnz s) (St.nnz s) (St.q_total s) (St.q_num_rows s) (St.max_q s)
    (Some v) (p_l s) (seed s) (k s) (d s) (rng_seed s) (rng_calls s) (trace s).

Definition p_l (v : pfloat) (s : t) : t :=
  Make (St.n s) (St.m s) (St.col_nnz s) (St.nnz s) (St.q_total s) (St.q_num_rows s) (St.max_q s)
    (St.p_f s) (Some v) (seed s) (k s) (d s) (rng_seed s) (rng_calls s) (trace s).

Definition seed (v : Z) (s : t) : t :=
  Make (St.n s) (St.m s) (St.col_nnz s) (St.nnz s) (St.q_total s) (St.q_num_rows s) (St.max_q s)
    (St.p_f s) (St.p_l s) v (k s) (d s) (rng_seed s) (rng_calls s) (trace s).

Definition k (v : Cone.t) (s : t) : t :=
  Make (St.n s) (St.m s) (St.col_nnz s) (St.nnz s) (St.q_total s) (St.q_num_rows s) (St.max_q s)
    (St.p_f s) (St.p_l s) (St.seed s) (Some v) (d s) (rng_seed s) (rng_calls s) (trace s).

Definition d (v : Z * Z) (s : t) : t :=
  Make (St.n s) (St.m s) (St.col_nnz s) (St.nnz s) (St.q_total s) (St.q_num_rows s) (St.max_q s)
    (St.p_f s) (St.p_l s) (St.seed s) (St.k s) (Some v) (rng_seed s) (rng_calls s) (trace s).

Definition rng (sd : Z) (calls : nat) (s : t) : t :=
  Make (St.n s) (St.m s) (St.col_nnz s) (St.nnz s) (St.q_total s) (St.q_num_rows s) (St.max_q s)
    (St.p_f s) (St.p_l s) (St.seed s) (St.k s) (St.d s) sd calls (trace s).

Definition trace (ev : event) (s : t) : t :=
  Make (St.n s) (St.m s) (St.col_nnz s) (St.nnz s) (St.q_total s) (St.q_num_rows s) (St.max_q s)
    (St.p_f s) (St.p_l s) (St.seed s) (St.k s) (St.d s) (rng_seed s) (rng_calls s)
    (St.trace s ++ [ev]).

Arguments n v s /.
Arguments m v s /.
Arguments col_nnz v s /.
Arguments nnz v s /.
Arguments q_total v s /.
Arguments q_num_rows v s /.
Arguments max_q v s /.
Arguments p_f v s /.
Arguments p_l v s /.
Arguments seed v s /.
Arguments k v s /.
Arguments d v s /.
Arguments rng sd calls s /.
Arguments trace ev s /.
End Upd.

(** ** The monad of C statements *)

(** Ways a run can leave the language: the traps and undefined
    behaviours [main] can reach. *)
Inductive fault : Type :=
| Division_by_zero
| Out_of_bounds
| Uninitialised
| Null_pointer.

(** Outcome of running statements from a state: they fall through with
    a value, [main] returns with a status, the run faults, or the fuel
    given to a [while] loop is used up. *)
Inductive result (A : Type) : Type :=
| Ok (a : A) (s : St.t)
| Exit (status : Z) (s : St.t)
| Fault (why : fault) (s : St.t)
| Out_of_fuel (s : St.t).

Arguments Ok {A} a s.
Arguments Exit {A} status s.
Arguments Fault {A} why s.
Arguments Out_of_fuel {A} s.

Definition M (A : Type) : Type := St.t -> result A.

Definition ret {A} (a : A) : M A := Ok a.

Definition bind {A B} (c : M A) (k : A -> M B) (s : St.t) : result B :=
  match c s with
  | Ok a s' => k a s'
  | Exit status s' => Exit status s'
  | Fault why s' => Fault why s'
  | Out_of_fuel s' => Out_of_fuel s'
  end.

Arguments bind {A B} c k s /.

Declare Scope prog_scope.
Delimit Scope prog_scope with prog.
Bind Scope prog_scope with M.

Notation "'let*' x ':=' c 'in' k" := (bind c (fun x => k))
  (at level 10, x name, c at level 100, k at level 200) : prog_scope.

Notation "c1 ';;' c2" := (bind c1 (fun _ => c2))
  (at level 100, c2 at level 200, right associativity) : prog_scope.

Local Open Scope prog_scope.

(** State of a result, whatever the outcome. *)
Definition final {A} (r : result A) : St.t :=
  match r with
  | Ok _ s | Exit _ s | Fault _ s | Out_of_fuel s => s
  end.

Definition put (u : St.t -> St.t) (s : St.t) : result unit := Ok tt (u s).

Definition exit {A} (status : Z) : M A := Exit status.

Definition fail {A} (why : fault) : M A := Fault why.

Definition emit (ev : event) : M unit := put (Upd.trace ev).

(** Value of a local variable; reading one that was never assigned is
    undefined. *)
Definition get {A} (var : St.t -> option A) (s : St.t) : result A :=
  match var s with Some v => Ok v s | None => Fault Uninitialised s end.

(** The object [k] points to. *)
Definition deref_k (s : St.t) : result Cone.t :=
  match St.k s with Some c => Ok c s | None => Fault Null_pointer s end.

(** [k->member = ...] *)
Definition modify_k (u : Cone.t -> Cone.t) : M unit :=
  let* c := deref_k in put (Upd.k (u c)).

(** [k->q[i] = v] *)
Definition store_q (i v : Z) : M unit :=
  let* c := deref_k in
  if (0 <=? i) && (i <? Z.of_nat (length (Cone.q c))) then
    put (Upd.k (Cone.set_q (<[Z.to_nat i := Some v]> (Cone.q c)) c))
  else fail Out_of_bounds.

(** [k->q[i]] *)
Definition load_q (i : Z) : M Z :=
  let* c := deref_k in
  if 0 <=? i then
    match Cone.q c !! Z.to_nat i with
    | Some (Some v) => ret v
    | Some None => fail Uninitialised
    | None => fail Out_of_bounds
    end
  else fail Out_of_bounds.

(** [while (cond) body], unfolded at most [fuel] times. *)
Fixpoint while (fuel : nat) (cond : M bool) (body : M unit) : M unit :=
  match fuel with
  | O => Out_of_fuel
  | S fuel' =>
      let* b := cond in
      if b then body ;; while fuel' cond body else ret tt
  end.

(** [for (i = 0; i < bound; i++) body], for a body that changes neither
    [i] nor the bound. *)
Definition for_upto (bound : Z) (body : Z -> M unit) : M unit :=
  foldr (fun i rest => body i ;; rest) (ret tt) (seqZ 0 bound).

(** [argv[i]] *)
Definition argv_at (argv : list arg) (i : nat) : M arg :=
  match argv !! i with
  | Some a => ret a
  | None => fail Out_of_bounds
  end.

(** ** The program *)

Section Program.

Variable E : libc.

(** [rand()]: the next value of the sequence the last [srand] started. *)
Definition rand (s : St.t) : result Z :=
  let v := rand_seq E (St.rng_seed s) (St.rng_calls s) in
  Ok v (Upd.trace (Call_rand v) (Upd.rng (St.rng_seed s) (S (St.rng_calls s)) s)).

(** [srand(seed)] *)
Definition srand (seed : Z) : M unit :=
  put (Upd.rng seed 0) ;; emit (Call_srand seed).

(** Lines 40-43: the default parameters. *)
Definition defaults : M unit :=
  put (Upd.p_f lit_0_1) ;;
  put (Upd.p_l lit_0_3) ;;
  put (Upd.seed (wrap (now E))).

(** Lines 45-70: the [switch] on [argc]; the cases 5 and 4 fall through
    to the next one, any other argument count prints the usage text and
    returns 0. *)
Definition case_2 (argv : list arg) : M unit :=
  let* a := argv_at argv 1 in put (Upd.n (atoi a)).

Definition case_4 (argv : list arg) : M unit :=
  (let* a := argv_at argv 2 in put (Upd.p_f (atof a))) ;;
  (let* a := argv_at argv 3 in put (Upd.p_l (atof a))) ;;
  case_2 argv.

Definition case_5 (argv : list arg) : M unit :=
  (let* a := argv_at argv 4 in put (Upd.seed (atoi a))) ;;
  case_4 argv.

Definition switch_argc (argv : list arg) : M unit :=
  let argc := Z.of_nat (length argv) in
  if argc =? 5 then case_5 argv
  else if argc =? 4 then case_4 argv
  else if argc =? 2 then case_2 argv
  else emit Print_usage ;; exit 0.

(** Lines 71-77: seeding, and the four [scs_calloc]s ([k], [d], [sol],
    [opt_sol]), of which [k] and [d] are kept in the state. *)
Definition seed_and_allocate : M unit :=
  (fun s => srand (St.seed s) s) ;;
  (fun s => emit (Print_seed (St.seed s)) s) ;;
  emit Call_calloc ;; put (Upd.k Cone.zero) ;;
  emit Call_calloc ;; put (Upd.d (0, 0)) ;;
  emit Call_calloc ;;
  emit Call_calloc.

(** Lines 79-83: the sizes that depend on [n] alone.  [3 * n] is an
    [idxint] product, converted to [double] where [log] and the
    division need it. *)
Definition sizes : M unit :=
  (let* n := get St.n in put (Upd.m (wrap (3 * n)))) ;;
  (let* n := get St.n in
   put (Upd.col_nnz (to_idxint E (ceil (sqrt (of_int n)))))) ;;
  (let* n := get St.n in
   let* col_nnz := get St.col_nnz in
   put (Upd.nnz (wrap (n * col_nnz)))) ;;
  (let* n := get St.n in
   put (Upd.max_q
          (to_idxint E (ceil (fdiv (of_int (wrap (3 * n)))
                                   (log E (of_int (wrap (3 * n))))))))).

(** Lines 85-88: the test on the fractions. *)
Definition check_fractions : M unit :=
  let* p_f := get St.p_f in
  let* p_l := get St.p_l in
  if fgt (fadd p_f p_l) lit_1_0 then emit Print_error ;; exit 1
  else ret tt.

(** Lines 90-91: rows of the zero cone and of the linear cone. *)
Definition zero_and_linear : M unit :=
  (let* n := get St.n in
   let* p_f := get St.p_f in
   modify_k (Cone.set_f (to_idxint E (floor (fmul (of_int (wrap (3 * n))) p_f))))) ;;
  (let* n := get St.n in
   let* p_l := get St.p_l in
   modify_k (Cone.set_l (to_idxint E (floor (fmul (of_int (wrap (3 * n))) p_l))))).

(** Lines 93-95: the rows left for second-order cones and the buffer of
    their sizes.  [scs_malloc] of a negative count has no cell. *)
Definition allocate_q : M unit :=
  modify_k (Cone.set_qsize 0) ;;
  (let* n := get St.n in
   let* c := deref_k in
   put (Upd.q_num_rows (wrap (wrap (wrap (3 * n) - Cone.f c) - Cone.l c)))) ;;
  (let* q_num_rows := get St.q_num_rows in
   emit (Call_malloc q_num_rows) ;;
   modify_k (Cone.set_q (replicate (Z.to_nat q_num_rows) None))).

(** [k->q[k->qsize] = size; k->qsize++;] *)
Definition push_q (size : Z) : M unit :=
  (let* c := deref_k in store_q (Cone.qsize c) size) ;;
  modify_k (fun c => Cone.set_qsize (wrap (Cone.qsize c + 1)) c).

(** Line 97: [q_num_rows > max_q]. *)
Definition loop_cond : M bool :=
  let* q_num_rows := get St.q_num_rows in
  let* max_q := get St.max_q in
  ret (max_q <? q_num_rows).

(** Lines 98-102: one block.  [%] is the remainder of C, which traps on
    a zero divisor. *)
Definition loop_body : M unit :=
  let* r := rand in
  let* max_q := get St.max_q in
  if max_q =? 0 then fail Division_by_zero
  else
    let size := wrap (Z.rem r max_q + 1) in
    push_q size ;;
    let* q_num_rows := get St.q_num_rows in
    put (Upd.q_num_rows (wrap (q_num_rows - size))).

(** Lines 97-107: the partition of the remaining rows. *)
Definition partition (fuel : nat) : M unit :=
  while fuel loop_cond loop_body ;;
  let* q_num_rows := get St.q_num_rows in
  if 0 <? q_num_rows then push_q q_num_rows else ret tt.

(** Lines 109-112: the rows the blocks cover. *)
Definition total : M unit :=
  put (Upd.q_total 0) ;;
  let* c := deref_k in
  for_upto (Cone.qsize c)
    (fun i =>
       let* x := load_q i in
       let* q_total := get St.q_total in
       put (Upd.q_total (wrap (q_total + x)))).

(** Lines 129-131: the sizes as they are printed. *)
Definition load_sizes (bound : Z) : M (list Z) :=
  foldr (fun i rest => let* x := load_q i in let* xs := rest in ret (x :: xs))
        (ret []) (seqZ 0 bound).

(** Lines 114-133: the unused cones are cleared and the structure is
    reported. *)
Definition report : M unit :=
  modify_k Cone.set_psd_exp ;;
  (let* m := get St.m in
   let* n := get St.n in
   let* col_nnz := get St.col_nnz in
   let* nnz := get St.nnz in
   emit (Print_sizes m n col_nnz nnz)) ;;
  (let* c := deref_k in
   let* q_total := get St.q_total in
   let* sizes := load_sizes (Cone.qsize c) in
   emit (Print_cone (Cone.f c) (Cone.l c) (Cone.qsize c) q_total sizes)) ;;
  (let* c := deref_k in
   let* q_total := get St.q_total in
   let* m := get St.m in
   emit (Print_covered (wrap (wrap (q_total + Cone.f c) + Cone.l c)) m)).

(** Lines 135-152: the instance is built and solved by the external
    functions, and [main] returns 0. *)
Definition build_and_solve : M unit :=
  (let* m := get St.m in
   let* n := get St.n in
   put (Upd.d (m, n))) ;;
  (let* nnz := get St.nnz in
   let* col_nnz := get St.col_nnz in
   emit (Call_genRandomProbData nnz col_nnz)) ;;
  emit Call_setScsParams ;;
  emit Print_optimum ;;
  emit Call_scs ;;
  emit Print_optimum ;;
  emit Call_free ;; emit Call_free ;; emit Call_free ;;
  exit 0.

(** Lines 40-70: the parameters as the command line sets them. *)
Definition arguments (argv : list arg) : M unit :=
  defaults ;;
  switch_argc argv.

(** The statements up to the test on the fractions, and those after. *)
Definition prologue (argv : list arg) : M unit :=
  arguments argv ;;
  seed_and_allocate ;;
  sizes.

Definition cone_structure (fuel : nat) : M unit :=
  zero_and_linear ;;
  allocate_q ;;
  partition fuel ;;
  total.

(** [main]; [argc] is the length of [argv], and [fuel] bounds the
    iterations of the [while] loop. *)
Definition main_from (fuel : nat) (argv : list arg) : M unit :=
  prologue argv ;;
  check_fractions ;;
  cone_structure fuel ;;
  report ;;
  build_and_solve.

Definition main (fuel : nat) (argv : list arg) : result unit :=
  main_from fuel argv St.init.

End Program.

(** ** A C library to run the program with *)

(** Values of the natural logarithm at the arguments the examples
    below use (the doubles nearest to ln 3, ln 30 and ln 300); minus
    infinity at zero, NaN at negative numbers and where nothing is
    tabulated. *)
Definition sample_log (x : pfloat) : pfloat :=
  match x with
  | S754_zero _ => S754_infinity true
  | S754_finite false 6755399441055744 (-51) =>
      S754_finite false 4947709893870347 (-52)
  | S754_finite false 8444249301319680 (-48) =>
      S754_finite false 7658815630333595 (-51)
  | S754_finite false 5277655813324800 (-44) =>
      S754_finite false 6421888156866008 (-50)
  | _ => S754_nan
  end.

(** A linear congruential generator in the style of the C standard's
    example. *)
Fixpoint sample_lcg (x : Z) (i : nat) : Z :=
  match i with
  | O => x
  | S i' => sample_lcg ((x * 1103515245 + 12345) mod 2 ^ 31) i'
  end.

Definition sample_rand (seed : Z) (i : nat) : Z :=
  sample_lcg (seed mod 2 ^ 31) (S i).

Definition sample_libc : libc := Libc sample_log INT_MIN sample_rand 1700000000.

(** ** Notions used in the proofs *)

(** [r] is the double of sign [s] and magnitude [m' * 2 ^ E]. *)
Definition represents (r : spec_float) (s : bool) (m' E : Z) : Prop :=
  match r with
  | S754_zero s' => s' = s /\ m' = 0
  | S754_finite s' m e =>
      s' = s /\ e <= 971 /\ Zpos m < 2 ^ 53 /\
      ((e = E /\ m' = Zpos m) \/ (e = E + 1 /\ m' = 2 ^ 53 /\ Zpos m = 2 ^ 52))
  | S754_infinity s' => s' = s /\ 971 <= E
  | S754_nan => False
  end.

(** The value of a finite double, multiplied by [2 ^ 1074]: an integer. *)
Definition scaled (x : spec_float) : Z :=
  match x with
  | S754_finite s m e => cond_Zopp s (Zpos m * 2 ^ (e + 1074))
  | _ => 0
  end.

(** Finite and not negative. *)
Definition fin_nonneg (x : spec_float) : Prop :=
  match x with
  | S754_zero _ => True
  | S754_finite s m e => s = false /\ -1074 <= e /\ Zpos m < 2 ^ 53
  | _ => False
  end.

(** What the proofs need of [log] at the argument [N] the program
    passes: the result is a double between 1.0 and [N].  (For [N >= 3]
    the natural logarithm lies between 1.09 and [N].) *)
Definition log_sane (E : libc) (N : Z) : Prop :=
  valid_binary prec emax (log E (of_int N)) = true /\
  fle lit_1_0 (log E (of_int N)) = true /\
  fle (log E (of_int N)) (of_int N) = true.

(** A fraction given on the command line: a double that is zero or
    positive. *)
Definition nonneg (x : pfloat) : Prop :=
  valid_binary prec emax x = true /\ fle (S754_zero false) x = true.

(** The state once the command line has been read: [n], the fractions
    and the seed are set, nothing else is. *)
Definition parsed (n : Z) (p_f p_l : pfloat) (seed : Z) : St.t :=
  St.Make (Some n) None None None None None None (Some p_f) (Some p_l) seed
          None None 1 0 [].

(** The sizes lines 80-83 compute from [n]. *)
Definition col_nnz_of (E : libc) (n : Z) : Z :=
  to_idxint E (ceil (sqrt (of_int n))).

Definition max_q_of (E : libc) (n : Z) : Z :=
  to_idxint E (ceil (fdiv (of_int (wrap (3 * n))) (log E (of_int (wrap (3 * n)))))).

(** The rows lines 90-91 give to a cone of fraction [p]. *)
Definition rows_of (E : libc) (n : Z) (p : pfloat) : Z :=
  to_idxint E (floor (fmul (of_int (wrap (3 * n))) p)).

(** The state at the test of line 85. *)
Definition at_check (E : libc) (n : Z) (p_f p_l : pfloat) (seed : Z) : St.t :=
  St.Make (Some n) (Some (wrap (3 * n))) (Some (col_nnz_of E n))
          (Some (wrap (n * col_nnz_of E n))) None None (Some (max_q_of E n))
          (Some p_f) (Some p_l) seed (Some Cone.zero) (Some (0, 0)) seed 0
          [Call_srand seed; Print_seed seed; Call_calloc; Call_calloc;
           Call_calloc; Call_calloc].

(** A state of the partition loop: [bs] are the blocks stored so far,
    [free] the cells of the buffer not yet written, [r] the rows left,
    [calls] and [tr] the calls of [rand] and the trace so far; all the
    rest is as in [s] and in the cone [c]. *)
Definition in_loop (s : St.t) (c : Cone.t) (bs : list Z) (free : nat) (r : Z)
    (calls : nat) (tr : list event) : St.t :=
  St.Make (St.n s) (St.m s) (St.col_nnz s) (St.nnz s) (St.q_total s) (Some r)
          (St.max_q s) (St.p_f s) (St.p_l s) (St.seed s)
          (Some (Cone.Make (Cone.f c) (Cone.l c)
                           ((Some <$> bs) ++ replicate free None)
                           (Z.of_nat (length bs))
                           (Cone.ssize c) (Cone.ep c) (Cone.ed c)))
          (St.d s) (St.rng_seed s) calls tr.

(** Sum of a list of block sizes. *)
Definition sum (bs : list Z) : Z := foldr Z.add 0 bs.

(** The size line 99 draws at the [calls]-th call of [rand()]. *)
Definition drawn_size (E : libc) (seed max_q : Z) (calls : nat) : Z :=
  wrap (Z.rem (rand_seq E seed calls) max_q + 1).

(** A block size within the bound. *)
Definition block_in (max_q b : Z) : Prop := 1 <= b <= max_q.

(** The state in which [main] returns 0 after a run whose loop ended in
    [in_loop s c bs free r calls tr]. *)
Definition finished (s : St.t) (c : Cone.t) (bs : list Z) (free : nat) (r : Z)
    (calls : nat) (tr : list event) (m n col_nnz nnz q_total : Z) : St.t :=
  St.Make (Some n) (Some m) (Some col_nnz) (Some nnz) (Some q_total) (Some r)
          (St.max_q s) (St.p_f s) (St.p_l s) (St.seed s)
          (Some (Cone.Make (Cone.f c) (Cone.l c)
                           ((Some <$> bs) ++ replicate free None)
                           (Z.of_nat (length bs)) 0 0 0))
          (Some (m, n)) (St.rng_seed s) calls
          (tr ++ [Print_sizes m n col_nnz nnz;
                  Print_cone (Cone.f c) (Cone.l c) (Z.of_nat (length bs)) q_total bs;
                  Print_covered (wrap (wrap (q_total + Cone.f c) + Cone.l c)) m;
                  Call_genRandomProbData nnz col_nnz; Call_setScsParams;
                  Print_optimum; Call_scs; Print_optimum;
                  Call_free; Call_free; Call_free]).

(** ** Inputs *)

(** A valid input: the command line is accepted and sets a positive [n]
    whose triple is an [idxint], and fractions that are not negative
    and whose sum, as line 85 computes it, is at most 1.0. *)
Record valid_input (E : libc) (argv : list arg) (n : Z) (p_f p_l : pfloat)
    (seed : Z) : Prop := Valid_input {
  input_parsed : arguments E argv St.init = Ok tt (parsed n p_f p_l seed);
  input_n_positive : 0 < n;
  input_rows_fit : 3 * n <= INT_MAX;
  input_p_f : nonneg p_f;
  input_p_l : nonneg p_l;
  input_sum : fle (fadd p_f p_l) lit_1_0 = true
}.

(** What the worked example needs of [log] at 300.0: a double between
    5.70 and 5.71 (ln 300 is 5.7038...). *)
Definition lit_5_70 : pfloat := S754_finite false 6417629469002957 (-50).

Definition lit_5_71 : pfloat := S754_finite false 6428888468071383 (-50).

Definition log_300_accurate (E : libc) : Prop :=
  valid_binary prec emax (log E (of_int 300)) = true /\
  fle lit_5_70 (log E (of_int 300)) = true /\
  fle (log E (of_int 300)) lit_5_71 = true.

(** Command lines of the examples: [argv[0]] and the arguments "100",
    "10", "0", "-1", "0.7" and "0.5" as [atoi] and [atof] read them. *)
Definition lit_0_7 : pfloat := S754_finite false 6305039478318694 (-53).

Definition lit_0_5 : pfloat := S754_finite false 4503599627370496 (-53).

Definition arg_prog : arg := Arg 0 (S754_zero false).

Definition arg_100 : arg := Arg 100 (of_int 100).

Definition arg_10 : arg := Arg 10 (of_int 10).

Definition arg_1 : arg := Arg 1 (of_int 1).

Definition arg_0 : arg := Arg 0 (S754_zero false).

Definition arg_minus_1 : arg := Arg (-1) (of_int (-1)).

Definition arg_0_7 : arg := Arg 0 lit_0_7.

Definition arg_0_5 : arg := Arg 0 lit_0_5.

Definition arg_seed_42 : arg := Arg 42 (of_int 42).

(** The events of [count] successive calls of [rand()], from the
    [calls]-th on, and the sizes line 99 makes of them. *)
Definition rand_events (E : libc) (seed : Z) (calls count : nat) : list event :=
  (fun i => Call_rand (rand_seq E seed i)) <$> seq calls count.

Definition drawn_sizes (E : libc) (seed max_q : Z) (calls count : nat) : list Z :=
  drawn_size E seed max_q <$> seq calls count.

(** The calls of [srand] among the events. *)
Definition is_srand (ev : event) : bool :=
  match ev with Call_srand _ => true | _ => false end.

Definition seedings (tr : list event) : list event := List.filter is_srand tr.

(** The same C library at a later time, and the fractions 0.1 and 0.3
    given on the command line. *)
Definition sample_libc_later : libc := Libc sample_log INT_MIN sample_rand 1800000000.

Definition arg_0_1 : arg := Arg 0 lit_0_1.

Definition arg_0_3 : arg := Arg 0 lit_0_3.

(** ** Notions used for the whole program *)

(** The sum line 111 accumulates in [q_total], every addition reduced
    to an [idxint]. *)
Definition wsum (bs : list Z) : Z := foldl (fun acc x => wrap (acc + x)) 0 bs.

(** The calls of [rand()] among the events. *)
Definition is_rand (ev : event) : bool :=
  match ev with Call_rand _ => true | _ => false end.

(** The events lines 136-152 add to the trace. *)
Definition solving (nnz col_nnz : Z) : list event :=
  [Call_genRandomProbData nnz col_nnz; Call_setScsParams; Print_optimum; Call_scs;
   Print_optimum; Call_free; Call_free; Call_free].

(** The double nearest to 0.33. *)
Definition lit_0_33 : pfloat := S754_finite false 5944751508129055 (-54).

(** The calls that build and solve the instance. *)
Definition is_solving (ev : event) : bool :=
  match ev with
  | Call_genRandomProbData _ _ | Call_setScsParams | Call_scs => true
  | _ => false
  end.

(** The state in which [main] returns when [n] is 0: all sizes are 0,
    the cone is empty and no block was drawn. *)
Definition finished_empty (p_f p_l : pfloat) (seed : Z) : St.t :=
  St.Make (Some 0) (Some 0) (Some 0) (Some 0) (Some 0) (Some 0) (Some 0)
          (Some p_f) (Some p_l) seed (Some Cone.zero) (Some (0, 0)) seed 0
          ([Call_srand seed; Print_seed seed; Call_calloc; Call_calloc; Call_calloc;
            Call_calloc; Call_malloc 0; Print_sizes 0 0 0 0; Print_cone 0 0 0 0 [];
            Print_covered 0 0] ++ solving 0 0).

(** A command line with the fraction NaN. *)
Definition arg_nan : arg := Arg 0 S754_nan.

(** The state in which [main] returns after the usage text: the
    defaults are set, nothing else is. *)
Definition after_usage (E : libc) : St.t :=
  St.Make None None None None None None None (Some lit_0_1) (Some lit_0_3)
          (wrap (now E)) None None 1 0 [Print_usage].

(** The double next above 0.5, that is [0.5 + 2 ^ -53], and the
    argument that [atof] reads as it. *)
Definition lit_0_5_up : pfloat := S754_finite false 4503599627370497 (-53).

Definition arg_0_5_up : arg := Arg 0 lit_0_5_up.

(** * Properties

    ** Rounding to binary64 *)

Lemma fexp_eq (e : Z) : fexp prec emax e = Z.max (e - 53) (-1074).
Proof. reflexivity. Qed.

Lemma digits2_pos_bounds (m : positive) :
  2 ^ (Zpos (digits2_pos m) - 1) <= Zpos m < 2 ^ Zpos (digits2_pos m).
Proof.
  induction m as [m IH|m IH|]; cbn [digits2_pos].
  - rewrite Pos2Z.inj_succ, Z.pow_succ_r by lia.
    replace (Z.succ (Zpos (digits2_pos m)) - 1) with (Z.succ (Zpos (digits2_pos m) - 1)) by lia.
    rewrite Z.pow_succ_r by lia. lia.
  - rewrite Pos2Z.inj_succ, Z.pow_succ_r by lia.
    replace (Z.succ (Zpos (digits2_pos m)) - 1) with (Z.succ (Zpos (digits2_pos m) - 1)) by lia.
    rewrite Z.pow_succ_r by lia. lia.
  - cbn. lia.
Qed.

Lemma Zdigits2_bounds (z : Z) :
  0 < z -> 2 ^ (Zdigits2 z - 1) <= z < 2 ^ Zdigits2 z.
Proof.
  destruct z as [|p|p]; try lia. intros _. apply digits2_pos_bounds.
Qed.

Lemma Zdigits2_pos (z : Z) : 0 < z -> 0 < Zdigits2 z.
Proof. destruct z; cbn; lia. Qed.

(** Number of digits from a bound. *)
Lemma Zdigits2_le (z k : Z) : 0 < z -> z < 2 ^ k -> Zdigits2 z <= k.
Proof.
  intros Hz Hk.
  destruct (Zdigits2_bounds z Hz) as [Hl _].
  destruct (Z.le_gt_cases (Zdigits2 z) k) as [|Hgt]; [assumption|].
  assert (0 <= k) by (destruct (Z.le_gt_cases 0 k); [assumption|rewrite Z.pow_neg_r in Hk; lia]).
  assert (2 ^ k <= 2 ^ (Zdigits2 z - 1)) by (apply Z.pow_le_mono_r; lia).
  lia.
Qed.

Lemma Zdigits2_ge (z k : Z) : 2 ^ k <= z -> 0 <= k -> k + 1 <= Zdigits2 z.
Proof.
  intros Hk Hk0.
  assert (Hz : 0 < z) by (pose proof (Z.pow_pos_nonneg 2 k); lia).
  destruct (Zdigits2_bounds z Hz) as [_ Hu].
  destruct (Z.le_gt_cases (k + 1) (Zdigits2 z)) as [|Hgt]; [assumption|].
  assert (2 ^ Zdigits2 z <= 2 ^ k) by (apply Z.pow_le_mono_r; lia).
  lia.
Qed.

Lemma shr_1_m (r : shr_record) : 0 <= shr_m r -> shr_m (shr_1 r) = shr_m r / 2.
Proof.
  destruct r as [m r s]. cbn [shr_m]. intros Hm.
  destruct m as [|[p|p|]|p]; cbn [shr_1 shr_m]; try lia; try reflexivity.
  - apply (Z.div_unique _ 2 _ 1); lia.
  - apply (Z.div_unique _ 2 _ 0); lia.
Qed.

Lemma shr_1_nonneg (r : shr_record) : 0 <= shr_m r -> 0 <= shr_m (shr_1 r).
Proof. intros H. rewrite shr_1_m by assumption. apply Z.div_pos; lia. Qed.

Lemma iter_shr_m (p : positive) : forall r,
  0 <= shr_m r ->
  shr_m (SpecFloat.iter_pos shr_1 p r) = shr_m r / 2 ^ Zpos p /\ 0 <= shr_m (SpecFloat.iter_pos shr_1 p r).
Proof.
  induction p as [p IH|p IH|]; intros r Hr; cbn [SpecFloat.iter_pos].
  - destruct (IH (shr_1 r) (shr_1_nonneg r Hr)) as [E1 N1].
    destruct (IH _ N1) as [E2 N2]. split; [|assumption].
    rewrite E2, E1, shr_1_m by assumption.
    rewrite !Z.div_div by (try apply Z.pow_pos_nonneg; lia).
    f_equal. rewrite Pos2Z.inj_xI, <- Z.pow_add_r, <- Z.pow_succ_r by lia. f_equal. lia.
  - destruct (IH r Hr) as [E1 N1].
    destruct (IH _ N1) as [E2 N2]. split; [|assumption].
    rewrite E2, E1.
    rewrite !Z.div_div by (try apply Z.pow_pos_nonneg; lia).
    f_equal. rewrite Pos2Z.inj_xO, <- Z.pow_add_r by lia. f_equal. lia.
  - split; [|apply shr_1_nonneg; assumption]. rewrite shr_1_m by assumption. reflexivity.
Qed.

Lemma shr_m_spec (r : shr_record) (e n : Z) :
  0 <= shr_m r ->
  shr_m (fst (shr r e n)) = shr_m r / 2 ^ Z.max 0 n /\ snd (shr r e n) = e + Z.max 0 n.
Proof.
  intros Hr. destruct n as [|p|p]; cbn [shr fst snd].
  - cbn. rewrite Z.div_1_r. lia.
  - rewrite Z.max_r by lia. split; [apply iter_shr_m; assumption|reflexivity].
  - rewrite Z.max_l by lia. cbn. rewrite Z.div_1_r. lia.
Qed.

Lemma shr_m_of_loc (m : Z) (l : location) : shr_m (shr_record_of_loc m l) = m.
Proof. destruct l as [|[]]; reflexivity. Qed.

Lemma loc_of_loc (m : Z) (l : location) : loc_of_shr_record (shr_record_of_loc m l) = l.
Proof. destruct l as [|[]]; reflexivity. Qed.

Lemma round_nearest_even_bounds (m : Z) (l : location) :
  m <= round_nearest_even m l <= m + 1.
Proof. destruct l as [|[]]; cbn; try destruct (Z.even m); lia. Qed.



Lemma Zdigits2_pow53 : Zdigits2 (2 ^ 53) = 54.
Proof. reflexivity. Qed.

Lemma binary_round_aux_spec (s : bool) (M e : Z) (l : location) :
  0 < M ->
  let E := Z.max e (fexp prec emax (Zdigits2 M + e)) in
  exists m',
    M / 2 ^ (E - e) <= m' <= M / 2 ^ (E - e) + 1 /\
    (l = loc_Exact -> E = e -> m' = M) /\
    -1074 <= E /\
    represents (binary_round_aux prec emax s M e l) s m' E.
Proof.
  intros HM E.
  unfold binary_round_aux, shr_fexp.
  set (n1 := fexp prec emax (Zdigits2 M + e) - e).
  pose proof (shr_m_spec (shr_record_of_loc M l) e n1) as H1.
  rewrite shr_m_of_loc in H1. specialize (H1 ltac:(lia)).
  destruct (shr (shr_record_of_loc M l) e n1) as [r1 e1] eqn:Hshr1.
  cbn [fst snd] in H1. destruct H1 as [Hm1 He1].
  assert (HE : e1 = E) by (unfold E, n1 in *; lia).
  assert (Hn1 : Z.max 0 n1 = E - e) by lia.
  rewrite Hn1 in Hm1.
  assert (HEmin : -1074 <= E) by (unfold E; rewrite fexp_eq; lia).
  set (m' := round_nearest_even (shr_m r1) (loc_of_shr_record r1)).
  pose proof (round_nearest_even_bounds (shr_m r1) (loc_of_shr_record r1)) as Hrne.
  fold m' in Hrne. rewrite Hm1 in Hrne.
  exists m'. split; [exact Hrne|]. split.
  { intros -> HEe. unfold m'.
    assert (n1 <= 0) by lia. clear Hm1 Hrne.
    destruct n1 as [|p|p]; try lia; cbn [shr] in Hshr1; inversion Hshr1; subst r1; reflexivity. }
  split; [exact HEmin|].
  (* the mantissa after the first shift has at most 53 digits *)
  pose proof (Zdigits2_bounds M HM) as [_ HMu].
  assert (Hd : 0 < Zdigits2 M) by (apply Zdigits2_pos; assumption).
  assert (Hm0 : 0 <= M / 2 ^ (E - e) < 2 ^ 53).
  { split; [apply Z.div_pos; [lia|apply Z.pow_pos_nonneg; lia]|].
    apply Z.div_lt_upper_bound; [apply Z.pow_pos_nonneg; lia|].
    rewrite <- Z.pow_add_r by lia.
    eapply Z.lt_le_trans; [exact HMu|].
    apply Z.pow_le_mono_r; [lia|]. unfold E. rewrite fexp_eq. lia. }
  rewrite HE. clear He1 HE Hshr1.
  assert (Hcases : m' = 0 \/ (0 < m' < 2 ^ 53) \/ m' = 2 ^ 53) by lia.
  destruct Hcases as [H0|[Hmid|Htop]].
  - rewrite H0. cbn [Zdigits2]. rewrite fexp_eq.
    replace (Z.max (0 + E - 53) (-1074) - E) with (Z.max (-53) (-1074 - E)) by lia.
    destruct (Z.max (-53) (-1074 - E)) as [|p|p] eqn:Hmx; try lia; cbn; auto.
  - assert (Hd' : Zdigits2 m' <= 53) by (apply Zdigits2_le; lia).
    assert (Hd0 : 0 < Zdigits2 m') by (apply Zdigits2_pos; lia).
    rewrite fexp_eq.
    destruct (Z.max (Zdigits2 m' + E - 53) (-1074) - E) as [|p|p] eqn:Hmx; try lia.
    + cbn [shr shr_record_of_loc shr_m].
      destruct m' as [|pm|pm]; try lia.
      destruct (E <=? emax - prec) eqn:Hle; cbn [represents].
      * apply Z.leb_le in Hle. unfold emax, prec in Hle.
        split; [reflexivity|]. split; [lia|]. split; [lia|]. left. lia.
      * apply Z.leb_gt in Hle. unfold emax, prec in Hle. split; [reflexivity|lia].
    + cbn [shr shr_record_of_loc shr_m].
      destruct m' as [|pm|pm]; try lia.
      destruct (E <=? emax - prec) eqn:Hle; cbn [represents].
      * apply Z.leb_le in Hle. unfold emax, prec in Hle.
        split; [reflexivity|]. split; [lia|]. split; [lia|]. left. lia.
      * apply Z.leb_gt in Hle. unfold emax, prec in Hle. split; [reflexivity|lia].
  - rewrite Htop, Zdigits2_pow53, fexp_eq.
    replace (Z.max (54 + E - 53) (-1074) - E) with 1 by lia.
    cbn [shr shr_record_of_loc SpecFloat.iter_pos].
    change (shr_m (shr_1 {| shr_m := 2 ^ 53; shr_r := false; shr_s := false |}))
      with (Zpos 4503599627370496).
    cbn iota beta.
    destruct (E + 1 <=? emax - prec) eqn:Hle; cbn [represents].
    + apply Z.leb_le in Hle. unfold emax, prec in Hle.
      split; [reflexivity|]. split; [lia|]. split; [lia|]. right. lia.
    + apply Z.leb_gt in Hle. unfold emax, prec in Hle. split; [reflexivity|lia].
Qed.


Lemma iter_xO (d m : positive) : Zpos (Pos.iter xO m d) = Zpos m * 2 ^ Zpos d.
Proof.
  change (Pos.iter xO m d) with (shift_pos d m).
  rewrite shift_pos_correct. change (Zpower_pos 2 d) with (2 ^ Zpos d). lia.
Qed.

Lemma shl_align_spec (m : positive) (e e' : Z) :
  let r := shl_align m e e' in
  snd r = Z.min e e' /\ Zpos (fst r) = Zpos m * 2 ^ (e - Z.min e e').
Proof.
  unfold shl_align. destruct (e' - e) as [|d|d] eqn:Hd; cbn [fst snd].
  - rewrite Z.min_l by lia. rewrite Z.sub_diag. lia.
  - rewrite Z.min_l by lia. rewrite Z.sub_diag. lia.
  - rewrite Z.min_r by lia. split; [reflexivity|].
    rewrite iter_xO. f_equal. f_equal. lia.
Qed.

Lemma Zdigits2_mul_pow (z k : Z) :
  0 < z -> 0 <= k -> Zdigits2 (z * 2 ^ k) = Zdigits2 z + k.
Proof.
  intros Hz Hk.
  destruct (Zdigits2_bounds z Hz) as [Hl Hu].
  pose proof (Zdigits2_pos z Hz) as Hd.
  assert (Hp : 0 < 2 ^ k) by (apply Z.pow_pos_nonneg; lia).
  apply Z.le_antisymm.
  - apply Zdigits2_le; [nia|]. rewrite Z.pow_add_r by lia. nia.
  - replace (Zdigits2 z + k) with ((Zdigits2 z - 1 + k) + 1) by lia.
    apply Zdigits2_ge; [|lia]. rewrite Z.pow_add_r by lia. nia.
Qed.

(** Rounding of [m * 2 ^ e] to the format. *)
Lemma binary_round_spec (s : bool) (m : positive) (e : Z) :
  let E := fexp prec emax (Zpos (digits2_pos m) + e) in
  exists m',
    (E <= e -> m' = Zpos m * 2 ^ (e - E)) /\
    (e <= E -> Zpos m / 2 ^ (E - e) <= m' <= Zpos m / 2 ^ (E - e) + 1) /\
    -1074 <= E /\
    represents (binary_round prec emax s m e) s m' E.
Proof.
  intros E. unfold binary_round.
  pose proof (shl_align_spec m e E) as [He Hm]. fold E.
  destruct (shl_align m e E) as [mz ez]. cbn [fst snd] in He, Hm.
  assert (HEmin : -1074 <= E) by (unfold E; rewrite fexp_eq; lia).
  assert (Hdz : Zdigits2 (Zpos mz) + ez = Zpos (digits2_pos m) + e).
  { rewrite Hm, Zdigits2_mul_pow by lia. cbn [Zdigits2]. lia. }
  destruct (binary_round_aux_spec s (Zpos mz) ez loc_Exact ltac:(lia))
    as (m' & Hb & Hex & _ & Hrep).
  rewrite Hdz in Hb, Hex, Hrep. fold E in Hb, Hex, Hrep.
  destruct (Z.le_gt_cases E e) as [Hle|Hgt].
  - rewrite Z.min_r in He, Hm by lia. subst ez.
    rewrite Z.max_l in Hex, Hrep by lia.
    specialize (Hex eq_refl eq_refl).
    exists m'. split; [intros _; lia|]. split; [|split; [lia|exact Hrep]].
    intros HeE. assert (HEe : E = e) by lia. rewrite HEe in Hm |- *.
    rewrite Z.sub_diag in Hm |- *. rewrite Z.pow_0_r in Hm |- *.
    rewrite Z.div_1_r. lia.
  - rewrite Z.min_l in He, Hm by lia. subst ez.
    rewrite Z.sub_diag, Z.mul_1_r in Hm. rewrite Hm in Hb.
    rewrite Z.max_r in Hb, Hrep by lia.
    exists m'. split; [intros; lia|]. split; [intros _; exact Hb|]. split; [lia|exact Hrep].
Qed.



Lemma represents_scaled (r : spec_float) (m' E : Z) :
  represents r false m' E -> -1074 <= E < 971 ->
  fin_nonneg r /\ scaled r = m' * 2 ^ (E + 1074).
Proof.
  intros Hrep HE. destruct r as [s|s| |s m e]; cbn in *.
  - destruct Hrep as [_ ->]. split; [exact I|lia].
  - lia.
  - contradiction.
  - destruct Hrep as (-> & He & Hm & [[-> ->]|(-> & -> & Hm2)]).
    + split; [repeat split; lia|]. reflexivity.
    + split; [repeat split; lia|]. cbn [cond_Zopp]. rewrite Hm2.
      rewrite <- !Z.pow_add_r by lia. f_equal. lia.
Qed.



Lemma pow2_pos (k : Z) : 0 <= k -> 0 < 2 ^ k.
Proof. intros. apply Z.pow_pos_nonneg; lia. Qed.

Lemma pow2_le (a b : Z) : 0 <= a <= b -> 2 ^ a <= 2 ^ b.
Proof. intros. apply Z.pow_le_mono_r; lia. Qed.

Lemma pow2_lt (a b : Z) : 0 <= a < b -> 2 ^ a < 2 ^ b.
Proof. intros. apply Z.pow_lt_mono_r; lia. Qed.

Lemma pow2_lt_inv (a b : Z) : 2 ^ a < 2 ^ b -> 0 <= a -> a < b.
Proof.
  intros H Ha. destruct (Z.lt_ge_cases a b) as [|Hge]; [assumption|].
  destruct (Z.lt_ge_cases b 0) as [Hb|Hb].
  - rewrite (Z.pow_neg_r 2 b) in H by assumption. pose proof (pow2_pos a Ha). lia.
  - pose proof (pow2_le b a ltac:(lia)). lia.
Qed.

(** A positive [int]-sized integer as a double: the normalised mantissa
    and its exponent. *)
Lemma normalize_int (z : Z) (s : bool) :
  0 < z < 2 ^ 53 ->
  exists m, binary_normalize prec emax z 0 s = S754_finite false m (Zdigits2 z - 53)
            /\ Zpos m = z * 2 ^ (53 - Zdigits2 z)
            /\ Zdigits2 (Zpos m) = 53.
Proof.
  intros Hz. destruct z as [|p|p]; try lia. cbn [binary_normalize Zdigits2].
  destruct (binary_round_spec false p 0) as (m' & Hex & _ & _ & Hrep).
  pose proof (digits2_pos_bounds p) as [Hl Hu].
  set (d := Zpos (digits2_pos p)) in *.
  assert (Hd : 1 <= d <= 53).
  { split; [unfold d; lia|]. apply (Zdigits2_le (Zpos p)); lia. }
  rewrite fexp_eq in Hex, Hrep.
  replace (Z.max (d + 0 - 53) (-1074)) with (d - 53) in Hex, Hrep by lia.
  specialize (Hex ltac:(lia)). replace (0 - (d - 53)) with (53 - d) in Hex by lia.
  assert (Hm' : 2 ^ 52 <= m' < 2 ^ 53).
  { rewrite Hex.
    assert (H52 : 2 ^ (d - 1) * 2 ^ (53 - d) = 2 ^ 52)
      by (rewrite <- Z.pow_add_r by lia; f_equal; lia).
    assert (H53 : 2 ^ d * 2 ^ (53 - d) = 2 ^ 53)
      by (rewrite <- Z.pow_add_r by lia; f_equal; lia).
    pose proof (pow2_pos (53 - d) ltac:(lia)).
    rewrite <- H52, <- H53. split.
    - apply Z.mul_le_mono_nonneg_r; lia.
    - apply Z.mul_lt_mono_pos_r; lia. }
  destruct (binary_round prec emax false p 0) as [s'|s'| |s' m e]; cbn in Hrep; try lia.
  destruct Hrep as (-> & He & Hm & [[-> ->]|(-> & -> & Hm2)]); [|lia].
  exists m. split; [reflexivity|]. split; [exact Hex|].
  pose proof (Zdigits2_le (Zpos m) 53 ltac:(lia) ltac:(lia)).
  pose proof (Zdigits2_ge (Zpos m) 52 ltac:(lia) ltac:(lia)).
  cbn [Zdigits2] in *. lia.
Qed.

Lemma Ztrunc_normalize (z : Z) (s : bool) :
  0 <= z < 2 ^ 53 ->
  match binary_normalize prec emax z 0 s with
  | S754_zero _ => z = 0
  | S754_finite s' m e => s' = false /\ Z.shiftl (Zpos m) e = z
  | _ => False
  end.
Proof.
  intros Hz. destruct (Z.eq_dec z 0) as [->|Hnz]; [reflexivity|].
  destruct (normalize_int z s ltac:(lia)) as (m & -> & Hm & _).
  split; [reflexivity|].
  pose proof (Zdigits2_pos z ltac:(lia)) as Hd0.
  assert (Hd : Zdigits2 z <= 53) by (apply Zdigits2_le; lia).
  rewrite Z.shiftl_div_pow2 by lia. rewrite Hm.
  replace (- (Zdigits2 z - 53)) with (53 - Zdigits2 z) by lia.
  apply Z.div_mul. pose proof (pow2_pos (53 - Zdigits2 z)). lia.
Qed.

Lemma scaled_of_int (z : Z) :
  0 <= z < 2 ^ 53 -> fin_nonneg (of_int z) /\ scaled (of_int z) = z * 2 ^ 1074.
Proof.
  intros Hz. unfold of_int. destruct (Z.eq_dec z 0) as [->|Hnz]; [split; [exact I|reflexivity]|].
  destruct (normalize_int z false ltac:(lia)) as (m & -> & Hm & Hdm).
  pose proof (Zdigits2_pos z ltac:(lia)) as Hd0.
  assert (Hd : Zdigits2 z <= 53) by (apply Zdigits2_le; lia).
  pose proof (Zdigits2_bounds (Zpos m) ltac:(lia)) as [_ Hmu]. rewrite Hdm in Hmu.
  split; [cbn; repeat split; lia|].
  cbn [scaled cond_Zopp]. rewrite Hm, <- Z.mul_assoc, <- Z.pow_add_r by lia.
  f_equal. f_equal. lia.
Qed.


Lemma scaled_lt_pow (m : positive) (e b : Z) :
  -1074 <= e -> Zpos m * 2 ^ (e + 1074) < 2 ^ b -> Zpos m < 2 ^ (b - 1074 - e) /\ e + 1074 < b.
Proof.
  intros He H.
  pose proof (pow2_pos (e + 1074) ltac:(lia)) as Hp.
  assert (Hb : e + 1074 < b).
  { apply pow2_lt_inv; [|lia]. nia. }
  split; [|exact Hb].
  replace b with ((b - 1074 - e) + (e + 1074)) in H by lia.
  rewrite (Z.pow_add_r 2 (b - 1074 - e) (e + 1074)) in H by lia. nia.
Qed.

(** The product of an [int] and a fraction, rounded: it exceeds the
    exact product by less than [2 ^ -21]. *)
Lemma fmul_int_upper (N : Z) (y : spec_float) :
  0 < N < 2 ^ 31 -> fin_nonneg y -> scaled y < 2 ^ 1075 ->
  fin_nonneg (fmul (of_int N) y) /\
  scaled (fmul (of_int N) y) <= N * scaled y + 2 ^ 1053.
Proof.
  intros HN Hy Hsy. unfold of_int.
  destruct (normalize_int N false ltac:(lia)) as (mN & -> & HmN & HdN).
  pose proof (Zdigits2_pos N ltac:(lia)) as HdN0.
  assert (HdN31 : Zdigits2 N <= 31) by (apply Zdigits2_le; lia).
  set (dN := Zdigits2 N) in *.
  destruct y as [s|s| |s my ey]; cbn in Hy; try contradiction.
  { cbn. split; [exact I|]. lia. }
  destruct Hy as (-> & Hey & Hmy). cbn [scaled cond_Zopp] in Hsy |- *.
  destruct (scaled_lt_pow my ey 1075 Hey Hsy) as [Hmy1 Hey0].
  replace (1075 - 1074 - ey) with (1 - ey) in Hmy1 by lia.
  unfold fmul. cbn [SFmul xorb].
  set (M := Zpos (mN * my)). set (e := dN - 53 + ey).
  assert (HM : M = Zpos mN * Zpos my) by reflexivity.
  assert (HMpos : 0 < M) by (unfold M; lia).
  destruct (binary_round_aux_spec false M e loc_Exact HMpos) as (m' & Hb & _ & HEmin & Hrep).
  set (E := Z.max e (fexp prec emax (Zdigits2 M + e))) in *.
  (* the exponent of the result *)
  pose proof (Zdigits2_bounds (Zpos mN) ltac:(lia)) as [_ HmNu]. rewrite HdN in HmNu.
  assert (HdM : Zdigits2 M <= 54 - ey).
  { apply Zdigits2_le; [assumption|].
    replace (54 - ey) with (53 + (1 - ey)) by lia. rewrite Z.pow_add_r by lia. nia. }
  assert (HE : E <= -21) by (unfold E, e; rewrite fexp_eq; lia).
  destruct (represents_scaled _ _ _ Hrep ltac:(lia)) as [Hfin Hsc].
  split; [exact Hfin|]. rewrite Hsc.
  set (k := E - e) in *.
  assert (Hk : 0 <= k) by (unfold k, E; lia).
  pose proof (pow2_pos k Hk) as Hpk.
  pose proof (Z.mul_div_le M (2 ^ k) Hpk) as Hdiv.
  pose proof (pow2_pos (ey + 1074) ltac:(lia)) as Hpa.
  pose proof (pow2_pos (53 - dN) ltac:(lia)) as Hpb.
  pose proof (pow2_pos (E + 1074) ltac:(lia)) as HpE.
  assert (Hexp : 2 ^ (E + 1074) * 2 ^ (53 - dN) = 2 ^ k * 2 ^ (ey + 1074)).
  { rewrite <- !Z.pow_add_r by lia. f_equal. unfold k, e. lia. }
  assert (Hmain : M / 2 ^ k * 2 ^ (E + 1074) <= N * (Zpos my * 2 ^ (ey + 1074))).
  { apply (Z.mul_le_mono_pos_r _ _ (2 ^ (53 - dN)) Hpb).
    rewrite <- Z.mul_assoc, Hexp.
    replace (N * (Zpos my * 2 ^ (ey + 1074)) * 2 ^ (53 - dN))
      with (M * 2 ^ (ey + 1074)) by (rewrite HM, HmN; ring).
    rewrite Z.mul_assoc. apply Z.mul_le_mono_nonneg_r; lia. }
  pose proof (pow2_le (E + 1074) 1053 ltac:(lia)).
  nia.
Qed.


(** A double that is not above 1.0. *)
Lemma not_gt_one_scaled (y : pfloat) :
  fin_nonneg y -> fgt y lit_1_0 = false ->
  scaled y <= 2 ^ 1074 /\
  match y with S754_finite _ _ e => e <= -52 | _ => True end.
Proof.
  intros Hy Hgt. destruct y as [s|s| |s m e]; cbn in Hy; try contradiction.
  { split; [cbn; lia|exact I]. }
  destruct Hy as (-> & He & Hm).
  unfold fgt, SFltb, lit_1_0 in Hgt. cbn [SFcompare] in Hgt.
  cbn [scaled cond_Zopp].
  destruct (Z.compare_spec (-52) e) as [Heq|Hlt|Hgt']; try discriminate.
  - subst e. split; [|lia].
    rewrite Pos.compare_cont_spec in Hgt. cbn [Pos.switch_Eq] in Hgt.
    rewrite Pos2Z.inj_compare in Hgt.
    change (-52 + 1074) with 1022.
    replace (2 ^ 1074) with (2 ^ 52 * 2 ^ 1022) by (rewrite <- Z.pow_add_r by lia; reflexivity).
    pose proof (pow2_pos 1022 ltac:(lia)).
    change (Zpos 4503599627370496) with (2 ^ 52) in Hgt.
    destruct (Z.compare_spec (2 ^ 52) (Zpos m)) as [Hc|Hc|Hc]; try discriminate.
    + rewrite <- Hc. lia.
    + apply Z.mul_le_mono_nonneg_r; lia.
  - split; [|lia].
    pose proof (pow2_le (e + 1074) 1021 ltac:(lia)).
    pose proof (pow2_pos (e + 1074) ltac:(lia)).
    replace (2 ^ 1074) with (2 ^ 53 * 2 ^ 1021) by (rewrite <- Z.pow_add_r by lia; reflexivity).
    assert (Zpos m * 2 ^ (e + 1074) <= 2 ^ 53 * 2 ^ (e + 1074)) by nia.
    assert (2 ^ 53 * 2 ^ (e + 1074) <= 2 ^ 53 * 2 ^ 1021) by (apply Z.mul_le_mono_nonneg_l; lia).
    lia.
Qed.

Lemma scaled_nonneg (y : pfloat) : fin_nonneg y -> 0 <= scaled y.
Proof.
  destruct y as [s|s| |s m e]; cbn; try lia.
  intros (-> & He & _). cbn. pose proof (pow2_pos (e + 1074) ltac:(lia)). lia.
Qed.

(** Two fractions that pass the test of line 85: their exact sum is
    below [1 + 2 ^ -52]. *)
Lemma fadd_not_gt_one (x y : pfloat) :
  fin_nonneg x -> fin_nonneg y ->
  fgt (fadd x y) lit_1_0 = false ->
  scaled x + scaled y < 2 ^ 1074 + 2 ^ 1022.
Proof.
  intros Hx Hy Hgt.
  assert (Hbig : 0 < 2 ^ 1022) by (apply pow2_pos; lia).
  destruct x as [sx|sx| |sx mx ex]; cbn in Hx; try contradiction;
    destruct y as [sy|sy| |sy my ey]; cbn in Hy; try contradiction.
  - cbn. lia.
  - change (fadd (S754_zero sx) (S754_finite sy my ey)) with (S754_finite sy my ey) in Hgt.
    destruct (not_gt_one_scaled (S754_finite sy my ey) Hy Hgt) as [H _]. cbn [scaled] in *. lia.
  - change (fadd (S754_finite sx mx ex) (S754_zero sy)) with (S754_finite sx mx ex) in Hgt.
    destruct (not_gt_one_scaled (S754_finite sx mx ex) Hx Hgt) as [H _]. cbn [scaled] in *. lia.
  - destruct Hx as (-> & Hex & Hmx). destruct Hy as (-> & Hey & Hmy).
    unfold fadd in Hgt. cbn [SFadd cond_Zopp] in Hgt.
    set (ez := Z.min ex ey) in *.
    pose proof (shl_align_spec mx ex ez) as [_ Ha].
    pose proof (shl_align_spec my ey ez) as [_ Hb].
    rewrite Z.min_r in Ha by (unfold ez; lia).
    rewrite Z.min_r in Hb by (unfold ez; lia).
    set (a := fst (shl_align mx ex ez)) in *.
    set (b := fst (shl_align my ey ez)) in *.
    change (Zpos a + Zpos b) with (Zpos (a + b)) in Hgt.
    cbn [binary_normalize] in Hgt.
    destruct (binary_round_spec false (a + b) ez) as (m' & Hexact & Hround & HEmin & Hrep).
    set (E := fexp prec emax (Zpos (digits2_pos (a + b)) + ez)) in *.
    assert (Hsum : Zpos mx * 2 ^ (ex + 1074) + Zpos my * 2 ^ (ey + 1074)
                   = Zpos (a + b) * 2 ^ (ez + 1074)).
    { rewrite Pos2Z.inj_add, Ha, Hb, Z.mul_add_distr_r.
      rewrite <- !Z.mul_assoc, <- !Z.pow_add_r by (unfold ez; lia).
      f_equal; f_equal; f_equal; lia. }
    cbn [scaled cond_Zopp]. rewrite Hsum.
    assert (Hez : -1074 <= ez) by (unfold ez; lia).
    pose proof (pow2_pos (ez + 1074) ltac:(lia)) as Hpz.
    pose proof (pow2_pos (E + 1074) ltac:(lia)) as HpE.
    (* the exact sum is below the rounded one plus one unit *)
    assert (Hbelow : Zpos (a + b) * 2 ^ (ez + 1074) < (m' + 1) * 2 ^ (E + 1074)).
    { destruct (Z.le_gt_cases E ez) as [Hle|Hlt].
      - rewrite (Hexact Hle).
        assert (Hp : 2 ^ (ez - E) * 2 ^ (E + 1074) = 2 ^ (ez + 1074))
          by (rewrite <- Z.pow_add_r by lia; f_equal; lia).
        rewrite <- Hp. nia.
      - specialize (Hround ltac:(lia)).
        pose proof (pow2_pos (E - ez) ltac:(lia)) as Hpk.
        pose proof (Z.mod_pos_bound (Zpos (a + b)) (2 ^ (E - ez)) Hpk) as Hmod.
        pose proof (Z.div_mod (Zpos (a + b)) (2 ^ (E - ez)) ltac:(lia)) as Hdm.
        replace (E + 1074) with ((E - ez) + (ez + 1074)) by lia.
        rewrite (Z.pow_add_r 2 (E - ez) (ez + 1074)) by lia.
        assert (Hlt' : Zpos (a + b) < (m' + 1) * 2 ^ (E - ez)) by nia.
        rewrite Z.mul_assoc. apply Z.mul_lt_mono_pos_r; assumption. }
    destruct (binary_round prec emax false (a + b) ez) as [s|s| |s m e] eqn:Hr;
      cbn [represents] in Hrep.
    + destruct Hrep as [_ ->].
      destruct (Z.le_gt_cases E ez) as [Hle|Hlt].
      * specialize (Hexact Hle). pose proof (pow2_pos (ez - E) ltac:(lia)). lia.
      * specialize (Hround ltac:(lia)).
        pose proof (pow2_pos (E - ez) ltac:(lia)) as Hpk.
        assert (Hsmall : Zpos (a + b) < 2 ^ (E - ez)).
        { destruct (Z.lt_ge_cases (Zpos (a + b)) (2 ^ (E - ez))) as [|Hge]; [assumption|].
          pose proof (Z.div_le_lower_bound (Zpos (a + b)) (2 ^ (E - ez)) 1 Hpk ltac:(lia)). lia. }
        pose proof (Zdigits2_le (Zpos (a + b)) (E - ez) ltac:(lia) Hsmall) as Hd.
        cbn [Zdigits2] in Hd. unfold E in Hd at 1. rewrite fexp_eq in Hd.
        assert (HE : E = -1074) by (unfold E; rewrite fexp_eq; lia).
        rewrite HE in Hbelow. change (2 ^ (-1074 + 1074)) with 1 in Hbelow. 
        pose proof (pow2_pos 1074 ltac:(lia)). lia.
    + destruct Hrep as [-> _]. discriminate.
    + contradiction.
    + destruct Hrep as (-> & He & Hm & Hcase).
      assert (HeE : E <= e) by lia.
      assert (Hfin : fin_nonneg (S754_finite false m e)) by (cbn; repeat split; lia).
      destruct (not_gt_one_scaled _ Hfin Hgt) as [Hs He52].
      cbn [scaled cond_Zopp] in Hs.
      assert (Hm' : m' * 2 ^ (E + 1074) = Zpos m * 2 ^ (e + 1074)).
      { destruct Hcase as [[-> ->]|(-> & -> & ->)]; [reflexivity|].
        rewrite <- !Z.pow_add_r by lia. f_equal. lia. }
      pose proof (pow2_le (E + 1074) 1022 ltac:(lia)).
      lia.
Qed.

(** ** Floor, ceiling and the conversion to [idxint] *)

Lemma Zfloor_spec (m : positive) (e : Z) :
  -1074 <= e ->
  0 <= Zfloor false m e /\
  Zfloor false m e * 2 ^ 1074 <= Zpos m * 2 ^ (e + 1074) < (Zfloor false m e + 1) * 2 ^ 1074.
Proof.
  intros He. unfold Zfloor. cbn [cond_Zopp].
  destruct (Z.le_gt_cases 0 e) as [Hpos|Hneg].
  - rewrite Z.shiftl_mul_pow2 by lia. rewrite (Z.pow_add_r 2 e 1074) by lia.
    pose proof (pow2_pos e Hpos). pose proof (pow2_pos 1074 ltac:(lia)). nia.
  - rewrite Z.shiftl_div_pow2 by lia.
    set (k := - e). assert (Hk : 0 < k <= 1074) by (unfold k; lia).
    replace (e + 1074) with (1074 - k) by (unfold k; lia).
    assert (H1074 : 2 ^ 1074 = 2 ^ k * 2 ^ (1074 - k))
      by (rewrite <- Z.pow_add_r by lia; f_equal; lia).
    rewrite H1074.
    pose proof (pow2_pos k ltac:(lia)) as Hpk.
    pose proof (pow2_pos (1074 - k) ltac:(lia)) as Hpr.
    pose proof (Z.div_mod (Zpos m) (2 ^ k) ltac:(lia)) as Hdm.
    pose proof (Z.mod_pos_bound (Zpos m) (2 ^ k) Hpk) as Hmod.
    assert (0 <= Zpos m / 2 ^ k) by (apply Z.div_pos; lia).
    assert (Hq : Zpos m / 2 ^ k * 2 ^ k <= Zpos m < (Zpos m / 2 ^ k + 1) * 2 ^ k) by nia.
    split; [assumption|]. rewrite !Z.mul_assoc. split.
    + apply Z.mul_le_mono_nonneg_r; lia.
    + apply Z.mul_lt_mono_pos_r; lia.
Qed.

Lemma Zceil_spec (m : positive) (e : Z) :
  -1074 <= e ->
  (Zceil false m e - 1) * 2 ^ 1074 < Zpos m * 2 ^ (e + 1074) <= Zceil false m e * 2 ^ 1074.
Proof.
  intros He. unfold Zceil. cbn [cond_Zopp negb].
  destruct (Z.le_gt_cases 0 e) as [Hpos|Hneg].
  - rewrite Z.shiftl_mul_pow2 by lia. rewrite (Z.pow_add_r 2 e 1074) by lia.
    pose proof (pow2_pos e Hpos). pose proof (pow2_pos 1074 ltac:(lia)).
    change (Z.opp (Zpos m)) with (- Zpos m). nia.
  - rewrite Z.shiftl_div_pow2 by lia.
    set (k := - e). assert (Hk : 0 < k <= 1074) by (unfold k; lia).
    replace (e + 1074) with (1074 - k) by (unfold k; lia).
    assert (H1074 : 2 ^ 1074 = 2 ^ k * 2 ^ (1074 - k))
      by (rewrite <- Z.pow_add_r by lia; f_equal; lia).
    rewrite H1074.
    pose proof (pow2_pos k ltac:(lia)) as Hpk.
    pose proof (pow2_pos (1074 - k) ltac:(lia)) as Hpr.
    change (Z.opp (Zpos m)) with (- Zpos m).
    pose proof (Z.div_mod (- Zpos m) (2 ^ k) ltac:(lia)) as Hdm.
    pose proof (Z.mod_pos_bound (- Zpos m) (2 ^ k) Hpk) as Hmod.
    assert (Hq : (- (- Zpos m / 2 ^ k) - 1) * 2 ^ k < Zpos m <= - (- Zpos m / 2 ^ k) * 2 ^ k) by nia.
    rewrite !Z.mul_assoc. split.
    + apply Z.mul_lt_mono_pos_r; lia.
    + apply Z.mul_le_mono_nonneg_r; lia.
Qed.

Lemma to_idxint_normalize (E : libc) (z : Z) (s : bool) :
  0 <= z <= INT_MAX -> to_idxint E (binary_normalize prec emax z 0 s) = z.
Proof.
  intros Hz. unfold INT_MAX in Hz.
  assert (Hz53 : 0 <= z < 2 ^ 53) by (change (2 ^ 53) with 9007199254740992; lia).
  pose proof (Ztrunc_normalize z s Hz53) as H.
  unfold to_idxint.
  destruct (binary_normalize prec emax z 0 s) as [s'|s'| |s' m e]; try contradiction.
  - subst z. reflexivity.
  - destruct H as [-> H]. cbn [Ztrunc cond_Zopp]. rewrite H.
    replace (INT_MIN <=? z) with true by (symmetry; apply Z.leb_le; unfold INT_MIN; lia).
    replace (z <=? INT_MAX) with true by (symmetry; apply Z.leb_le; unfold INT_MAX; lia).
    reflexivity.
Qed.

(** [(idxint) floor(x)] of a finite non-negative double below [2 ^ 31]. *)
Lemma to_idxint_floor (E : libc) (r : pfloat) :
  fin_nonneg r -> scaled r < 2 ^ 31 * 2 ^ 1074 ->
  0 <= to_idxint E (floor r) /\
  to_idxint E (floor r) * 2 ^ 1074 <= scaled r.
Proof.
  intros Hr Hs. destruct r as [s|s| |s m e]; cbn in Hr; try contradiction.
  - cbn. lia.
  - destruct Hr as (-> & He & Hm). cbn [floor scaled cond_Zopp] in *.
    destruct (Zfloor_spec m e He) as (H0 & Hl & Hu).
    pose proof (pow2_pos 1074 ltac:(lia)) as Hp.
    assert (Zfloor false m e < 2 ^ 31) by nia.
    rewrite to_idxint_normalize by (unfold INT_MAX; lia). lia.
Qed.

(** [(idxint) ceil(x)] of a finite non-negative double. *)
Lemma to_idxint_ceil (E : libc) (r : pfloat) :
  fin_nonneg r -> scaled r <= INT_MAX * 2 ^ 1074 ->
  (to_idxint E (ceil r) - 1) * 2 ^ 1074 < scaled r \/ scaled r = 0 /\ to_idxint E (ceil r) = 0.
Proof.
  intros Hr Hs. destruct r as [s|s| |s m e]; cbn in Hr; try contradiction.
  - right. split; reflexivity.
  - left. destruct Hr as (-> & He & Hm). cbn [ceil scaled cond_Zopp] in *.
    destruct (Zceil_spec m e He) as (Hl & Hu).
    pose proof (pow2_pos 1074 ltac:(lia)) as Hp.
    pose proof (pow2_pos (e + 1074) ltac:(lia)) as Hpe.
    assert (0 <= Zceil false m e <= INT_MAX) by (unfold INT_MAX in *; nia).
    rewrite to_idxint_normalize by assumption. lia.
Qed.

Lemma to_idxint_ceil_ge (E : libc) (r : pfloat) :
  fin_nonneg r -> scaled r <= INT_MAX * 2 ^ 1074 ->
  scaled r <= to_idxint E (ceil r) * 2 ^ 1074.
Proof.
  intros Hr Hs. destruct r as [s|s| |s m e]; cbn in Hr; try contradiction.
  - cbn. lia.
  - destruct Hr as (-> & He & Hm). cbn [ceil scaled cond_Zopp] in *.
    destruct (Zceil_spec m e He) as (Hl & Hu).
    pose proof (pow2_pos 1074 ltac:(lia)) as Hp.
    pose proof (pow2_pos (e + 1074) ltac:(lia)) as Hpe.
    assert (0 <= Zceil false m e <= INT_MAX) by (unfold INT_MAX in *; nia).
    rewrite to_idxint_normalize by assumption. lia.
Qed.

(** ** Comparison of doubles in canonical form *)

Lemma valid_finite (s : bool) (m : positive) (e : Z) :
  valid_binary prec emax (S754_finite s m e) = true ->
  -1074 <= e <= 971 /\ Zpos m < 2 ^ 53 /\ (-1074 < e -> 2 ^ 52 <= Zpos m).
Proof.
  cbn [valid_binary]. unfold bounded, canonical_mantissa.
  rewrite andb_true_iff, Z.eqb_eq, Z.leb_le, fexp_eq. intros [Hc Hb].
  unfold emax, prec in Hb.
  pose proof (digits2_pos_bounds m) as [Hl Hu].
  set (d := Zpos (digits2_pos m)) in *.
  assert (Hd : 1 <= d <= 53) by (unfold d; lia).
  pose proof (pow2_le d 53 ltac:(lia)).
  split; [lia|]. split; [lia|].
  intros He. assert (d = 53) by lia. subst d.
  replace 52 with (Zpos (digits2_pos m) - 1) by lia. exact Hl.
Qed.

Lemma fle_finite_scaled (m1 m2 : positive) (e1 e2 : Z) :
  valid_binary prec emax (S754_finite false m1 e1) = true ->
  valid_binary prec emax (S754_finite false m2 e2) = true ->
  fle (S754_finite false m1 e1) (S754_finite false m2 e2) = true ->
  Zpos m1 * 2 ^ (e1 + 1074) <= Zpos m2 * 2 ^ (e2 + 1074).
Proof.
  intros V1 V2 Hle.
  destruct (valid_finite _ _ _ V1) as (He1 & Hm1 & _).
  destruct (valid_finite _ _ _ V2) as (He2 & Hm2 & Hn2).
  unfold fle, SFleb in Hle. cbn [SFcompare] in Hle.
  destruct (Z.compare_spec e1 e2) as [Heq|Hlt|Hgt]; try discriminate.
  - subst e2. rewrite Pos.compare_cont_spec in Hle. cbn [Pos.switch_Eq] in Hle.
    rewrite Pos2Z.inj_compare in Hle.
    pose proof (pow2_pos (e1 + 1074) ltac:(lia)).
    destruct (Z.compare_spec (Zpos m1) (Zpos m2)); try discriminate; nia.
  - specialize (Hn2 ltac:(lia)).
    pose proof (pow2_pos (e1 + 1074) ltac:(lia)) as Hp1.
    assert (Hp : 2 * 2 ^ (e1 + 1074) <= 2 ^ (e2 + 1074)).
    { rewrite <- Z.pow_succ_r by lia. apply pow2_le. lia. }
    change (2 ^ 53) with (2 * 2 ^ 52) in Hm1.
    pose proof (pow2_pos 52 ltac:(lia)) as Hp52.
    assert (Zpos m1 * 2 ^ (e1 + 1074) <= 2 ^ 52 * (2 * 2 ^ (e1 + 1074))) by nia.
    assert (2 ^ 52 * (2 * 2 ^ (e1 + 1074)) <= 2 ^ 52 * 2 ^ (e2 + 1074))
      by (apply Z.mul_le_mono_nonneg_l; lia).
    assert (2 ^ 52 * 2 ^ (e2 + 1074) <= Zpos m2 * 2 ^ (e2 + 1074))
      by (apply Z.mul_le_mono_nonneg_r; lia).
    lia.
Qed.

(** A canonical double not below 1.0 and not above a finite one is a
    normal positive number. *)
Lemma between_one_and_finite (L x : pfloat) :
  valid_binary prec emax L = true ->
  fle lit_1_0 L = true ->
  match x with S754_finite false _ _ => fle L x = true | _ => False end ->
  exists m e, L = S754_finite false m e /\ -52 <= e <= 971 /\
              2 ^ 52 <= Zpos m < 2 ^ 53.
Proof.
  intros V H1 Hx.
  destruct x as [| | |[] mx ex]; try contradiction.
  destruct L as [s|s| |s m e]; try discriminate.
  { destruct s; discriminate. }
  destruct s; [discriminate|].
  destruct (valid_finite _ _ _ V) as (He & Hm & Hn).
  exists m, e. split; [reflexivity|].
  unfold fle, SFleb, lit_1_0 in H1. cbn [SFcompare] in H1.
  destruct (Z.compare_spec (-52) e) as [Heq|Hlt|Hgt]; try discriminate.
  - subst e. split; [lia|]. split; [apply Hn; lia|assumption].
  - split; [lia|]. split; [apply Hn; lia|assumption].
Qed.

(** ** Division of normal numbers *)

(** The quotient of two positive normal doubles lies within one unit
    in the last place of the truncated exact quotient. *)
Lemma fdiv_spec (m1 m2 : positive) (e1 e2 : Z) :
  2 ^ 52 <= Zpos m1 < 2 ^ 53 -> 2 ^ 52 <= Zpos m2 < 2 ^ 53 ->
  -1074 <= e1 - e2 - 53 < 969 ->
  let e' := e1 - e2 - 53 in
  let q := Zpos m1 * 2 ^ 53 / Zpos m2 in
  let r := fdiv (S754_finite false m1 e1) (S754_finite false m2 e2) in
  exists k, (k = 0 \/ k = 1) /\ 2 ^ 52 <= q /\ fin_nonneg r /\
    q / 2 ^ k * 2 ^ (e' + k + 1074) <= scaled r <= (q / 2 ^ k + 1) * 2 ^ (e' + k + 1074).
Proof.
  intros Hm1 Hm2 He e' q r.
  assert (Hd1 : Zdigits2 (Zpos m1) = 53).
  { pose proof (Zdigits2_le (Zpos m1) 53 ltac:(lia) ltac:(lia)).
    pose proof (Zdigits2_ge (Zpos m1) 52 ltac:(lia) ltac:(lia)). lia. }
  assert (Hd2 : Zdigits2 (Zpos m2) = 53).
  { pose proof (Zdigits2_le (Zpos m2) 53 ltac:(lia) ltac:(lia)).
    pose proof (Zdigits2_ge (Zpos m2) 52 ltac:(lia) ltac:(lia)). lia. }
  pose proof (pow2_pos 52 ltac:(lia)) as Hp52.
  assert (H53 : 2 ^ 53 = 2 * 2 ^ 52) by reflexivity.
  assert (Hq : 2 ^ 52 <= q < 2 ^ 54).
  { unfold q. split.
    - apply Z.div_le_lower_bound; [lia|]. rewrite H53 in *. nia.
    - apply Z.div_lt_upper_bound; [lia|].
      change (2 ^ 54) with (2 * 2 ^ 53). rewrite H53 in *. nia. }
  unfold r, fdiv. cbn [SFdiv xorb]. unfold SFdiv_core_binary.
  rewrite Hd1, Hd2, fexp_eq.
  replace (Z.min (Z.max (53 + e1 - (53 + e2) - 53) (-1074)) (e1 - e2)) with e'
    by (unfold e'; lia).
  replace (e1 - e2 - e') with 53 by (unfold e'; lia).
  rewrite Z.shiftl_mul_pow2 by lia.
  pose proof (Z.div_eucl_eq (Zpos m1 * 2 ^ 53) (Zpos m2) ltac:(lia)) as Heucl.
  assert (Hqdef : q = fst (Z.div_eucl (Zpos m1 * 2 ^ 53) (Zpos m2))) by reflexivity.
  destruct (Z.div_eucl (Zpos m1 * 2 ^ 53) (Zpos m2)) as [q0 r0]. cbn [fst] in Hqdef. subst q0.
  destruct (binary_round_aux_spec false q e' (new_location (Zpos m2) r0) ltac:(lia))
    as (m' & Hb & _ & HEmin & Hrep).
  set (E := Z.max e' (fexp prec emax (Zdigits2 q + e'))) in *.
  pose proof (Zdigits2_le q 54 ltac:(lia) ltac:(lia)) as Hdq1.
  pose proof (Zdigits2_ge q 52 ltac:(lia) ltac:(lia)) as Hdq2.
  assert (HE : E = e' + 0 \/ E = e' + 1) by (unfold E; rewrite fexp_eq; lia).
  exists (E - e'). split; [lia|]. split; [lia|].
  destruct (represents_scaled _ _ _ Hrep ltac:(lia)) as [Hfin Hsc].
  split; [exact Hfin|]. rewrite Hsc.
  replace (e' + (E - e') + 1074) with (E + 1074) by lia.
  pose proof (pow2_pos (E + 1074) ltac:(lia)). nia.
Qed.

Lemma valid_normal (s : bool) (m : positive) (e : Z) :
  Zdigits2 (Zpos m) = 53 -> -1074 <= e <= 971 ->
  valid_binary prec emax (S754_finite s m e) = true.
Proof.
  intros Hd He. cbn [valid_binary]. unfold bounded, canonical_mantissa.
  cbn [Zdigits2] in Hd. rewrite Hd, fexp_eq.
  apply andb_true_iff. split; [apply Z.eqb_eq; lia|apply Z.leb_le; unfold emax, prec; lia].
Qed.

(** ** The block bound [max_q] *)

Lemma max_q_bounds (E : libc) (N : Z) :
  3 <= N < INT_MAX -> log_sane E N ->
  1 <= to_idxint E (ceil (fdiv (of_int N) (log E (of_int N)))) <= N + 1.
Proof.
  intros HN (V & H1 & H2). unfold INT_MAX in HN.
  assert (HN53 : 0 < N < 2 ^ 53) by (change (2 ^ 53) with 9007199254740992; lia).
  unfold of_int in *.
  destruct (normalize_int N false HN53) as (mN & HeqN & HmN & HdN).
  rewrite HeqN in *.
  pose proof (Zdigits2_pos N ltac:(lia)) as Hd0.
  assert (Hd2 : 2 <= Zdigits2 N) by (apply (Zdigits2_ge N 1); lia).
  assert (Hd31 : Zdigits2 N <= 31) by (apply Zdigits2_le; [lia|change (2 ^ 31) with 2147483648; lia]).
  set (dN := Zdigits2 N) in *. set (eN := dN - 53) in *.
  assert (VN : valid_binary prec emax (S754_finite false mN eN) = true)
    by (apply valid_normal; [assumption|unfold eN; lia]).
  destruct (between_one_and_finite _ (S754_finite false mN eN) V H1 H2)
    as (m2 & e2 & HL & He2 & Hm2).
  rewrite HL in *.
  pose proof (fle_finite_scaled _ _ _ _ V VN H2) as HleN.
  assert (V1 : valid_binary prec emax lit_1_0 = true) by reflexivity.
  pose proof (fle_finite_scaled _ _ _ _ V1 V H1) as Hge1.
  change (-52 + 1074) with 1022 in Hge1.
  pose proof (Zdigits2_bounds (Zpos mN) ltac:(lia)) as HmNb. rewrite HdN in HmNb.
  change (53 - 1) with 52 in HmNb.
  set (A := 2 ^ (eN + 1074)) in *. set (B := 2 ^ (e2 + 1074)) in *.
  assert (HA : 0 < A) by (apply pow2_pos; unfold eN; lia).
  assert (HB : 0 < B) by (apply pow2_pos; lia).
  assert (HNA : Zpos mN * A = N * 2 ^ 1074).
  { rewrite HmN. unfold A. rewrite <- Z.mul_assoc, <- Z.pow_add_r by (unfold eN; lia).
    f_equal. f_equal. unfold eN. lia. }
  assert (H1074 : 2 ^ 1074 = 2 ^ 52 * 2 ^ 1022) by reflexivity.
  pose proof (pow2_pos 1022 ltac:(lia)) as Hp1022.
  pose proof (pow2_pos 52 ltac:(lia)) as Hp52.
  assert (He2u : e2 <= -22).
  { assert (Hlt : 2 ^ (e2 + 1074) < 2 ^ 1053).
    { change (2 ^ 1053) with (2 ^ 31 * 2 ^ 1022). fold B.
      change (2 ^ 31) with 2147483648. rewrite H1074 in HNA.
      assert (2 ^ 52 * B <= Zpos m2 * B) by (apply Z.mul_le_mono_nonneg_r; lia).
      assert (N * (2 ^ 52 * 2 ^ 1022) < 2147483648 * (2 ^ 52 * 2 ^ 1022)) by nia.
      nia. }
    apply pow2_lt_inv in Hlt; lia. }
  set (e' := eN - e2 - 53).
  assert (He' : -82 <= e' <= -23) by (unfold e', eN; lia).
  destruct (fdiv_spec mN m2 eN e2 ltac:(lia) ltac:(lia) ltac:(fold e'; lia))
    as (k & Hk & Hq52 & Hfin & Hlo & Hhi).
  fold e' in Hlo, Hhi.
  set (q := Zpos mN * 2 ^ 53 / Zpos m2) in *.
  set (r := fdiv (S754_finite false mN eN) (S754_finite false m2 e2)) in *.
  assert (Hk0 : 0 <= k <= 1) by lia.
  pose proof (pow2_pos k ltac:(lia)) as Hpk.
  pose proof (pow2_pos (e' + 1074) ltac:(lia)) as Hpe.
  pose proof (pow2_pos (e' + k + 1074) ltac:(lia)) as Hpek.
  pose proof (pow2_pos (- e') ltac:(lia)) as Hpne.
  pose proof (pow2_pos (- e' - k) ltac:(lia)) as Hpnek.
  (* identities between the powers of two at hand *)
  assert (I1 : 2 ^ (- e') * A = 2 ^ 53 * B).
  { unfold A, B. rewrite <- !Z.pow_add_r by (unfold eN in *; lia). f_equal. unfold e'. lia. }
  assert (I2 : 2 ^ 53 * 2 ^ (e' + 1074) * B = A * 2 ^ 1074).
  { unfold A, B. rewrite <- !Z.pow_add_r by (unfold eN in *; lia). f_equal. unfold e'. lia. }
  assert (I3 : 2 ^ (- e' - k) * 2 ^ k = 2 ^ (- e'))
    by (rewrite <- Z.pow_add_r by lia; f_equal; lia).
  assert (I4 : 2 ^ (- e' - k) * 2 ^ (e' + k + 1074) = 2 ^ 1074)
    by (rewrite <- Z.pow_add_r by lia; f_equal; lia).
  assert (I5 : 2 ^ k * 2 ^ (e' + 1074) = 2 ^ (e' + k + 1074))
    by (rewrite <- Z.pow_add_r by lia; f_equal; lia).
  pose proof (Z.mul_div_le (Zpos mN * 2 ^ 53) (Zpos m2) ltac:(lia)) as Hqm. fold q in Hqm.
  (* from below *)
  assert (Hq1 : 2 ^ (- e') <= q).
  { apply Z.div_le_lower_bound; [lia|].
    apply (Z.mul_le_mono_pos_r _ _ A HA).
    replace (Zpos m2 * 2 ^ (- e') * A) with (2 ^ 53 * (Zpos m2 * B))
      by (rewrite (Z.mul_comm (Zpos m2) B), Z.mul_assoc, <- I1; ring).
    replace (Zpos mN * 2 ^ 53 * A) with (2 ^ 53 * (Zpos mN * A)) by ring.
    apply Z.mul_le_mono_nonneg_l; [lia|]. unfold A, B. exact HleN. }
  assert (Hq2 : 2 ^ (- e' - k) <= q / 2 ^ k).
  { apply Z.div_le_lower_bound; [lia|]. rewrite Z.mul_comm, I3. exact Hq1. }
  assert (Hlow : 2 ^ 1074 <= scaled r).
  { rewrite <- I4. eapply Z.le_trans; [|exact Hlo].
    apply Z.mul_le_mono_nonneg_r; lia. }
  (* from above *)
  assert (Hq3 : q * 2 ^ (e' + 1074) <= N * 2 ^ 1074).
  { rewrite <- HNA.
    apply (Z.mul_le_mono_pos_r _ _ (Zpos m2 * B) ltac:(nia)).
    assert (Hs1 : q * 2 ^ (e' + 1074) * (Zpos m2 * B)
                  <= Zpos mN * 2 ^ 53 * (2 ^ (e' + 1074) * B)).
    { replace (q * 2 ^ (e' + 1074) * (Zpos m2 * B))
        with (Zpos m2 * q * (2 ^ (e' + 1074) * B)) by ring.
      apply Z.mul_le_mono_nonneg_r; [nia|exact Hqm]. }
    assert (Hs2 : Zpos mN * 2 ^ 53 * (2 ^ (e' + 1074) * B) = Zpos mN * A * 2 ^ 1074)
      by (replace (Zpos mN * 2 ^ 53 * (2 ^ (e' + 1074) * B))
            with (Zpos mN * (2 ^ 53 * 2 ^ (e' + 1074) * B)) by ring;
          rewrite I2; ring).
    assert (Hs3 : Zpos mN * A * 2 ^ 1074 <= Zpos mN * A * (Zpos m2 * B)).
    { apply Z.mul_le_mono_nonneg_l; [nia|]. unfold B. rewrite H1074. exact Hge1. }
    lia. }
  assert (Hupp : scaled r <= N * 2 ^ 1074 + 2 ^ 1052).
  { eapply Z.le_trans; [exact Hhi|].
    pose proof (Z.mul_div_le q (2 ^ k) Hpk) as Hqk.
    assert (q / 2 ^ k * 2 ^ (e' + k + 1074) <= q * 2 ^ (e' + 1074)).
    { rewrite <- I5, Z.mul_assoc. apply Z.mul_le_mono_nonneg_r; lia. }
    pose proof (pow2_le (e' + k + 1074) 1052 ltac:(lia)). lia. }
  assert (H1052 : 2 ^ 1052 < 2 ^ 1074) by (apply pow2_lt; lia).
  pose proof (pow2_pos 1074 ltac:(lia)) as Hp1074.
  assert (Hin : scaled r <= INT_MAX * 2 ^ 1074).
  { unfold INT_MAX.
    assert ((N + 1) * 2 ^ 1074 <= 2147483647 * 2 ^ 1074) by (apply Z.mul_le_mono_nonneg_r; lia).
    lia. }
  pose proof (to_idxint_ceil_ge E r Hfin Hin) as Hge.
  destruct (to_idxint_ceil E r Hfin Hin) as [Hlt|[Hz _]]; [|lia].
  set (c := to_idxint E (ceil r)) in *.
  split.
  - assert (0 < c * 2 ^ 1074) by lia. nia.
  - assert ((c - 1) * 2 ^ 1074 < (N + 1) * 2 ^ 1074) by lia.
    apply Z.mul_lt_mono_pos_r in H; lia.
Qed.

(** ** The rows of the zero cone and of the linear cone *)

Lemma nonneg_cases (x : pfloat) :
  nonneg x -> fin_nonneg x \/ x = S754_infinity false.
Proof.
  intros [V H]. destruct x as [s|[]| |[] m e]; try discriminate; auto.
  - left. exact I.
  - left. destruct (valid_finite _ _ _ V) as (He & Hm & _). cbn. repeat split; lia.
Qed.

Lemma fractions_finite (x y : pfloat) :
  nonneg x -> nonneg y -> fgt (fadd x y) lit_1_0 = false ->
  fin_nonneg x /\ fin_nonneg y.
Proof.
  intros Hx Hy Hgt.
  destruct (nonneg_cases x Hx) as [Fx| ->]; destruct (nonneg_cases y Hy) as [Fy| ->];
    try (split; assumption).
  - destruct x as [s|s| |s m e]; cbn in Fx; try contradiction; discriminate.
  - destruct y as [s|s| |s m e]; cbn in Fy; try contradiction; discriminate.
  - discriminate.
Qed.

(** With fractions that pass the test of line 85, the rows given to the
    zero cone and to the linear cone do not exceed the rows at hand. *)
Lemma zero_and_linear_rows (E : libc) (N : Z) (x y : pfloat) :
  0 < N <= INT_MAX -> nonneg x -> nonneg y ->
  fgt (fadd x y) lit_1_0 = false ->
  0 <= to_idxint E (floor (fmul (of_int N) x)) /\
  0 <= to_idxint E (floor (fmul (of_int N) y)) /\
  to_idxint E (floor (fmul (of_int N) x)) + to_idxint E (floor (fmul (of_int N) y)) <= N.
Proof.
  intros HN Hx Hy Hgt. unfold INT_MAX in HN.
  destruct (fractions_finite x y Hx Hy Hgt) as [Fx Fy].
  pose proof (fadd_not_gt_one x y Fx Fy Hgt) as Hsum.
  pose proof (scaled_nonneg x Fx) as Hx0. pose proof (scaled_nonneg y Fy) as Hy0.
  set (P := 2 ^ 1022) in *.
  assert (HP : 0 < P) by (apply pow2_pos; lia).
  assert (H1074 : 2 ^ 1074 = 4503599627370496 * P) by reflexivity.
  assert (H1075 : 2 ^ 1075 = 9007199254740992 * P) by reflexivity.
  assert (H1053 : 2 ^ 1053 = 2147483648 * P) by reflexivity.
  assert (HN31 : 0 < N < 2 ^ 31) by (change (2 ^ 31) with 2147483648; lia).
  destruct (fmul_int_upper N x HN31 Fx ltac:(lia)) as [Frx Hrx].
  destruct (fmul_int_upper N y HN31 Fy ltac:(lia)) as [Fry Hry].
  set (rx := fmul (of_int N) x) in *. set (ry := fmul (of_int N) y) in *.
  assert (HNP : N * P <= 2147483647 * P) by (apply Z.mul_le_mono_nonneg_r; lia).
  assert (HNs : N * (scaled x + scaled y) < N * (2 ^ 1074 + P))
    by (apply Z.mul_lt_mono_pos_l; lia).
  rewrite Z.mul_add_distr_l in HNs. rewrite (Z.mul_add_distr_l N (2 ^ 1074) P) in HNs.
  assert (HNx : 0 <= N * scaled x) by (apply Z.mul_nonneg_nonneg; lia).
  assert (HNy : 0 <= N * scaled y) by (apply Z.mul_nonneg_nonneg; lia).
  assert (HN1074 : N * 2 ^ 1074 = 4503599627370496 * (N * P)) by (rewrite H1074; ring).
  change (2 ^ 31) with 2147483648 in *.
  destruct (to_idxint_floor E rx Frx ltac:(lia)) as [Hf0 Hf].
  destruct (to_idxint_floor E ry Fry ltac:(lia)) as [Hl0 Hl].
  set (f := to_idxint E (floor rx)) in *. set (l := to_idxint E (floor ry)) in *.
  split; [assumption|]. split; [assumption|].
  assert (Hlt : (f + l) * 2 ^ 1074 < (N + 1) * 2 ^ 1074).
  { rewrite !Z.mul_add_distr_r. lia. }
  apply Z.mul_lt_mono_pos_r in Hlt; lia.
Qed.

(** ** Running the statements *)

Ltac run :=
  cbn [bind ret put get emit exit fail deref_k modify_k final
       St.n St.m St.col_nnz St.nnz St.q_total St.q_num_rows St.max_q St.p_f St.p_l
       St.seed St.k St.d St.rng_seed St.rng_calls St.trace St.init
       Upd.n Upd.m Upd.col_nnz Upd.nnz Upd.q_total Upd.q_num_rows Upd.max_q
       Upd.p_f Upd.p_l Upd.seed Upd.k Upd.d Upd.rng Upd.trace
       Cone.f Cone.l Cone.q Cone.qsize Cone.ssize Cone.ep Cone.ed
       Cone.set_f Cone.set_l Cone.set_q Cone.set_qsize Cone.set_psd_exp Cone.zero
       app].

Lemma arguments_cases (E : libc) (argv : list arg) :
  match length argv with
  | 2%nat | 4%nat | 5%nat =>
      exists a p_f p_l seed,
        argv !! 1%nat = Some a /\
        arguments E argv St.init = Ok tt (parsed (atoi a) p_f p_l seed)
  | _ => exists s, arguments E argv St.init = Exit 0 s /\ St.trace s = [Print_usage]
  end.
Proof.
  unfold arguments, defaults, switch_argc.
  destruct argv as [|a0 [|a1 [|a2 [|a3 [|a4 [|a5 rest]]]]]]; cbn [length].
  1-6: cbn; eauto 10.
  set (argc := Z.of_nat (S (S (S (S (S (S (length rest))))))) ).
  assert (H5 : (argc =? 5) = false) by (apply Z.eqb_neq; lia).
  assert (H4 : (argc =? 4) = false) by (apply Z.eqb_neq; lia).
  assert (H2 : (argc =? 2) = false) by (apply Z.eqb_neq; lia).
  run. rewrite H5, H4, H2. run. eauto.
Qed.

Lemma prologue_parsed (E : libc) (argv : list arg) (n : Z) (p_f p_l : pfloat) (seed : Z) :
  arguments E argv St.init = Ok tt (parsed n p_f p_l seed) ->
  prologue E argv St.init = Ok tt (at_check E n p_f p_l seed).
Proof.
  intros H. unfold prologue. unfold bind at 1. rewrite H.
  unfold seed_and_allocate, srand, sizes, parsed. run. reflexivity.
Qed.

Lemma prologue_usage (E : libc) (argv : list arg) (s : St.t) (status : Z) :
  arguments E argv St.init = Exit status s ->
  prologue E argv St.init = Exit status s.
Proof. intros H. unfold prologue. unfold bind at 1. rewrite H. reflexivity. Qed.

Lemma wrap_small (z : Z) : INT_MIN <= z <= INT_MAX -> wrap z = z.
Proof.
  unfold INT_MIN, INT_MAX, wrap. intros H.
  change (2 ^ 31) with 2147483648. change (2 ^ 32) with 4294967296.
  rewrite Z.mod_small; lia.
Qed.

Lemma sum_app (xs ys : list Z) : sum (xs ++ ys) = sum xs + sum ys.
Proof. induction xs as [|x xs IH]; cbn; [reflexivity|]. unfold sum in *. cbn. lia. Qed.

Lemma sum_nonneg (bs : list Z) : Forall (fun b => 1 <= b) bs -> 0 <= sum bs.
Proof. induction 1; cbn; unfold sum in *; cbn; lia. Qed.

(** ** The partition loop *)

Section Loop.

Variable E : libc.
Hypothesis Hrand : rand_in_range E.

Variables (s : St.t) (c : Cone.t) (max_q : Z).
Hypothesis Hmax : St.max_q s = Some max_q.
Hypothesis Hmax_q : 1 <= max_q <= INT_MAX.

Local Abbreviation drawn := (drawn_size E (St.rng_seed s) max_q).

Lemma drawn_bounds (calls : nat) : 1 <= drawn calls <= max_q.
Proof.
  unfold drawn_size. pose proof (Hrand (St.rng_seed s) calls) as Hv.
  pose proof (Z.rem_bound_pos (rand_seq E (St.rng_seed s) calls) max_q ltac:(lia) ltac:(lia)).
  rewrite wrap_small; unfold INT_MIN, INT_MAX in *; lia.
Qed.

Lemma insert_next (bs : list Z) (free : nat) (v : Z) :
  (0 < free)%nat ->
  <[Z.to_nat (Z.of_nat (length bs)) := Some v]> ((Some <$> bs) ++ replicate free None)
  = (Some <$> bs ++ [v]) ++ replicate (free - 1) None.
Proof.
  intros Hfree. rewrite Nat2Z.id.
  destruct free as [|free]; [lia|]. cbn [replicate].
  replace (S free - 1)%nat with free by lia.
  rewrite fmap_app. cbn [fmap list_fmap]. rewrite <- app_assoc. cbn [app].
  rewrite <- (length_fmap Some bs) at 1.
  rewrite insert_app_r_alt by lia. rewrite Nat.sub_diag. reflexivity.
Qed.

(** [k->q[k->qsize] = v; k->qsize++] in a state of the loop. *)
Lemma push_q_in_loop (bs : list Z) (free : nat) (r : Z) (calls : nat)
    (tr : list event) (v : Z) :
  (0 < free)%nat -> Z.of_nat (length bs + free) <= INT_MAX ->
  push_q v (in_loop s c bs free r calls tr)
  = Ok tt (in_loop s c (bs ++ [v]) (free - 1) r calls tr).
Proof.
  intros Hfree Hlen. unfold push_q, store_q, in_loop. run.
  rewrite List.length_app, length_fmap, length_replicate.
  replace (0 <=? Z.of_nat (length bs)) with true by (symmetry; apply Z.leb_le; lia).
  replace (Z.of_nat (length bs) <? Z.of_nat (length bs + free)) with true
    by (symmetry; apply Z.ltb_lt; lia).
  cbn [andb]. run. rewrite insert_next by assumption.
  rewrite wrap_small by (unfold INT_MIN, INT_MAX in *; lia).
  rewrite length_app. cbn [length].
  replace (Z.of_nat (length bs) + 1) with (Z.of_nat (length bs + 1)) by lia.
  reflexivity.
Qed.

(** One iteration: a block of [drawn calls] rows is stored and taken
    from the rows left. *)
Lemma loop_body_in_loop (bs : list Z) (free : nat) (r : Z) (calls : nat)
    (tr : list event) :
  (0 < free)%nat -> Z.of_nat (length bs + free) <= INT_MAX ->
  loop_body E (in_loop s c bs free r calls tr)
  = Ok tt (in_loop s c (bs ++ [drawn calls]) (free - 1) (wrap (r - drawn calls))
             (S calls)
             (tr ++ [Call_rand (rand_seq E (St.rng_seed s) calls)])).
Proof.
  intros Hfree Hlen. unfold loop_body, rand, push_q, store_q, in_loop. run.
  rewrite Hmax. run.
  replace (max_q =? 0) with false by (symmetry; apply Z.eqb_neq; lia).
  run. rewrite List.length_app, length_fmap, length_replicate.
  replace (0 <=? Z.of_nat (length bs)) with true by (symmetry; apply Z.leb_le; lia).
  replace (Z.of_nat (length bs) <? Z.of_nat (length bs + free)) with true
    by (symmetry; apply Z.ltb_lt; lia).
  cbn [andb]. run. rewrite insert_next by assumption.
  rewrite (wrap_small (Z.of_nat (length bs) + 1)) by (unfold INT_MIN, INT_MAX in *; lia).
  rewrite List.length_app. cbn [length].
  replace (Z.of_nat (length bs) + 1) with (Z.of_nat (length bs + 1)) by lia.
  reflexivity.
Qed.

Local Abbreviation block_ok := (block_in max_q).

Lemma loop_cond_in_loop (bs : list Z) (free : nat) (r : Z) (calls : nat)
    (tr : list event) :
  loop_cond (in_loop s c bs free r calls tr)
  = Ok (max_q <? r) (in_loop s c bs free r calls tr).
Proof. unfold loop_cond, in_loop. run. rewrite Hmax. reflexivity. Qed.

(** The loop runs to its end when the fuel exceeds the rows above
    [max_q]: every iteration takes at least one row. *)
Lemma while_in_loop (fuel : nat) : forall (bs : list Z) (free : nat) (r : Z)
    (calls : nat) (tr : list event),
  0 <= r <= Z.of_nat free -> Z.of_nat (length bs + free) <= INT_MAX ->
  (Z.to_nat (r - max_q) < fuel)%nat ->
  Forall block_ok bs ->
  exists bs' free' r' calls' tr',
    while fuel loop_cond (loop_body E) (in_loop s c bs free r calls tr)
    = Ok tt (in_loop s c bs' free' r' calls' tr') /\
    0 <= r' <= max_q /\ r' <= Z.of_nat free' /\
    sum bs' + r' = sum bs + r /\
    (length bs' + free' = length bs + free)%nat /\
    Forall block_ok bs' /\
    (r <= max_q -> bs' = bs /\ r' = r) /\
    exists count, calls' = (calls + count)%nat /\
      tr' = tr ++ rand_events E (St.rng_seed s) calls count /\
      bs' = bs ++ drawn_sizes E (St.rng_seed s) max_q calls count.
Proof.
  induction fuel as [|fuel IH]; intros bs free r calls tr Hr Hlen Hfuel Hbs; [lia|].
  cbn [while bind]. rewrite loop_cond_in_loop.
  destruct (Z.ltb_spec max_q r) as [Hgt|Hle].
  - cbn [bind]. rewrite loop_body_in_loop by (try assumption; lia).
    pose proof (drawn_bounds calls) as Hd.
    assert (Hr' : wrap (r - drawn calls) = r - drawn calls)
      by (apply wrap_small; unfold INT_MIN, INT_MAX in *; lia).
    rewrite Hr'.
    destruct (IH (bs ++ [drawn calls]) (free - 1)%nat (r - drawn calls) (S calls)
                 (tr ++ [Call_rand (rand_seq E (St.rng_seed s) calls)]))
      as (bs' & free' & r' & calls' & tr' & Hrun & Hr0 & Hfree' & Hsum & Hlen' & Hall & _
          & count & Hcalls & Htr & Hbs').
    + lia.
    + rewrite List.length_app. cbn [length]. lia.
    + lia.
    + apply Forall_app. split; [assumption|]. constructor; [exact Hd|constructor].
    + exists bs', free', r', calls', tr'. split; [exact Hrun|].
      rewrite sum_app in Hsum. rewrite List.length_app in Hlen'. cbn [length] in Hlen'.
      change (sum [drawn calls]) with (drawn calls + 0) in Hsum.
      split; [lia|]. split; [lia|]. split; [lia|]. split; [lia|]. split; [assumption|].
      split; [intros; exfalso; lia|].
      exists (S count). unfold rand_events, drawn_sizes in *. cbn [seq fmap list_fmap].
      rewrite <- !app_assoc in *. cbn [app] in *.
      split; [lia|]. split; assumption.
  - cbn [ret]. exists bs, free, r, calls, tr.
    split; [reflexivity|]. split; [lia|]. split; [lia|]. split; [lia|]. split; [lia|].
    split; [assumption|]. split; [intros; split; reflexivity|].
    exists 0%nat. unfold rand_events, drawn_sizes. cbn [seq fmap list_fmap].
    rewrite !app_nil_r. split; [lia|]. split; reflexivity.
Qed.

(** Lines 97-107 from a state with an empty buffer: the blocks cover
    the rows left, each within the bound. *)
Lemma partition_in_loop (fuel free : nat) (r : Z) (calls : nat) (tr : list event) :
  0 <= r <= Z.of_nat free -> Z.of_nat free <= INT_MAX ->
  (Z.to_nat (r - max_q) < fuel)%nat ->
  exists bs free' r' calls' tr',
    partition E fuel (in_loop s c [] free r calls tr)
    = Ok tt (in_loop s c bs free' r' calls' tr') /\
    sum bs = r /\ (length bs + free' = free)%nat /\ Forall block_ok bs /\
    0 <= r' <= max_q /\
    (r <= max_q -> bs = if 0 <? r then [r] else []) /\
    exists count, calls' = (calls + count)%nat /\
      tr' = tr ++ rand_events E (St.rng_seed s) calls count /\
      bs = drawn_sizes E (St.rng_seed s) max_q calls count ++ (if 0 <? r' then [r'] else []).
Proof.
  intros Hr Hfree Hfuel.
  destruct (while_in_loop fuel [] free r calls tr Hr ltac:(cbn [length]; lia) Hfuel
              ltac:(constructor))
    as (bs & free' & r' & calls' & tr' & Hrun & Hr' & Hfree' & Hsum & Hlen & Hall & Hsame
        & count & Hcalls & Htr & Hbs).
  cbn [app] in Hbs.
  unfold partition. cbn [bind]. rewrite Hrun.
  change (get St.q_num_rows (in_loop s c bs free' r' calls' tr'))
    with (Ok r' (in_loop s c bs free' r' calls' tr')).
  cbn iota beta.
  cbn [length] in Hlen. change (sum []) with 0 in Hsum.
  destruct (Z.ltb_spec 0 r') as [Hpos|Hzero].
  - rewrite push_q_in_loop by lia.
    exists (bs ++ [r']), (free' - 1)%nat, r', calls', tr'.
    split; [reflexivity|]. rewrite sum_app, List.length_app. cbn [length].
    change (sum [r']) with (r' + 0).
    split; [lia|]. split; [lia|].
    split; [apply Forall_app; split; [assumption|]; constructor; [unfold block_in; lia|constructor]|].
    split; [lia|]. split.
    + intros Hle. destruct (Hsame Hle) as [E1 E2]. rewrite E1, E2.
      destruct (Z.ltb_spec 0 r); [reflexivity|lia].
    + exists count. split; [assumption|]. split; [assumption|]. rewrite Hbs.
      destruct (Z.ltb_spec 0 r'); [reflexivity|lia].
  - exists bs, free', r', calls', tr'. cbn [ret].
    split; [reflexivity|]. split; [lia|]. split; [lia|]. split; [assumption|].
    split; [lia|]. split.
    + intros Hle. destruct (Hsame Hle) as [E1 E2]. rewrite E1.
      destruct (Z.ltb_spec 0 r); [lia|reflexivity].
    + exists count. split; [assumption|]. split; [assumption|].
      destruct (Z.ltb_spec 0 r'); [lia|]. rewrite app_nil_r. exact Hbs.
Qed.

Lemma lookup_block (bs : list Z) (free i : nat) (x : Z) :
  bs !! i = Some x -> ((Some <$> bs) ++ replicate free None) !! i = Some (Some x).
Proof.
  intros H. apply lookup_app_l_Some. rewrite list_lookup_fmap, H. reflexivity.
Qed.

Lemma load_q_in_loop (bs : list Z) (free : nat) (r : Z) (calls : nat)
    (tr : list event) (i : nat) (x : Z) (s' : St.t) :
  bs !! i = Some x ->
  load_q (Z.of_nat i + 0) (in_loop s' c bs free r calls tr)
  = Ok x (in_loop s' c bs free r calls tr).
Proof.
  intros H. unfold load_q, in_loop. run.
  replace (0 <=? Z.of_nat i + 0) with true by (symmetry; apply Z.leb_le; lia).
  replace (Z.to_nat (Z.of_nat i + 0)) with i by lia.
  rewrite (lookup_block bs free i x H). reflexivity.
Qed.

(** Lines 110-112, from the index [length pre] on. *)
Lemma total_loop (free : nat) (r : Z) (calls : nat) (tr : list event) :
  forall (post pre : list Z) (acc : Z),
  0 <= acc -> acc + sum post <= INT_MAX -> Forall block_ok post ->
  foldr (fun i rest =>
           (let* x := load_q i in
            let* q_total := get St.q_total in
            put (Upd.q_total (wrap (q_total + x)))) ;; rest)
        (ret tt) ((fun i : nat => Z.of_nat i + 0) <$> seq (length pre) (length post))
        (in_loop (Upd.q_total acc s) c (pre ++ post) free r calls tr)
  = Ok tt (in_loop (Upd.q_total (acc + sum post) s) c (pre ++ post) free r calls tr).
Proof.
  induction post as [|x post IH]; intros pre acc Hacc Hsum Hall.
  - cbn. change (sum []) with 0. rewrite Z.add_0_r. reflexivity.
  - inversion Hall as [|? ? Hx Hpost]; subst.
    change (sum (x :: post)) with (x + sum post) in *.
    pose proof (sum_nonneg post) as Hnn.
    assert (0 <= sum post).
    { apply Hnn. eapply Forall_impl; [exact Hpost|]. unfold block_in. intros; lia. }
    unfold block_in in Hx.
    cbn [length seq fmap list_fmap foldr bind].
    rewrite (load_q_in_loop (pre ++ x :: post) free r calls tr (length pre) x)
      by (rewrite lookup_app_r by lia; rewrite Nat.sub_diag; reflexivity).
    change (get St.q_total (in_loop (Upd.q_total acc s) c (pre ++ x :: post) free r calls tr))
      with (Ok acc (in_loop (Upd.q_total acc s) c (pre ++ x :: post) free r calls tr)).
    cbn iota beta. 
    rewrite wrap_small by (unfold INT_MIN, INT_MAX in *; lia).
    change (put (Upd.q_total (acc + x))
              (in_loop (Upd.q_total acc s) c (pre ++ x :: post) free r calls tr))
      with (Ok tt (in_loop (Upd.q_total (acc + x) s) c (pre ++ x :: post) free r calls tr)).
    cbn iota beta.
    specialize (IH (pre ++ [x]) (acc + x) ltac:(lia) ltac:(lia) Hpost).
    rewrite List.length_app in IH. cbn [length] in IH.
    replace (length pre + 1)%nat with (S (length pre)) in IH by lia.
    rewrite <- app_assoc in IH. cbn [app] in IH.
    change (list_fmap nat Z (fun i : nat => Z.of_nat i + 0)) with (fmap (M:=list) (fun i : nat => Z.of_nat i + 0)).
    rewrite IH. f_equal. f_equal. f_equal. lia.
Qed.

Lemma seqZ_0 (k : nat) :
  seqZ 0 (Z.of_nat k) = (fun i : nat => Z.of_nat i + 0) <$> seq 0 k.
Proof. unfold seqZ. rewrite Nat2Z.id. reflexivity. Qed.

Lemma total_in_loop (bs : list Z) (free : nat) (r : Z) (calls : nat) (tr : list event) :
  sum bs <= INT_MAX -> Forall block_ok bs ->
  total (in_loop s c bs free r calls tr)
  = Ok tt (in_loop (Upd.q_total (sum bs) s) c bs free r calls tr).
Proof.
  intros Hsum Hall. unfold total, for_upto. cbn [bind].
  change (put (Upd.q_total 0) (in_loop s c bs free r calls tr))
    with (Ok tt (in_loop (Upd.q_total 0 s) c bs free r calls tr)).
  cbn iota beta. unfold in_loop at 1. unfold deref_k at 1. cbn [St.k Cone.qsize].
  fold (in_loop (Upd.q_total 0 s) c bs free r calls tr).
  rewrite seqZ_0.
  exact (total_loop free r calls tr bs [] 0 ltac:(lia) ltac:(lia) Hall).
Qed.

(** Lines 129-131, from the index [length pre] on. *)
Lemma load_sizes_loop (free : nat) (r : Z) (calls : nat) (tr : list event) (s' : St.t) :
  forall (post pre : list Z),
  foldr (fun i rest => let* x := load_q i in let* xs := rest in ret (x :: xs))
        (ret []) ((fun i : nat => Z.of_nat i + 0) <$> seq (length pre) (length post))
        (in_loop s' c (pre ++ post) free r calls tr)
  = Ok post (in_loop s' c (pre ++ post) free r calls tr).
Proof.
  induction post as [|x post IH]; intros pre; [reflexivity|].
  cbn [length seq fmap list_fmap foldr bind].
  rewrite (load_q_in_loop (pre ++ x :: post) free r calls tr (length pre) x)
    by (rewrite lookup_app_r by lia; rewrite Nat.sub_diag; reflexivity).
  specialize (IH (pre ++ [x])).
  rewrite List.length_app in IH. cbn [length] in IH.
  replace (length pre + 1)%nat with (S (length pre)) in IH by lia.
  rewrite <- app_assoc in IH. cbn [app] in IH.
  change (list_fmap nat Z (fun i : nat => Z.of_nat i + 0))
    with (fmap (M:=list) (fun i : nat => Z.of_nat i + 0)).
  rewrite IH. reflexivity.
Qed.

Lemma load_sizes_in_loop (bs : list Z) (free : nat) (r : Z) (calls : nat)
    (tr : list event) (s' : St.t) :
  load_sizes (Z.of_nat (length bs)) (in_loop s' c bs free r calls tr)
  = Ok bs (in_loop s' c bs free r calls tr).
Proof.
  unfold load_sizes. rewrite seqZ_0.
  exact (load_sizes_loop free r calls tr s' bs []).
Qed.

End Loop.

(** Lines 114-152 after the loop: the report, the calls of the builder
    and of the solver, and the return. *)
Lemma finish_in_loop (s : St.t) (c : Cone.t) (bs : list Z) (free : nat) (r : Z)
    (calls : nat) (tr : list event) (m n col_nnz nnz q_total : Z) :
  St.m s = Some m -> St.n s = Some n -> St.col_nnz s = Some col_nnz ->
  St.nnz s = Some nnz -> St.q_total s = Some q_total ->
  (report ;; build_and_solve) (in_loop s c bs free r calls tr)
  = Exit 0 (finished s c bs free r calls tr m n col_nnz nnz q_total).
Proof.
  intros Hm Hn Hcol Hnnz Hq. unfold report, build_and_solve.
  cbn [bind]. unfold modify_k at 1. unfold in_loop at 1. run.
  rewrite Hm, Hn, Hcol, Hnnz, Hq. run.
  match goal with
  | |- context [load_sizes _ ?st] =>
      change st with (in_loop
        (St.Make (Some n) (Some m) (Some col_nnz) (Some nnz) (Some q_total) None
           (St.max_q s) (St.p_f s) (St.p_l s) (St.seed s) None (St.d s) (St.rng_seed s) 0 [])
        (Cone.set_psd_exp c) bs free r calls (tr ++ [Print_sizes m n col_nnz nnz]))
  end.
  rewrite load_sizes_in_loop. unfold in_loop, finished. run.
  unfold exit. repeat rewrite <- app_assoc. reflexivity.
Qed.

(** ** A run on valid input *)

Lemma three_n_bounds (n : Z) :
  0 < n -> 3 * n <= INT_MAX -> 3 <= 3 * n < INT_MAX /\ wrap (3 * n) = 3 * n.
Proof.
  intros Hn Hmax. unfold INT_MAX in *. split; [lia|].
  apply wrap_small. unfold INT_MIN, INT_MAX. lia.
Qed.

(** From the test of line 85 to the return, for a positive [n] and
    fractions that are not negative and do not add up to more than 1. *)
Lemma valid_from_check (E : libc) (fuel : nat) (n : Z) (p_f p_l : pfloat) (seed : Z) :
  rand_in_range E -> 0 < n -> 3 * n <= INT_MAX ->
  nonneg p_f -> nonneg p_l -> fgt (fadd p_f p_l) lit_1_0 = false ->
  log_sane E (3 * n) -> 3 * n <= Z.of_nat fuel ->
  let f := rows_of E n p_f in
  let l := rows_of E n p_l in
  let max_q := max_q_of E n in
  0 <= f /\ 0 <= l /\ f + l <= 3 * n /\ 1 <= max_q <= 3 * n + 1 /\
  exists bs free r calls tr,
    (check_fractions ;; cone_structure E fuel ;; report ;; build_and_solve)
      (at_check E n p_f p_l seed)
    = Exit 0 (finished (at_check E n p_f p_l seed) (Cone.Make f l [] 0 0 0 0)
                bs free r calls tr (3 * n) n (col_nnz_of E n)
                (wrap (n * col_nnz_of E n)) (sum bs)) /\
    sum bs = 3 * n - f - l /\
    (length bs + free)%nat = Z.to_nat (3 * n - f - l) /\
    Forall (block_in max_q) bs /\
    0 <= r <= max_q /\
    (3 * n - f - l <= max_q -> bs = if 0 <? 3 * n - f - l then [3 * n - f - l] else []) /\
    exists count, calls = count /\
      tr = St.trace (at_check E n p_f p_l seed) ++ [Call_malloc (3 * n - f - l)]
           ++ rand_events E seed 0 count /\
      bs = drawn_sizes E seed max_q 0 count ++ (if 0 <? r then [r] else []).
Proof.
  intros Hrand Hn Hfit Hpf Hpl Hgt Hlog Hfuel f l max_q.
  destruct (three_n_bounds n Hn Hfit) as [H3n Hw].
  destruct (zero_and_linear_rows E (3 * n) p_f p_l ltac:(lia) Hpf Hpl Hgt) as (Hf & Hl & Hfl).
  pose proof (max_q_bounds E (3 * n) H3n Hlog) as Hmq.
  assert (Ef : f = to_idxint E (floor (fmul (of_int (3 * n)) p_f)))
    by (unfold f, rows_of; rewrite Hw; reflexivity).
  assert (El : l = to_idxint E (floor (fmul (of_int (3 * n)) p_l)))
    by (unfold l, rows_of; rewrite Hw; reflexivity).
  assert (Em : max_q = to_idxint E (ceil (fdiv (of_int (3 * n)) (log E (of_int (3 * n))))))
    by (unfold max_q, max_q_of; rewrite Hw; reflexivity).
  rewrite <- Ef, <- El in Hfl. rewrite <- Ef in Hf. rewrite <- El in Hl. rewrite <- Em in Hmq.
  clearbody f l max_q.
  split; [assumption|]. split; [assumption|]. split; [assumption|]. split; [assumption|].
  set (R := 3 * n - f - l).
  assert (HR : wrap (wrap (wrap (3 * n) - f) - l) = R).
  { rewrite Hw. unfold INT_MAX in *.
    rewrite (wrap_small (3 * n - f)) by (unfold INT_MIN, INT_MAX; lia).
    apply wrap_small. unfold INT_MIN, INT_MAX, R. lia. }
  set (s0 := at_check E n p_f p_l seed).
  set (c0 := Cone.Make f l [] 0 0 0 0).
  assert (Hmax : St.max_q s0 = Some max_q).
  { unfold s0, at_check. cbn [St.max_q]. f_equal. unfold max_q_of. rewrite Hw. symmetry. exact Em. }
  assert (Hmq' : 1 <= max_q <= INT_MAX) by (unfold INT_MAX in *; lia).
  destruct (partition_in_loop E Hrand s0 c0 max_q Hmax Hmq' fuel (Z.to_nat R) R 0
              (St.trace s0 ++ [Call_malloc R]))
    as (bs & free & r & calls & tr & Hpart & Hsum & Hlen & Hall & Hr & Hsingle
        & count & Hcalls & Htr & Hbs);
    [unfold R; lia|unfold R, INT_MAX in *; lia|unfold R; lia|].
  exists bs, free, r, calls, tr.
  split; [|split; [assumption|]; split; [lia|]; split; [assumption|]; split; [lia|];
           split; [assumption|]; exists count; split; [lia|];
           split; [rewrite Htr, <- app_assoc; reflexivity|exact Hbs]].
  assert (Hrun : (zero_and_linear E ;; allocate_q ;; partition E fuel ;; total) s0
                 = Ok tt (in_loop (Upd.q_total (sum bs) s0) c0 bs free r calls tr)).
  { unfold zero_and_linear, allocate_q. unfold s0 at 1. unfold at_check. run.
    rewrite Hw, <- Ef, <- El. rewrite (wrap_small (3 * n - f)) by (unfold INT_MIN, INT_MAX in *; lia).
    rewrite (wrap_small (3 * n - f - l)) by (unfold INT_MIN, INT_MAX in *; lia).
    fold R.
    match goal with
    | |- context [partition E fuel ?st] =>
        replace st with (in_loop s0 c0 [] (Z.to_nat R) R 0 (St.trace s0 ++ [Call_malloc R]))
    end.
    2:{ unfold in_loop, s0, at_check, c0. run. rewrite Hw. reflexivity. }
    rewrite Hpart.
    apply (total_in_loop s0 c0 max_q); [unfold INT_MAX in *; unfold R in *; lia|assumption]. }
  unfold cone_structure. cbn [bind].
  unfold check_fractions. unfold s0 at 1. unfold at_check at 1. run. rewrite Hgt. run.
  fold (at_check E n p_f p_l seed). fold s0.
  cbn [bind] in Hrun.
  destruct (zero_and_linear E s0) as [[] s1| | |] eqn:H1; try discriminate.
  destruct (allocate_q s1) as [[] s2| | |] eqn:H2; try discriminate.
  destruct (partition E fuel s2) as [[] s3| | |] eqn:H3; try discriminate.
  rewrite Hrun.
  pose proof (finish_in_loop (Upd.q_total (sum bs) s0) c0 bs free r calls tr
                (wrap (3 * n)) n (col_nnz_of E n) (wrap (n * col_nnz_of E n)) (sum bs)
                eq_refl eq_refl eq_refl eq_refl eq_refl) as Hfin.
  cbn [bind] in Hfin. rewrite Hw in Hfin. exact Hfin.
Qed.

(** The state in which the loop is entered. *)
Lemma before_loop (E : libc) (n : Z) (p_f p_l : pfloat) (seed : Z) :
  0 < n -> 3 * n <= INT_MAX ->
  nonneg p_f -> nonneg p_l -> fgt (fadd p_f p_l) lit_1_0 = false ->
  let s0 := at_check E n p_f p_l seed in
  let f := rows_of E n p_f in
  let l := rows_of E n p_l in
  (check_fractions ;; zero_and_linear E ;; allocate_q) s0
  = Ok tt (in_loop s0 (Cone.Make f l [] 0 0 0 0) [] (Z.to_nat (3 * n - f - l))
             (3 * n - f - l) 0 (St.trace s0 ++ [Call_malloc (3 * n - f - l)])).
Proof.
  intros Hn Hfit Hpf Hpl Hgt s0 f l.
  destruct (three_n_bounds n Hn Hfit) as [H3n Hw].
  destruct (zero_and_linear_rows E (3 * n) p_f p_l ltac:(lia) Hpf Hpl Hgt) as (Hf & Hl & Hfl).
  assert (Ef : f = to_idxint E (floor (fmul (of_int (3 * n)) p_f)))
    by (unfold f, rows_of; rewrite Hw; reflexivity).
  assert (El : l = to_idxint E (floor (fmul (of_int (3 * n)) p_l)))
    by (unfold l, rows_of; rewrite Hw; reflexivity).
  rewrite <- Ef, <- El in Hfl. rewrite <- Ef in Hf. rewrite <- El in Hl.
  clearbody f l.
  unfold check_fractions, zero_and_linear, allocate_q. unfold s0 at 1. unfold at_check. run.
  rewrite Hgt. run.
  rewrite Hw, <- Ef, <- El.
  rewrite (wrap_small (3 * n - f)) by (unfold INT_MIN, INT_MAX in *; lia).
  rewrite (wrap_small (3 * n - f - l)) by (unfold INT_MIN, INT_MAX in *; lia).
  unfold in_loop, s0, at_check. run. rewrite Hw. reflexivity.
Qed.

(** ** Facts shared by the claims *)

Lemma fle_one_not_gt (x : pfloat) : fle x lit_1_0 = true -> fgt x lit_1_0 = false.
Proof.
  unfold fle, fgt, SFleb, SFltb, lit_1_0.
  destruct x as [s|[]| |[] m e]; cbn [SFcompare]; try discriminate; try reflexivity.
  rewrite (Z.compare_antisym e (-52)).
  destruct (e ?= -52) eqn:He; cbn [CompOpp]; try discriminate; try reflexivity.
  rewrite !Pos.compare_cont_spec. cbn [Pos.switch_Eq].
  rewrite (Pos.compare_antisym m 4503599627370496).
  destruct (Pos.compare m 4503599627370496); cbn [CompOpp]; try discriminate; reflexivity.
Qed.

(** The blocks of the cone a run ends with. *)
Lemma blocks_finished (f l : Z) (bs : list Z) (free : nat) (a b c : Z) :
  Cone.blocks (Cone.Make f l ((Some <$> bs) ++ replicate free None)
                         (Z.of_nat (length bs)) a b c) = bs.
Proof.
  unfold Cone.blocks. cbn [Cone.q Cone.qsize]. rewrite Nat2Z.id.
  rewrite <- (length_fmap Some bs) at 1. rewrite take_app_length.
  induction bs as [|x bs IH]; [reflexivity|]. cbn. rewrite IH. reflexivity.
Qed.

Lemma mod_in_rand_range (z : Z) : 0 <= z mod 2 ^ 31 <= RAND_MAX.
Proof.
  assert (Hp : 0 < 2 ^ 31) by reflexivity.
  pose proof (Z.mod_pos_bound z (2 ^ 31) Hp) as H.
  set (y := z mod 2 ^ 31) in *. change (2 ^ 31) with 2147483648 in H.
  unfold RAND_MAX. lia.
Qed.

Lemma sample_lcg_range (i : nat) :
  forall x, 0 <= x <= RAND_MAX -> 0 <= sample_lcg x i <= RAND_MAX.
Proof.
  induction i as [|i IH]; intros x Hx; cbn [sample_lcg]; [exact Hx|].
  apply IH. apply mod_in_rand_range.
Qed.

Lemma sample_rand_in_range : rand_in_range sample_libc.
Proof.
  intros seed i. cbn [rand_seq sample_libc]. unfold sample_rand.
  apply sample_lcg_range. apply mod_in_rand_range.
Qed.

(** The whole run on a valid input. *)
Lemma valid_run (E : libc) (fuel : nat) (argv : list arg) (n : Z) (p_f p_l : pfloat)
    (seed : Z) :
  rand_in_range E -> log_sane E (3 * n) -> valid_input E argv n p_f p_l seed ->
  3 * n <= Z.of_nat fuel ->
  let f := rows_of E n p_f in
  let l := rows_of E n p_l in
  let max_q := max_q_of E n in
  0 <= f /\ 0 <= l /\ f + l <= 3 * n /\ 1 <= max_q <= 3 * n + 1 /\
  exists bs free r calls tr,
    main E fuel argv
    = Exit 0 (finished (at_check E n p_f p_l seed) (Cone.Make f l [] 0 0 0 0)
                bs free r calls tr (3 * n) n (col_nnz_of E n)
                (wrap (n * col_nnz_of E n)) (sum bs)) /\
    sum bs = 3 * n - f - l /\
    (length bs + free)%nat = Z.to_nat (3 * n - f - l) /\
    Forall (block_in max_q) bs /\
    0 <= r <= max_q /\
    (3 * n - f - l <= max_q -> bs = if 0 <? 3 * n - f - l then [3 * n - f - l] else []) /\
    exists count, calls = count /\
      tr = St.trace (at_check E n p_f p_l seed) ++ [Call_malloc (3 * n - f - l)]
           ++ rand_events E seed 0 count /\
      bs = drawn_sizes E seed max_q 0 count ++ (if 0 <? r then [r] else []).
Proof.
  intros Hrand Hlog [Hparsed Hn Hfit Hpf Hpl Hsum] Hfuel.
  pose proof (valid_from_check E fuel n p_f p_l seed Hrand Hn Hfit Hpf Hpl
                (fle_one_not_gt _ Hsum) Hlog Hfuel) as H.
  cbn zeta in H |- *.
  destruct H as (Hf & Hl & Hfl & Hmq & bs & free & r & calls & tr & Hrun & Hrest).
  split; [assumption|]. split; [assumption|]. split; [assumption|]. split; [assumption|].
  exists bs, free, r, calls, tr. split; [|exact Hrest].
  unfold main, main_from. cbn [bind]. rewrite (prologue_parsed E argv n p_f p_l seed Hparsed).
  exact Hrun.
Qed.

(** ** The claims *)

(** C1 -- Row conservation: on every valid input ([n] positive, the
    fractions not negative and their sum at most 1) the run returns 0
    with [k->f + k->l] plus the sum of the entries of [k->q] equal to
    [m = 3 n]; the total [q_total] the program prints is that sum. *)
Theorem row_conservation (E : libc) (fuel : nat) (argv : list arg) (n : Z)
    (p_f p_l : pfloat) (seed : Z) :
  rand_in_range E -> log_sane E (3 * n) -> valid_input E argv n p_f p_l seed ->
  3 * n <= Z.of_nat fuel ->
  exists s c,
    main E fuel argv = Exit 0 s /\ St.k s = Some c /\ St.m s = Some (3 * n) /\
    Cone.f c + Cone.l c + sum (Cone.blocks c) = 3 * n /\
    St.q_total s = Some (sum (Cone.blocks c)).
Proof.
  intros Hrand Hlog Hvalid Hfuel.
  destruct (valid_run E fuel argv n p_f p_l seed Hrand Hlog Hvalid Hfuel)
    as (Hf & Hl & Hfl & Hmq & bs & free & r & calls & tr & Hrun & Hsum & _).
  eexists. eexists. split; [exact Hrun|].
  cbn [finished St.k St.m St.q_total]. split; [reflexivity|]. split; [reflexivity|].
  rewrite blocks_finished. cbn [Cone.f Cone.l]. split; [lia|reflexivity].
Qed.

Lemma row_conservation_witness :
  exists s c,
    main sample_libc 300 [arg_prog; arg_100] = Exit 0 s /\ St.k s = Some c /\
    St.m s = Some (3 * 100) /\
    Cone.f c + Cone.l c + sum (Cone.blocks c) = 3 * 100 /\
    St.q_total s = Some (sum (Cone.blocks c)).
Proof.
  apply (row_conservation sample_libc 300 [arg_prog; arg_100] 100 lit_0_1 lit_0_3
           (wrap (now sample_libc))).
  - exact sample_rand_in_range.
  - repeat split; reflexivity.
  - constructor; try reflexivity; try (split; reflexivity); vm_compute; congruence.
  - vm_compute. congruence.
Defined.

(** C2 -- Block bound and positivity: on every valid input every entry
    of [k->q] (the [k->qsize] cells the run wrote, the last one
    included) lies between 1 and [max_q]. *)
Theorem block_bounds (E : libc) (fuel : nat) (argv : list arg) (n : Z)
    (p_f p_l : pfloat) (seed : Z) :
  rand_in_range E -> log_sane E (3 * n) -> valid_input E argv n p_f p_l seed ->
  3 * n <= Z.of_nat fuel ->
  exists s c max_q,
    main E fuel argv = Exit 0 s /\ St.k s = Some c /\ St.max_q s = Some max_q /\
    Z.of_nat (length (Cone.blocks c)) = Cone.qsize c /\
    Forall (fun b => 1 <= b <= max_q) (Cone.blocks c).
Proof.
  intros Hrand Hlog Hvalid Hfuel.
  destruct (valid_run E fuel argv n p_f p_l seed Hrand Hlog Hvalid Hfuel)
    as (_ & _ & _ & _ & bs & free & r & calls & tr & Hrun & _ & _ & Hall & _).
  eexists. eexists. exists (max_q_of E n). split; [exact Hrun|].
  cbn [finished St.k St.max_q at_check]. split; [reflexivity|]. split; [reflexivity|].
  rewrite blocks_finished. cbn [Cone.qsize]. split; [reflexivity|exact Hall].
Qed.

Lemma block_bounds_witness :
  exists s c max_q,
    main sample_libc 300 [arg_prog; arg_100] = Exit 0 s /\ St.k s = Some c /\
    St.max_q s = Some max_q /\
    Z.of_nat (length (Cone.blocks c)) = Cone.qsize c /\
    Forall (fun b => 1 <= b <= max_q) (Cone.blocks c).
Proof.
  apply (block_bounds sample_libc 300 [arg_prog; arg_100] 100 lit_0_1 lit_0_3
           (wrap (now sample_libc))).
  - exact sample_rand_in_range.
  - repeat split; reflexivity.
  - constructor; try reflexivity; try (split; reflexivity); vm_compute; congruence.
  - vm_compute. congruence.
Defined.

(** C10 -- Bounds of the block buffer: on every valid input the buffer
    [k->q] is allocated with as many cells as rows were left for
    second-order cones, the run writes no cell outside it (it returns 0
    and does not fault), and [k->qsize] does not exceed the number of
    cells. *)
Theorem block_buffer_in_bounds (E : libc) (fuel : nat) (argv : list arg) (n : Z)
    (p_f p_l : pfloat) (seed : Z) :
  rand_in_range E -> log_sane E (3 * n) -> valid_input E argv n p_f p_l seed ->
  3 * n <= Z.of_nat fuel ->
  exists s c,
    main E fuel argv = Exit 0 s /\ St.k s = Some c /\
    In (Call_malloc (3 * n - Cone.f c - Cone.l c)) (St.trace s) /\
    Z.of_nat (length (Cone.q c)) = 3 * n - Cone.f c - Cone.l c /\
    0 <= Cone.qsize c <= Z.of_nat (length (Cone.q c)).
Proof.
  intros Hrand Hlog Hvalid Hfuel.
  destruct (valid_run E fuel argv n p_f p_l seed Hrand Hlog Hvalid Hfuel)
    as (Hf & Hl & Hfl & _ & bs & free & r & calls & tr & Hrun & _ & Hlen & _ & _ & _
        & count & _ & Htr & _).
  eexists. eexists. split; [exact Hrun|].
  cbn [finished St.k St.trace]. split; [reflexivity|].
  cbn [Cone.f Cone.l Cone.q Cone.qsize].
  rewrite List.length_app, length_fmap, length_replicate. split; [|lia].
  rewrite Htr. apply in_or_app. left. apply in_or_app. right. left. reflexivity.
Qed.

Lemma block_buffer_in_bounds_witness :
  exists s c,
    main sample_libc 300 [arg_prog; arg_100] = Exit 0 s /\ St.k s = Some c /\
    In (Call_malloc (3 * 100 - Cone.f c - Cone.l c)) (St.trace s) /\
    Z.of_nat (length (Cone.q c)) = 3 * 100 - Cone.f c - Cone.l c /\
    0 <= Cone.qsize c <= Z.of_nat (length (Cone.q c)).
Proof.
  apply (block_buffer_in_bounds sample_libc 300 [arg_prog; arg_100] 100 lit_0_1 lit_0_3
           (wrap (now sample_libc))).
  - exact sample_rand_in_range.
  - repeat split; reflexivity.
  - constructor; try reflexivity; try (split; reflexivity); vm_compute; congruence.
  - vm_compute. congruence.
Defined.

(** C8 -- Termination of the partition loop: on every valid input the
    loop is entered with [q_num_rows = 3 n - k->f - k->l] rows left;
    every iteration stores a block of between 1 and [max_q] rows and
    takes it from the rows left, and the loop ends, with at most
    [max_q] rows left, as soon as the fuel exceeds the rows above
    [max_q] it started with. *)
Theorem partition_terminates (E : libc) (argv : list arg) (n : Z)
    (p_f p_l : pfloat) (seed : Z) :
  rand_in_range E -> log_sane E (3 * n) -> valid_input E argv n p_f p_l seed ->
  let s0 := at_check E n p_f p_l seed in
  let c0 := Cone.Make (rows_of E n p_f) (rows_of E n p_l) [] 0 0 0 0 in
  let rows := 3 * n - rows_of E n p_f - rows_of E n p_l in
  let max_q := max_q_of E n in
  let entry := in_loop s0 c0 [] (Z.to_nat rows) rows 0 (St.trace s0 ++ [Call_malloc rows]) in
  (prologue E argv ;; check_fractions ;; zero_and_linear E ;; allocate_q) St.init
  = Ok tt entry /\
  1 <= max_q /\
  (forall bs free r calls tr,
      max_q < r <= Z.of_nat free -> Z.of_nat (length bs + free) <= INT_MAX ->
      exists size tr',
        1 <= size <= max_q /\
        loop_body E (in_loop s0 c0 bs free r calls tr)
        = Ok tt (in_loop s0 c0 (bs ++ [size]) (free - 1) (r - size) (S calls) tr')) /\
  (forall fuel, (Z.to_nat (rows - max_q) < fuel)%nat ->
      exists bs free r calls tr,
        while fuel loop_cond (loop_body E) entry = Ok tt (in_loop s0 c0 bs free r calls tr) /\
        0 <= r <= max_q).
Proof.
  intros Hrand Hlog [Hparsed Hn Hfit Hpf Hpl Hsum] s0 c0 rows max_q entry.
  pose proof (fle_one_not_gt _ Hsum) as Hgt.
  destruct (three_n_bounds n Hn Hfit) as [H3n Hw].
  destruct (zero_and_linear_rows E (3 * n) p_f p_l ltac:(lia) Hpf Hpl Hgt) as (Hf & Hl & Hfl).
  pose proof (max_q_bounds E (3 * n) H3n Hlog) as Hmq.
  assert (Hmax : St.max_q s0 = Some max_q) by reflexivity.
  assert (Hmq' : 1 <= max_q <= INT_MAX).
  { unfold max_q, max_q_of. rewrite Hw. unfold INT_MAX in *. lia. }
  assert (Hrows : 0 <= rows <= INT_MAX).
  { unfold rows, rows_of. rewrite Hw. unfold INT_MAX in *. lia. }
  split; [|split; [lia|split]].
  - cbn [bind]. rewrite (prologue_parsed E argv n p_f p_l seed Hparsed).
    pose proof (before_loop E n p_f p_l seed Hn Hfit Hpf Hpl Hgt) as H.
    cbn zeta in H. cbn [bind] in H. exact H.
  - intros bs free r calls tr Hr Hlen.
    exists (drawn_size E (St.rng_seed s0) max_q calls). eexists.
    split; [exact (drawn_bounds E Hrand s0 max_q Hmq' calls)|].
    rewrite (loop_body_in_loop E s0 c0 max_q Hmax Hmq') by (try assumption; lia).
    pose proof (drawn_bounds E Hrand s0 max_q Hmq' calls) as Hd.
    rewrite wrap_small by (unfold INT_MIN, INT_MAX in *; lia). reflexivity.
  - intros fuel Hfuel.
    destruct (while_in_loop E Hrand s0 c0 max_q Hmax Hmq' fuel [] (Z.to_nat rows) rows 0
                (St.trace s0 ++ [Call_malloc rows]))
      as (bs & free & r & calls & tr & Hrun & Hr & _);
      [lia|cbn [length]; lia|assumption|constructor|].
    exists bs, free, r, calls, tr. split; [exact Hrun|exact Hr].
Qed.

Lemma partition_terminates_witness :
  let E := sample_libc in
  let s0 := at_check E 100 lit_0_1 lit_0_3 (wrap (now E)) in
  let c0 := Cone.Make (rows_of E 100 lit_0_1) (rows_of E 100 lit_0_3) [] 0 0 0 0 in
  let rows := 3 * 100 - rows_of E 100 lit_0_1 - rows_of E 100 lit_0_3 in
  let max_q := max_q_of E 100 in
  let entry := in_loop s0 c0 [] (Z.to_nat rows) rows 0 (St.trace s0 ++ [Call_malloc rows]) in
  (prologue E [arg_prog; arg_100] ;; check_fractions ;; zero_and_linear E ;; allocate_q)
    St.init = Ok tt entry /\
  1 <= max_q /\
  (forall bs free r calls tr,
      max_q < r <= Z.of_nat free -> Z.of_nat (length bs + free) <= INT_MAX ->
      exists size tr',
        1 <= size <= max_q /\
        loop_body E (in_loop s0 c0 bs free r calls tr)
        = Ok tt (in_loop s0 c0 (bs ++ [size]) (free - 1) (r - size) (S calls) tr')) /\
  (forall fuel, (Z.to_nat (rows - max_q) < fuel)%nat ->
      exists bs free r calls tr,
        while fuel loop_cond (loop_body E) entry = Ok tt (in_loop s0 c0 bs free r calls tr) /\
        0 <= r <= max_q).
Proof.
  apply (partition_terminates sample_libc [arg_prog; arg_100] 100 lit_0_1 lit_0_3
           (wrap (now sample_libc))).
  - exact sample_rand_in_range.
  - repeat split; reflexivity.
  - constructor; try reflexivity; try (split; reflexivity); vm_compute; congruence.
Defined.

Lemma between_same_exponent (L : pfloat) (ml mh : positive) (e : Z) :
  valid_binary prec emax L = true ->
  fle (S754_finite false ml e) L = true -> fle L (S754_finite false mh e) = true ->
  exists m, L = S754_finite false m e /\ Zpos ml <= Zpos m <= Zpos mh.
Proof.
  intros V H1 H2. destruct L as [s|[]| |[] m e2]; try discriminate.
  unfold fle, SFleb in H1, H2. cbn [SFcompare] in H1, H2.
  rewrite (Z.compare_antisym e e2) in H2.
  destruct (Z.compare_spec e e2) as [Heq|Hlt|Hgt]; cbn [CompOpp] in H2; try discriminate.
  subst e2. exists m. split; [reflexivity|].
  rewrite Pos.compare_cont_spec, Pos2Z.inj_compare in H1, H2. cbn [Pos.switch_Eq] in H1, H2.
  destruct (Z.compare_spec (Zpos ml) (Zpos m)); try discriminate;
    destruct (Z.compare_spec (Zpos m) (Zpos mh)); try discriminate; lia.
Qed.

(** With [log 300.0] between 5.70 and 5.71 the bound on the blocks of
    the worked example is 53. *)
Lemma max_q_300 (E : libc) :
  log_300_accurate E -> max_q_of E 100 = 53 /\ log_sane E (3 * 100).
Proof.
  intros (V & Hlo & Hhi).
  destruct (between_same_exponent _ _ _ _ V Hlo Hhi) as (m & HL & Hm).
  assert (H300 : of_int 300 = S754_finite false 5277655813324800 (-44)) by reflexivity.
  split.
  2:{ unfold log_sane. change (3 * 100) with 300. rewrite HL, H300.
      split; [rewrite <- HL; exact V|]. split; reflexivity. }
  unfold max_q_of. change (wrap (3 * 100)) with 300. rewrite HL, H300.
  assert (Hm52 : 2 ^ 52 <= Zpos m < 2 ^ 53).
  { change (2 ^ 52) with 4503599627370496. change (2 ^ 53) with 9007199254740992. lia. }
  destruct (fdiv_spec 5277655813324800 m (-44) (-50)) as (k & Hk & _ & Hfin & Hlow & Hupp).
  { change (2 ^ 52) with 4503599627370496. change (2 ^ 53) with 9007199254740992. lia. }
  { exact Hm52. }
  { lia. }
  set (r := fdiv (S754_finite false 5277655813324800 (-44)) (S754_finite false m (-50))) in *.
  set (a := Zpos 5277655813324800 * 2 ^ 53) in *.
  set (q := a / Zpos m) in *.
  assert (Hq : 7394263836532119 <= q <= 7407236229227789).
  { split.
    - change 7394263836532119 with (a / 6428888468071383).
      apply Z.div_le_compat_l; [unfold a; lia|lia].
    - change 7407236229227789 with (a / 6417629469002957).
      apply Z.div_le_compat_l; [unfold a; lia|lia]. }
  clearbody q. clear a.
  replace (-44 - -50 - 53 + k + 1074) with (k + 1027) in Hlow, Hupp by lia.
  rewrite Z.pow_add_r in Hlow, Hupp by lia.
  set (P := 2 ^ 1027) in *.
  assert (HP : 0 < P) by (apply pow2_pos; lia).
  assert (H1074 : 2 ^ 1074 = 140737488355328 * P) by reflexivity.
  assert (Hbounds : 52 * 2 ^ 1074 < scaled r <= 53 * 2 ^ 1074).
  { rewrite H1074.
    assert (Hk2 : q - 1 <= q / 2 ^ k * 2 ^ k /\ (q / 2 ^ k + 1) * 2 ^ k <= q + 2).
    { destruct Hk as [-> | ->].
      - change (2 ^ 0) with 1. rewrite Z.div_1_r. lia.
      - change (2 ^ 1) with 2. pose proof (Z.div_mod q 2 ltac:(lia)).
        pose proof (Z.mod_pos_bound q 2 ltac:(lia)). lia. }
    assert ((q - 1) * P <= q / 2 ^ k * 2 ^ k * P) by (apply Z.mul_le_mono_nonneg_r; lia).
    assert ((q / 2 ^ k + 1) * 2 ^ k * P <= (q + 2) * P) by (apply Z.mul_le_mono_nonneg_r; lia).
    assert (52 * 140737488355328 * P < (q - 1) * P) by (apply Z.mul_lt_mono_pos_r; lia).
    assert ((q + 2) * P <= 53 * 140737488355328 * P) by (apply Z.mul_le_mono_nonneg_r; lia).
    rewrite !Z.mul_assoc in *. lia. }
  assert (Hp1074 : 0 < 2 ^ 1074) by (apply pow2_pos; lia).
  assert (Hin : scaled r <= INT_MAX * 2 ^ 1074).
  { assert (53 * 2 ^ 1074 <= INT_MAX * 2 ^ 1074)
      by (apply Z.mul_le_mono_nonneg_r; unfold INT_MAX; lia). lia. }
  pose proof (to_idxint_ceil_ge E r Hfin Hin) as Hge.
  destruct (to_idxint_ceil E r Hfin Hin) as [Hlt|[Hz _]]; [|lia].
  set (c := to_idxint E (ceil r)) in *.
  assert (H1 : (c - 1) * 2 ^ 1074 < 53 * 2 ^ 1074) by lia.
  assert (H2 : 52 * 2 ^ 1074 < c * 2 ^ 1074) by lia.
  apply Z.mul_lt_mono_pos_r in H1; [|assumption].
  apply Z.mul_lt_mono_pos_r in H2; [|assumption]. lia.
Qed.

(** C9 -- Worked example: with [n = 100] and the fractions 0.1 and 0.3
    the run derives [m = 300], [k->f = 30], [k->l = 90], 180 rows left
    for second-order cones and [max_q = 53], and stores blocks between
    1 and 53 whose sum is 180. *)
Theorem worked_example (E : libc) (fuel : nat) (argv : list arg) (seed : Z) :
  rand_in_range E -> log_300_accurate E ->
  arguments E argv St.init = Ok tt (parsed 100 lit_0_1 lit_0_3 seed) ->
  300 <= Z.of_nat fuel ->
  exists s c,
    main E fuel argv = Exit 0 s /\ St.m s = Some 300 /\ St.k s = Some c /\
    Cone.f c = 30 /\ Cone.l c = 90 /\ St.max_q s = Some 53 /\
    In (Call_malloc 180) (St.trace s) /\
    Forall (fun b => 1 <= b <= 53) (Cone.blocks c) /\
    sum (Cone.blocks c) = 180.
Proof.
  intros Hrand Hlog Hparsed Hfuel.
  destruct (max_q_300 E Hlog) as [Hmq Hsane].
  assert (Hf : rows_of E 100 lit_0_1 = 30) by (vm_compute; reflexivity).
  assert (Hl : rows_of E 100 lit_0_3 = 90) by (vm_compute; reflexivity).
  assert (Hvalid : valid_input E argv 100 lit_0_1 lit_0_3 seed).
  { constructor; try assumption; try reflexivity; try (split; reflexivity).
    unfold INT_MAX. lia. }
  destruct (valid_run E fuel argv 100 lit_0_1 lit_0_3 seed Hrand Hsane Hvalid Hfuel)
    as (_ & _ & _ & _ & bs & free & r & calls & tr & Hrun & Hsum & _ & Hall & _ & _
        & count & _ & Htr & _).
  rewrite Hf, Hl, Hmq in *.
  eexists. eexists. split; [exact Hrun|].
  cbn [finished St.m St.k St.max_q St.trace at_check].
  split; [reflexivity|]. split; [reflexivity|].
  cbn [Cone.f Cone.l]. rewrite blocks_finished.
  split; [reflexivity|]. split; [reflexivity|]. split; [rewrite Hmq; reflexivity|].
  split; [|split; [exact Hall|exact Hsum]].
  rewrite Htr. apply in_or_app. left. apply in_or_app. right. left. reflexivity.
Qed.

Lemma worked_example_witness :
  exists s c,
    main sample_libc 300 [arg_prog; arg_100] = Exit 0 s /\ St.m s = Some 300 /\
    St.k s = Some c /\ Cone.f c = 30 /\ Cone.l c = 90 /\ St.max_q s = Some 53 /\
    In (Call_malloc 180) (St.trace s) /\
    Forall (fun b => 1 <= b <= 53) (Cone.blocks c) /\
    sum (Cone.blocks c) = 180.
Proof.
  apply (worked_example sample_libc 300 [arg_prog; arg_100] (wrap (now sample_libc))).
  - exact sample_rand_in_range.
  - repeat split; reflexivity.
  - reflexivity.
  - vm_compute. congruence.
Defined.

(** C7 -- Determinism under a fixed seed: two runs whose C libraries
    agree on [log], [rand] and the conversions, whatever their clocks,
    and whose command lines set the same [n], fractions and seed end
    alike: same outcome and same final state, hence the same [k->qsize]
    and the same entries of [k->q] in the same order.  The generator is
    seeded once, from [seed], before line 79, and nothing has been
    drawn from it then; on a valid input the blocks but the last are
    made, in order, of the first values of the sequence that
    [srand(seed)] starts. *)
Theorem deterministic_blocks (E1 E2 : libc) (fuel : nat) (argv1 argv2 : list arg)
    (n : Z) (p_f p_l : pfloat) (seed : Z) :
  log E1 = log E2 -> indefinite E1 = indefinite E2 -> rand_seq E1 = rand_seq E2 ->
  arguments E1 argv1 St.init = Ok tt (parsed n p_f p_l seed) ->
  arguments E2 argv2 St.init = Ok tt (parsed n p_f p_l seed) ->
  main E1 fuel argv1 = main E2 fuel argv2 /\
  St.k (final (main E1 fuel argv1)) = St.k (final (main E2 fuel argv2)) /\
  (exists s, prologue E1 argv1 St.init = Ok tt s /\
             St.rng_seed s = seed /\ St.rng_calls s = 0%nat /\
             seedings (St.trace s) = [Call_srand seed]) /\
  (rand_in_range E1 -> log_sane E1 (3 * n) -> valid_input E1 argv1 n p_f p_l seed ->
   3 * n <= Z.of_nat fuel ->
   exists s c count r,
     main E1 fuel argv1 = Exit 0 s /\ St.k s = Some c /\ St.rng_calls s = count /\
     Cone.blocks c = drawn_sizes E1 seed (max_q_of E1 n) 0 count
                     ++ (if 0 <? r then [r] else [])).
Proof.
  intros Hlog Hind Hrand H1 H2.
  assert (Hmain : main E1 fuel argv1 = main E2 fuel argv2).
  { destruct E1 as [log1 ind1 rand1 now1], E2 as [log2 ind2 rand2 now2].
    cbn [log indefinite rand_seq] in Hlog, Hind, Hrand. subst log2 ind2 rand2.
    unfold main, main_from. cbn [bind].
    rewrite (prologue_parsed _ argv1 n p_f p_l seed H1).
    rewrite (prologue_parsed _ argv2 n p_f p_l seed H2).
    reflexivity. }
  split; [exact Hmain|]. split; [rewrite Hmain; reflexivity|]. split.
  - eexists. split; [exact (prologue_parsed _ argv1 n p_f p_l seed H1)|].
    cbn [at_check St.rng_seed St.rng_calls St.trace]. repeat split.
  - intros Hrange Hsane Hvalid Hfuel.
    destruct (valid_run E1 fuel argv1 n p_f p_l seed Hrange Hsane Hvalid Hfuel)
      as (_ & _ & _ & _ & bs & free & r & calls & tr & Hrun & _ & _ & _ & _ & _
          & count & Hcalls & _ & Hbs).
    eexists. eexists. exists count, r. split; [exact Hrun|].
    cbn [finished St.k St.rng_calls]. split; [reflexivity|]. split; [exact Hcalls|].
    rewrite blocks_finished. exact Hbs.
Qed.

Lemma deterministic_blocks_witness :
  main sample_libc 300 [arg_prog; arg_100; arg_0_1; arg_0_3; arg_seed_42]
  = main sample_libc_later 300 [arg_prog; arg_100; arg_0_1; arg_0_3; arg_seed_42] /\
  St.k (final (main sample_libc 300 [arg_prog; arg_100; arg_0_1; arg_0_3; arg_seed_42]))
  = St.k (final (main sample_libc_later 300
                   [arg_prog; arg_100; arg_0_1; arg_0_3; arg_seed_42])) /\
  (exists s, prologue sample_libc [arg_prog; arg_100; arg_0_1; arg_0_3; arg_seed_42] St.init
             = Ok tt s /\
             St.rng_seed s = 42 /\ St.rng_calls s = 0%nat /\
             seedings (St.trace s) = [Call_srand 42]) /\
  (rand_in_range sample_libc -> log_sane sample_libc (3 * 100) ->
   valid_input sample_libc [arg_prog; arg_100; arg_0_1; arg_0_3; arg_seed_42]
     100 lit_0_1 lit_0_3 42 ->
   3 * 100 <= Z.of_nat 300 ->
   exists s c count r,
     main sample_libc 300 [arg_prog; arg_100; arg_0_1; arg_0_3; arg_seed_42] = Exit 0 s /\
     St.k s = Some c /\ St.rng_calls s = count /\
     Cone.blocks c = drawn_sizes sample_libc 42 (max_q_of sample_libc 100) 0 count
                     ++ (if 0 <? r then [r] else [])).
Proof.
  apply (deterministic_blocks sample_libc sample_libc_later 300
           [arg_prog; arg_100; arg_0_1; arg_0_3; arg_seed_42]
           [arg_prog; arg_100; arg_0_1; arg_0_3; arg_seed_42] 100 lit_0_1 lit_0_3 42);
    reflexivity.
Defined.

(** C3, as the program has it.  The claim that every input with
    [p_f + p_l > 1.0] is rejected fails: line 85 compares the sum as
    rounded to a double.  With [n = 10], [p_f = 0.5] and
    [p_l = 0.5 + 2 ^ -53] the exact sum exceeds 1.0 (the values of the
    doubles are compared, each times [2 ^ 1074]), its rounding is 1.0,
    the test is false and [main] returns 0 after the solver has run,
    with 15 rows in each of the zero and linear cones. *)
Lemma rejection_counterexample :
  scaled lit_1_0 < scaled lit_0_5 + scaled lit_0_5_up /\
  fadd lit_0_5 lit_0_5_up = lit_1_0 /\
  exists s c,
    main sample_libc 30 [arg_prog; arg_10; arg_0_5; arg_0_5_up] = Exit 0 s /\
    In Call_scs (St.trace s) /\
    St.k s = Some c /\ Cone.f c = 15 /\ Cone.l c = 15.
Proof.
  split; [vm_compute; reflexivity|]. split; [vm_compute; reflexivity|].
  eexists. eexists. split; [vm_compute; reflexivity|].
  split; [cbn [St.trace In]; do 13 right; left; reflexivity|].
  repeat split.
Qed.

(** C3 -- Rejection of invalid fractions, amended: whenever the sum of
    the fractions the command line sets, computed in double precision
    as line 85 computes it, compares greater than 1.0, [main] prints
    the error message and returns 1; until then it has only seeded the
    generator,
    printed the seed and allocated the four structures: [k] is as
    [scs_calloc] left it, [q_num_rows] and [q_total] were never
    assigned, no buffer was allocated, nothing was drawn, and neither
    the instance builder nor the solver was called. *)
Theorem rejection (E : libc) (fuel : nat) (argv : list arg) (n : Z)
    (p_f p_l : pfloat) (seed : Z) :
  arguments E argv St.init = Ok tt (parsed n p_f p_l seed) ->
  fgt (fadd p_f p_l) lit_1_0 = true ->
  exists s,
    main E fuel argv = Exit 1 s /\
    St.trace s = [Call_srand seed; Print_seed seed; Call_calloc; Call_calloc;
                  Call_calloc; Call_calloc; Print_error] /\
    St.k s = Some Cone.zero /\ St.q_num_rows s = None /\ St.q_total s = None /\
    St.rng_calls s = 0%nat.
Proof.
  intros Hparsed Hgt. eexists. split.
  - unfold main, main_from. cbn [bind].
    rewrite (prologue_parsed E argv n p_f p_l seed Hparsed).
    unfold check_fractions, at_check. run. rewrite Hgt. run. reflexivity.
  - repeat split.
Qed.

Lemma rejection_witness :
  exists s,
    main sample_libc 0 [arg_prog; arg_10; arg_0_7; arg_0_5] = Exit 1 s /\
    St.trace s = [Call_srand (wrap (now sample_libc)); Print_seed (wrap (now sample_libc));
                  Call_calloc; Call_calloc; Call_calloc; Call_calloc; Print_error] /\
    St.k s = Some Cone.zero /\ St.q_num_rows s = None /\ St.q_total s = None /\
    St.rng_calls s = 0%nat.
Proof.
  apply (rejection sample_libc 0 [arg_prog; arg_10; arg_0_7; arg_0_5] 10 lit_0_7 lit_0_5
           (wrap (now sample_libc))); reflexivity.
Defined.

(** C4, as the program has it.  The claim that nothing is derived
    before the test fails: at [n = 10], [p_f = 0.7], [p_l = 0.5] the
    run is rejected, and [m], [col_nnz], [nnz] and [max_q] have been
    computed by then (lines 79-83 precede the test of line 85). *)
Lemma check_first_counterexample :
  exists s,
    main sample_libc 0 [arg_prog; arg_10; arg_0_7; arg_0_5] = Exit 1 s /\
    St.m s = Some 30 /\ St.col_nnz s = Some 4 /\ St.nnz s = Some 40 /\
    St.max_q s = Some 9.
Proof. eexists. split; [vm_compute; reflexivity|]. repeat split. Qed.

(** C4 -- Ordering of the test, amended: when line 85 tests the
    fractions, [m], [col_nnz], [nnz] and [max_q] have been derived from
    [n], while the rows of the zero and linear cones, the rows left and
    the buffer have not; when the test fails [main] returns 1 from
    that state, so that no row is allocated. *)
Theorem check_before_cones (E : libc) (fuel : nat) (argv : list arg) (n : Z)
    (p_f p_l : pfloat) (seed : Z) :
  arguments E argv St.init = Ok tt (parsed n p_f p_l seed) ->
  exists s,
    prologue E argv St.init = Ok tt s /\
    St.m s = Some (wrap (3 * n)) /\ St.col_nnz s = Some (col_nnz_of E n) /\
    St.nnz s = Some (wrap (n * col_nnz_of E n)) /\ St.max_q s = Some (max_q_of E n) /\
    St.k s = Some Cone.zero /\ St.q_num_rows s = None /\
    St.trace s = [Call_srand seed; Print_seed seed; Call_calloc; Call_calloc;
                  Call_calloc; Call_calloc] /\
    (fgt (fadd p_f p_l) lit_1_0 = true ->
     main E fuel argv = Exit 1 (Upd.trace Print_error s)).
Proof.
  intros Hparsed. exists (at_check E n p_f p_l seed).
  split; [exact (prologue_parsed E argv n p_f p_l seed Hparsed)|].
  repeat (split; [reflexivity|]).
  intros Hgt. unfold main, main_from. cbn [bind].
  rewrite (prologue_parsed E argv n p_f p_l seed Hparsed).
  unfold check_fractions, at_check. run. rewrite Hgt. run. reflexivity.
Qed.

Lemma check_before_cones_witness :
  exists s,
    prologue sample_libc [arg_prog; arg_10; arg_0_7; arg_0_5] St.init = Ok tt s /\
    St.m s = Some (wrap (3 * 10)) /\ St.col_nnz s = Some (col_nnz_of sample_libc 10) /\
    St.nnz s = Some (wrap (10 * col_nnz_of sample_libc 10)) /\
    St.max_q s = Some (max_q_of sample_libc 10) /\
    St.k s = Some Cone.zero /\ St.q_num_rows s = None /\
    St.trace s = [Call_srand (wrap (now sample_libc)); Print_seed (wrap (now sample_libc));
                  Call_calloc; Call_calloc; Call_calloc; Call_calloc] /\
    (fgt (fadd lit_0_7 lit_0_5) lit_1_0 = true ->
     main sample_libc 0 [arg_prog; arg_10; arg_0_7; arg_0_5]
     = Exit 1 (Upd.trace Print_error s)).
Proof.
  apply (check_before_cones sample_libc 0 [arg_prog; arg_10; arg_0_7; arg_0_5] 10
           lit_0_7 lit_0_5 (wrap (now sample_libc))).
  reflexivity.
Defined.

(** C5, as the program has it.  The claim that a non-positive [n] is a
    usage error fails: with [n = 0] the run prints no usage text,
    derives [m = 0], calls the instance builder and the solver and
    returns 0. *)
Lemma positive_n_counterexample :
  exists s,
    main sample_libc 1 [arg_prog; arg_0] = Exit 0 s /\
    St.n s = Some 0 /\ St.m s = Some 0 /\
    ~ In Print_usage (St.trace s) /\
    In (Call_genRandomProbData 0 0) (St.trace s) /\ In Call_scs (St.trace s).
Proof.
  eexists. split; [vm_compute; reflexivity|].
  cbn [St.n St.m St.trace]. split; [reflexivity|]. split; [reflexivity|].
  split; [|split].
  - cbn [In]. intros H. repeat (destruct H as [H|H]; [discriminate H|]). exact H.
  - cbn [In]. do 10 right. left. reflexivity.
  - cbn [In]. do 13 right. left. reflexivity.
Qed.

(** C5 -- The variable count, amended: [n] is not validated.  With 2,
    4 or 5 arguments the program takes whatever [atoi] makes of
    [argv[1]] as [n], positive or not, and reaches the test of line 85
    with [m = 3 n] (as an [idxint]) derived from it; the usage text,
    followed by the return of 0, is what any other argument count
    gets. *)
Theorem n_not_validated (E : libc) (fuel : nat) (argv : list arg) :
  match length argv with
  | 2%nat | 4%nat | 5%nat =>
      exists a p_f p_l seed,
        argv !! 1%nat = Some a /\
        prologue E argv St.init = Ok tt (at_check E (atoi a) p_f p_l seed) /\
        St.m (at_check E (atoi a) p_f p_l seed) = Some (wrap (3 * atoi a))
  | _ => exists s, main E fuel argv = Exit 0 s /\ St.trace s = [Print_usage]
  end.
Proof.
  pose proof (arguments_cases E argv) as H.
  destruct (length argv) as [|[|[|[|[|[|k]]]]]].
  3,5,6: destruct H as (a & p_f & p_l & seed & Ha & Hp);
    exists a, p_f, p_l, seed; split; [exact Ha|]; split; [|reflexivity];
    exact (prologue_parsed E argv (atoi a) p_f p_l seed Hp).
  all: destruct H as (s & Hs & Htr); exists s; split; [|exact Htr];
    unfold main, main_from; cbn [bind]; rewrite (prologue_usage E argv s 0 Hs); reflexivity.
Qed.

(** C6, as the program has it.  The claim that [max_q] is guarded
    fails: with [n = -1] the logarithm of [-3] is taken, its NaN goes
    through the division and the ceiling into the conversion, [max_q]
    is what the conversion makes of it, and the run goes on into the
    loop. *)
Lemma degenerate_size_counterexample :
  log sample_libc (of_int (wrap (3 * -1))) = S754_nan /\
  exists s,
    main sample_libc 1 [arg_prog; arg_minus_1] = Fault Out_of_bounds s /\
    St.m s = Some (-3) /\ St.max_q s = Some (indefinite sample_libc) /\
    St.rng_calls s = 1%nat.
Proof.
  split; [reflexivity|]. eexists. split; [vm_compute; reflexivity|]. repeat split.
Qed.

(** C6 -- The block bound, amended: line 83 computes [max_q] from
    [log (3 n)] with no guard, for every [n]; for a positive [n] whose
    triple is an [idxint] none is needed: [3 n] is at least 3, its
    logarithm at least 1, and [max_q] lies between 1 and [3 n + 1]. *)
Theorem max_q_unguarded (E : libc) (argv : list arg) (n : Z) (p_f p_l : pfloat)
    (seed : Z) :
  arguments E argv St.init = Ok tt (parsed n p_f p_l seed) ->
  (exists s,
      prologue E argv St.init = Ok tt s /\
      St.max_q s
      = Some (to_idxint E (ceil (fdiv (of_int (wrap (3 * n)))
                                      (log E (of_int (wrap (3 * n)))))))) /\
  (0 < n -> 3 * n <= INT_MAX -> log_sane E (3 * n) ->
   1 <= max_q_of E n <= 3 * n + 1).
Proof.
  intros Hparsed. split.
  - exists (at_check E n p_f p_l seed).
    split; [exact (prologue_parsed E argv n p_f p_l seed Hparsed)|reflexivity].
  - intros Hn Hfit Hlog.
    destruct (three_n_bounds n Hn Hfit) as [H3n Hw].
    unfold max_q_of. rewrite Hw. exact (max_q_bounds E (3 * n) H3n Hlog).
Qed.

Lemma max_q_unguarded_witness :
  (exists s,
      prologue sample_libc [arg_prog; arg_1] St.init = Ok tt s /\
      St.max_q s
      = Some (to_idxint sample_libc
                (ceil (fdiv (of_int (wrap (3 * 1)))
                            (log sample_libc (of_int (wrap (3 * 1)))))))) /\
  (0 < 1 -> 3 * 1 <= INT_MAX -> log_sane sample_libc (3 * 1) ->
   1 <= max_q_of sample_libc 1 <= 3 * 1 + 1).
Proof.
  apply (max_q_unguarded sample_libc [arg_prog; arg_1] 1 lit_0_1 lit_0_3
           (wrap (now sample_libc))).
  reflexivity.
Defined.

(** ** Further properties of [main] *)

(** *** The command line *)

Lemma main_usage (E : libc) (fuel : nat) (argv : list arg) (s : St.t) :
  arguments E argv St.init = Exit 0 s -> main E fuel argv = Exit 0 s.
Proof.
  intros H. unfold main, main_from. cbn [bind].
  rewrite (prologue_usage E argv s 0 H). reflexivity.
Qed.

(** X1 -- Lines 40-70, for every command line that holds the program
    name ([argc] at least 1): with one argument [n] is read and the
    fractions are 0.1 and 0.3; with three the fractions are read as
    well; in both cases the seed is the time; with four the seed is
    read too.  Any other number of arguments, none and more than four
    included, gets the usage text and the status 0, with nothing
    seeded, allocated or computed.  [argv[0]] is never parsed. *)
Theorem arguments_by_count (E : libc) (fuel : nat) (a0 : arg) (rest : list arg) :
  match rest with
  | [a1] =>
      arguments E (a0 :: rest) St.init
      = Ok tt (parsed (atoi a1) lit_0_1 lit_0_3 (wrap (now E)))
  | [a1; a2; a3] =>
      arguments E (a0 :: rest) St.init
      = Ok tt (parsed (atoi a1) (atof a2) (atof a3) (wrap (now E)))
  | [a1; a2; a3; a4] =>
      arguments E (a0 :: rest) St.init
      = Ok tt (parsed (atoi a1) (atof a2) (atof a3) (atoi a4))
  | _ => main E fuel (a0 :: rest) = Exit 0 (after_usage E)
  end.
Proof.
  destruct rest as [|a1 [|a2 [|a3 [|a4 [|a5 rest]]]]]; try reflexivity.
  apply main_usage. unfold arguments, defaults, switch_argc.
  set (argc := Z.of_nat (length (a0 :: a1 :: a2 :: a3 :: a4 :: a5 :: rest))).
  assert (H5 : (argc =? 5) = false) by (apply Z.eqb_neq; unfold argc; cbn [length]; lia).
  assert (H4 : (argc =? 4) = false) by (apply Z.eqb_neq; unfold argc; cbn [length]; lia).
  assert (H2 : (argc =? 2) = false) by (apply Z.eqb_neq; unfold argc; cbn [length]; lia).
  run. rewrite H5, H4, H2. reflexivity.
Qed.

(** *** The report *)

Lemma block_count (max_q : Z) (bs : list Z) :
  Forall (block_in max_q) bs ->
  Z.of_nat (length bs) <= sum bs <= Z.of_nat (length bs) * max_q.
Proof.
  induction 1 as [|b bs Hb Hbs IH]; [cbn; lia|].
  unfold block_in in Hb. change (sum (b :: bs)) with (b + sum bs).
  cbn [length]. lia.
Qed.

Lemma length_drawn_sizes (E : libc) (seed max_q : Z) (calls count : nat) :
  length (drawn_sizes E seed max_q calls count) = count.
Proof. unfold drawn_sizes. rewrite length_fmap, length_seq. reflexivity. Qed.

(** X2 -- Lines 109-133: on every valid input the report lists the blocks
    of [k->q] in order, with their number and their sum, and the rows
    it prints as covered are all the [m = 3 n] rows. *)
Theorem report_covers_all_rows (E : libc) (fuel : nat) (argv : list arg) (n : Z)
    (p_f p_l : pfloat) (seed : Z) :
  rand_in_range E -> log_sane E (3 * n) -> valid_input E argv n p_f p_l seed ->
  3 * n <= Z.of_nat fuel ->
  exists s c,
    main E fuel argv = Exit 0 s /\ St.k s = Some c /\
    In (Print_cone (Cone.f c) (Cone.l c) (Cone.qsize c) (sum (Cone.blocks c))
          (Cone.blocks c)) (St.trace s) /\
    Cone.qsize c = Z.of_nat (length (Cone.blocks c)) /\
    In (Print_covered (3 * n) (3 * n)) (St.trace s).
Proof.
  intros Hrand Hlog Hvalid Hfuel.
  destruct (valid_run E fuel argv n p_f p_l seed Hrand Hlog Hvalid Hfuel)
    as (Hf & Hl & Hfl & _ & bs & free & r & calls & tr & Hrun & Hsum & _).
  destruct Hvalid as [_ Hn Hfit _ _ _].
  eexists. eexists. split; [exact Hrun|].
  cbn [finished St.k St.trace]. split; [reflexivity|].
  rewrite blocks_finished. cbn [Cone.f Cone.l Cone.qsize].
  split; [|split; [reflexivity|]].
  - apply in_or_app. right. right. left. reflexivity.
  - apply in_or_app. right. right. right. left.
    rewrite Hsum.
    rewrite (wrap_small (3 * n - rows_of E n p_f - rows_of E n p_l + rows_of E n p_f))
      by (unfold INT_MIN, INT_MAX in *; lia).
    rewrite wrap_small by (unfold INT_MIN, INT_MAX in *; lia).
    f_equal. lia.
Qed.

Lemma report_covers_all_rows_witness :
  exists s c,
    main sample_libc 300 [arg_prog; arg_100] = Exit 0 s /\ St.k s = Some c /\
    In (Print_cone (Cone.f c) (Cone.l c) (Cone.qsize c) (sum (Cone.blocks c))
          (Cone.blocks c)) (St.trace s) /\
    Cone.qsize c = Z.of_nat (length (Cone.blocks c)) /\
    In (Print_covered (3 * 100) (3 * 100)) (St.trace s).
Proof.
  apply (report_covers_all_rows sample_libc 300 [arg_prog; arg_100] 100 lit_0_1 lit_0_3
           (wrap (now sample_libc))).
  - exact sample_rand_in_range.
  - repeat split; reflexivity.
  - constructor; try reflexivity; try (split; reflexivity); vm_compute; congruence.
  - vm_compute. congruence.
Defined.

(** X3 -- Lines 97-107: on every valid input the number of second-order
    cones lies between the rows left divided by [max_q] and the rows
    left, and [rand()] is called once for every block but a last one
    that takes what is left. *)
Theorem block_count_bounds (E : libc) (fuel : nat) (argv : list arg) (n : Z)
    (p_f p_l : pfloat) (seed : Z) :
  rand_in_range E -> log_sane E (3 * n) -> valid_input E argv n p_f p_l seed ->
  3 * n <= Z.of_nat fuel ->
  exists s c max_q,
    main E fuel argv = Exit 0 s /\ St.k s = Some c /\ St.max_q s = Some max_q /\
    Cone.qsize c <= 3 * n - Cone.f c - Cone.l c <= Cone.qsize c * max_q /\
    Z.of_nat (St.rng_calls s) <= Cone.qsize c <= Z.of_nat (St.rng_calls s) + 1.
Proof.
  intros Hrand Hlog Hvalid Hfuel.
  destruct (valid_run E fuel argv n p_f p_l seed Hrand Hlog Hvalid Hfuel)
    as (_ & _ & _ & _ & bs & free & r & calls & tr & Hrun & Hsum & _ & Hall & _ & _
        & count & Hcalls & _ & Hbs).
  eexists. eexists. exists (max_q_of E n). split; [exact Hrun|].
  cbn [finished St.k St.max_q St.rng_calls at_check Cone.f Cone.l Cone.qsize].
  split; [reflexivity|]. split; [reflexivity|].
  pose proof (block_count (max_q_of E n) bs Hall) as Hcount.
  cbn [St.rng_calls Cone.f Cone.l Cone.qsize].
  split; [lia|].
  apply (f_equal (@length Z)) in Hbs.
  rewrite List.length_app, length_drawn_sizes in Hbs. subst calls.
  destruct (0 <? r); cbn [length] in Hbs; lia.
Qed.

Lemma block_count_bounds_witness :
  exists s c max_q,
    main sample_libc 300 [arg_prog; arg_100] = Exit 0 s /\ St.k s = Some c /\
    St.max_q s = Some max_q /\
    Cone.qsize c <= 3 * 100 - Cone.f c - Cone.l c <= Cone.qsize c * max_q /\
    Z.of_nat (St.rng_calls s) <= Cone.qsize c <= Z.of_nat (St.rng_calls s) + 1.
Proof.
  apply (block_count_bounds sample_libc 300 [arg_prog; arg_100] 100 lit_0_1 lit_0_3
           (wrap (now sample_libc))).
  - exact sample_rand_in_range.
  - repeat split; reflexivity.
  - constructor; try reflexivity; try (split; reflexivity); vm_compute; congruence.
  - vm_compute. congruence.
Defined.

(** *** Every run of [main] *)

Lemma wrap_range (z : Z) : INT_MIN <= wrap z <= INT_MAX.
Proof.
  unfold wrap, INT_MIN, INT_MAX.
  assert (Hp : 0 < 2 ^ 32) by reflexivity.
  pose proof (Z.mod_pos_bound (z + 2 ^ 31) (2 ^ 32) Hp) as H.
  change (2 ^ 31) with 2147483648 in *. change (2 ^ 32) with 4294967296 in *. lia.
Qed.

Lemma rand_events_snoc (E : libc) (seed : Z) (calls count : nat) :
  rand_events E seed calls (S count)
  = Call_rand (rand_seq E seed calls) :: rand_events E seed (S calls) count.
Proof. reflexivity. Qed.

Lemma in_rand_events (E : libc) (seed : Z) (calls count : nat) (ev : event) :
  In ev (rand_events E seed calls count) -> is_rand ev = true.
Proof.
  unfold rand_events. revert calls.
  induction count as [|count IH]; intros calls; cbn [seq fmap list_fmap In]; [tauto|].
  intros [<-|H]; [reflexivity|exact (IH _ H)].
Qed.

Section Any.

Variable E : libc.
Variables (s : St.t) (c : Cone.t) (max_q : Z).
Hypothesis Hmax : St.max_q s = Some max_q.

(** A store when the buffer is full. *)
Lemma push_q_full (bs : list Z) (r : Z) (calls : nat) (tr : list event) (v : Z) :
  push_q v (in_loop s c bs 0 r calls tr)
  = Fault Out_of_bounds (in_loop s c bs 0 r calls tr).
Proof.
  unfold push_q, store_q, in_loop. run.
  rewrite List.length_app, length_fmap, length_replicate.
  replace (0 <=? Z.of_nat (length bs)) with true by (symmetry; apply Z.leb_le; lia).
  replace (Z.of_nat (length bs) <? Z.of_nat (length bs + 0)) with false
    by (symmetry; apply Z.ltb_ge; lia).
  reflexivity.
Qed.

(** One iteration from any state of the loop. *)
Lemma loop_body_any (bs : list Z) (free : nat) (r : Z) (calls : nat) (tr : list event) :
  Z.of_nat (length bs + free) <= INT_MAX ->
  let tr' := tr ++ [Call_rand (rand_seq E (St.rng_seed s) calls)] in
  let size := drawn_size E (St.rng_seed s) max_q calls in
  loop_body E (in_loop s c bs free r calls tr)
  = if max_q =? 0 then Fault Division_by_zero (in_loop s c bs free r (S calls) tr')
    else match free with
         | O => Fault Out_of_bounds (in_loop s c bs 0 r (S calls) tr')
         | S free' =>
             Ok tt (in_loop s c (bs ++ [size]) free' (wrap (r - size)) (S calls) tr')
         end.
Proof.
  intros Hlen tr' size. subst tr' size.
  unfold loop_body, rand, push_q, store_q, in_loop, drawn_size. run.
  rewrite Hmax. run. destruct (max_q =? 0); [reflexivity|].
  run. rewrite List.length_app, length_fmap, length_replicate.
  replace (0 <=? Z.of_nat (length bs)) with true by (symmetry; apply Z.leb_le; lia).
  destruct free as [|free'].
  - replace (Z.of_nat (length bs) <? Z.of_nat (length bs + 0)) with false
      by (symmetry; apply Z.ltb_ge; lia).
    reflexivity.
  - replace (Z.of_nat (length bs) <? Z.of_nat (length bs + S free')) with true
      by (symmetry; apply Z.ltb_lt; lia).
    cbn [andb]. run. rewrite insert_next by lia.
    rewrite (wrap_small (Z.of_nat (length bs) + 1)) by (unfold INT_MIN, INT_MAX in *; lia).
    rewrite List.length_app. cbn [length].
    replace (Z.of_nat (length bs) + 1) with (Z.of_nat (length bs + 1)) by lia.
    replace (S free' - 1)%nat with free' by lia.
    reflexivity.
Qed.

(** The loop from any of its states: it ends with at most [max_q] rows
    left, or stops at a remainder by zero, at a store past the end of
    the buffer, or for lack of fuel; all it adds to the trace are calls
    of [rand()]. *)
Lemma while_any (fuel : nat) : forall (bs : list Z) (free : nat) (r : Z)
    (calls : nat) (tr : list event),
  Z.of_nat (length bs + free) <= INT_MAX ->
  exists bs' free' r' count,
    (length bs' + free' = length bs + free)%nat /\
    let st := in_loop s c bs' free' r' (calls + count)
                (tr ++ rand_events E (St.rng_seed s) calls count) in
    let res := while fuel loop_cond (loop_body E) (in_loop s c bs free r calls tr) in
    (res = Ok tt st /\ r' <= max_q) \/
    (res = Fault Division_by_zero st /\ max_q = 0) \/
    (res = Fault Out_of_bounds st /\ free' = 0%nat) \/
    res = Out_of_fuel st.
Proof.
  induction fuel as [|fuel IH]; intros bs free r calls tr Hlen.
  - exists bs, free, r, 0%nat. split; [reflexivity|].
    cbn zeta. rewrite Nat.add_0_r. unfold rand_events. cbn [seq fmap list_fmap].
    rewrite app_nil_r. right. right. right. reflexivity.
  - cbn [while bind]. rewrite (loop_cond_in_loop s c max_q Hmax).
    destruct (Z.ltb_spec max_q r) as [Hgt|Hle].
    + cbn [bind]. rewrite (loop_body_any bs free r calls tr Hlen). cbn zeta.
      destruct (Z.eqb_spec max_q 0) as [H0|H0].
      * exists bs, free, r, 1%nat. split; [reflexivity|]. cbn zeta.
        replace (calls + 1)%nat with (S calls) by lia.
        right. left. split; [reflexivity|assumption].
      * destruct free as [|free'].
        -- exists bs, 0%nat, r, 1%nat. split; [reflexivity|]. cbn zeta.
           replace (calls + 1)%nat with (S calls) by lia.
           right. right. left. split; reflexivity.
        -- destruct (IH (bs ++ [drawn_size E (St.rng_seed s) max_q calls]) free'
                        (wrap (r - drawn_size E (St.rng_seed s) max_q calls)) (S calls)
                        (tr ++ [Call_rand (rand_seq E (St.rng_seed s) calls)]))
             as (bs' & free'' & r' & count & Hl & Hres).
           { rewrite List.length_app. cbn [length]. lia. }
           exists bs', free'', r', (S count). split.
           { rewrite List.length_app in Hl. cbn [length] in Hl. lia. }
           cbn zeta in Hres |- *. rewrite rand_events_snoc.
           replace (calls + S count)%nat with (S calls + count)%nat by lia.
           rewrite <- app_assoc in Hres. cbn [app] in Hres. exact Hres.
    + exists bs, free, r, 0%nat. split; [reflexivity|].
      cbn zeta. rewrite Nat.add_0_r. unfold rand_events. cbn [seq fmap list_fmap].
      rewrite app_nil_r. left. split; [reflexivity|assumption].
Qed.

(** Lines 110-112 from the index [length pre] on, whatever the
    blocks. *)
Lemma total_loop_any (free : nat) (r : Z) (calls : nat) (tr : list event) :
  forall (post pre : list Z) (acc : Z),
  foldr (fun i rest =>
           (let* x := load_q i in
            let* q_total := get St.q_total in
            put (Upd.q_total (wrap (q_total + x)))) ;; rest)
        (ret tt) ((fun i : nat => Z.of_nat i + 0) <$> seq (length pre) (length post))
        (in_loop (Upd.q_total acc s) c (pre ++ post) free r calls tr)
  = Ok tt (in_loop (Upd.q_total (foldl (fun a x => wrap (a + x)) acc post) s) c
             (pre ++ post) free r calls tr).
Proof.
  induction post as [|x post IH]; intros pre acc; [reflexivity|].
  cbn [length seq fmap list_fmap foldr bind foldl].
  rewrite (load_q_in_loop c (pre ++ x :: post) free r calls tr (length pre) x)
    by (rewrite lookup_app_r by lia; rewrite Nat.sub_diag; reflexivity).
  change (get St.q_total (in_loop (Upd.q_total acc s) c (pre ++ x :: post) free r calls tr))
    with (Ok acc (in_loop (Upd.q_total acc s) c (pre ++ x :: post) free r calls tr)).
  cbn iota beta.
  change (put (Upd.q_total (wrap (acc + x)))
            (in_loop (Upd.q_total acc s) c (pre ++ x :: post) free r calls tr))
    with (Ok tt (in_loop (Upd.q_total (wrap (acc + x)) s) c (pre ++ x :: post) free r
                   calls tr)).
  cbn iota beta.
  specialize (IH (pre ++ [x]) (wrap (acc + x))).
  rewrite List.length_app in IH. cbn [length] in IH.
  replace (length pre + 1)%nat with (S (length pre)) in IH by lia.
  rewrite <- app_assoc in IH. cbn [app] in IH.
  change (list_fmap nat Z (fun i : nat => Z.of_nat i + 0))
    with (fmap (M:=list) (fun i : nat => Z.of_nat i + 0)).
  exact IH.
Qed.

Lemma total_any (bs : list Z) (free : nat) (r : Z) (calls : nat) (tr : list event) :
  total (in_loop s c bs free r calls tr)
  = Ok tt (in_loop (Upd.q_total (wsum bs) s) c bs free r calls tr).
Proof.
  unfold total, for_upto. cbn [bind].
  change (put (Upd.q_total 0) (in_loop s c bs free r calls tr))
    with (Ok tt (in_loop (Upd.q_total 0 s) c bs free r calls tr)).
  cbn iota beta. unfold in_loop at 1. unfold deref_k at 1. cbn [St.k Cone.qsize].
  fold (in_loop (Upd.q_total 0 s) c bs free r calls tr).
  rewrite seqZ_0.
  exact (total_loop_any free r calls tr bs [] 0).
Qed.

End Any.

(** Lines 97-107 from the state in which the loop is entered. *)
Lemma partition_any (E : libc) (s : St.t) (c : Cone.t) (max_q : Z) (fuel free : nat)
    (r : Z) (tr : list event) :
  St.max_q s = Some max_q -> Z.of_nat free <= INT_MAX ->
  exists bs free' r' count,
    (length bs + free' = free)%nat /\
    let st := in_loop s c bs free' r' count
                (tr ++ rand_events E (St.rng_seed s) 0 count) in
    let res := partition E fuel (in_loop s c [] free r 0 tr) in
    res = Ok tt st \/
    (res = Fault Division_by_zero st /\ max_q = 0) \/
    (res = Fault Out_of_bounds st /\ free' = 0%nat) \/
    res = Out_of_fuel st.
Proof.
  intros Hmax Hfree.
  destruct (while_any E s c max_q Hmax fuel [] free r 0 tr ltac:(cbn [length]; lia))
    as (bs & free' & r' & count & Hlen & Hres).
  cbn [length] in Hlen. cbn zeta in Hres. cbn [Nat.add] in Hres.
  unfold partition. cbn [bind].
  destruct Hres as [[Hres Hr]|[[Hres H0]|[[Hres H0]|Hres]]]; rewrite Hres.
  - change (get St.q_num_rows
              (in_loop s c bs free' r' count (tr ++ rand_events E (St.rng_seed s) 0 count)))
      with (Ok r' (in_loop s c bs free' r' count
                     (tr ++ rand_events E (St.rng_seed s) 0 count))).
    cbn iota beta. destruct (0 <? r').
    + destruct free' as [|free''].
      * exists bs, 0%nat, r', count. split; [lia|]. cbn zeta.
        rewrite push_q_full. right. right. left. split; reflexivity.
      * exists (bs ++ [r']), free'', r', count.
        split; [rewrite List.length_app; cbn [length]; lia|]. cbn zeta.
        rewrite push_q_in_loop by lia.
        replace (S free'' - 1)%nat with free'' by lia. left. reflexivity.
    + exists bs, free', r', count. split; [lia|]. left. reflexivity.
  - exists bs, free', r', count. split; [lia|]. right. left. split; [reflexivity|assumption].
  - exists bs, free', r', count. split; [lia|]. right. right. left.
    split; [reflexivity|assumption].
  - exists bs, free', r', count. split; [lia|]. right. right. right. reflexivity.
Qed.

(** [main] from the state in which the loop is entered, for fractions
    that pass the test of line 85. *)
Lemma main_from_loop (E : libc) (fuel : nat) (argv : list arg) (n : Z) (p_f p_l : pfloat)
    (seed : Z) :
  arguments E argv St.init = Ok tt (parsed n p_f p_l seed) ->
  fgt (fadd p_f p_l) lit_1_0 = false ->
  let s0 := at_check E n p_f p_l seed in
  let c0 := Cone.Make (rows_of E n p_f) (rows_of E n p_l) [] 0 0 0 0 in
  let R := wrap (wrap (wrap (3 * n) - rows_of E n p_f) - rows_of E n p_l) in
  main E fuel argv
  = ((partition E fuel ;; total) ;; report ;; build_and_solve)
      (in_loop s0 c0 [] (Z.to_nat R) R 0 (St.trace s0 ++ [Call_malloc R])).
Proof.
  intros Hparsed Hgt s0 c0 R.
  unfold main, main_from. cbn [bind].
  rewrite (prologue_parsed E argv n p_f p_l seed Hparsed).
  unfold check_fractions, cone_structure, zero_and_linear, allocate_q.
  unfold at_check at 1. run. rewrite Hgt. run. reflexivity.
Qed.

(** How [main] can end once the command line is accepted: with the
    status 1 when the fractions add up to more than 1.0; otherwise with
    the status 0 after the solver has run, or at a remainder by a zero
    [max_q], or at a store past the end of [k->q], or for lack of
    fuel. *)
Lemma main_outcomes (E : libc) (fuel : nat) (argv : list arg) (n : Z) (p_f p_l : pfloat)
    (seed : Z) :
  arguments E argv St.init = Ok tt (parsed n p_f p_l seed) ->
  let s0 := at_check E n p_f p_l seed in
  let c0 := Cone.Make (rows_of E n p_f) (rows_of E n p_l) [] 0 0 0 0 in
  let R := wrap (wrap (wrap (3 * n) - rows_of E n p_f) - rows_of E n p_l) in
  if fgt (fadd p_f p_l) lit_1_0
  then main E fuel argv = Exit 1 (Upd.trace Print_error s0)
  else
    exists bs free r count,
      (length bs + free = Z.to_nat R)%nat /\
      let tr := St.trace s0 ++ [Call_malloc R] ++ rand_events E seed 0 count in
      let st := in_loop s0 c0 bs free r count tr in
      main E fuel argv
      = Exit 0 (finished s0 c0 bs free r count tr (wrap (3 * n)) n (col_nnz_of E n)
                  (wrap (n * col_nnz_of E n)) (wsum bs)) \/
      (main E fuel argv = Fault Division_by_zero st /\ max_q_of E n = 0) \/
      (main E fuel argv = Fault Out_of_bounds st /\ free = 0%nat) \/
      main E fuel argv = Out_of_fuel st.
Proof.
  intros Hparsed s0 c0 R.
  destruct (fgt (fadd p_f p_l) lit_1_0) eqn:Hgt.
  { unfold main, main_from. cbn [bind].
    rewrite (prologue_parsed E argv n p_f p_l seed Hparsed).
    unfold check_fractions, s0, at_check. run. rewrite Hgt. run. reflexivity. }
  pose proof (main_from_loop E fuel argv n p_f p_l seed Hparsed Hgt) as Hrun.
  cbn zeta in Hrun. fold s0 c0 R in Hrun.
  rewrite Hrun. clear Hrun. cbn [bind].
  assert (Hmax : St.max_q s0 = Some (max_q_of E n)) by reflexivity.
  assert (HR : Z.of_nat (Z.to_nat R) <= INT_MAX).
  { pose proof (wrap_range (wrap (wrap (3 * n) - rows_of E n p_f) - rows_of E n p_l)).
    fold R in H. unfold INT_MAX in *. lia. }
  destruct (partition_any E s0 c0 (max_q_of E n) fuel (Z.to_nat R) R
              (St.trace s0 ++ [Call_malloc R]) Hmax HR)
    as (bs & free & r & count & Hlen & Hres).
  exists bs, free, r, count. split; [exact Hlen|].
  cbn zeta in Hres |- *. change (St.rng_seed s0) with seed in Hres.
  rewrite <- app_assoc in Hres.
  destruct Hres as [Hres|[[Hres H0]|[[Hres H0]|Hres]]]; rewrite Hres.
  - left. cbn iota beta. rewrite total_any. cbn iota beta.
    pose proof (finish_in_loop (Upd.q_total (wsum bs) s0) c0 bs free r count
                  (St.trace s0 ++ [Call_malloc R] ++ rand_events E seed 0 count)
                  (wrap (3 * n)) n (col_nnz_of E n) (wrap (n * col_nnz_of E n)) (wsum bs)
                  eq_refl eq_refl eq_refl eq_refl eq_refl) as Hfin.
    cbn [bind] in Hfin. exact Hfin.
  - right. left. split; [reflexivity|assumption].
  - right. right. left. split; [reflexivity|assumption].
  - right. right. right. reflexivity.
Qed.

Lemma arguments_outcome (E : libc) (argv : list arg) :
  (exists n p_f p_l seed, arguments E argv St.init = Ok tt (parsed n p_f p_l seed)) \/
  (exists s, arguments E argv St.init = Exit 0 s /\ St.trace s = [Print_usage]).
Proof.
  pose proof (arguments_cases E argv) as H.
  destruct (length argv) as [|[|[|[|[|[|k]]]]]].
  3,5,6: destruct H as (a & p_f & p_l & seed & _ & H); left; eauto.
  all: right; exact H.
Qed.

Lemma rand_events_not_solving (E : libc) (seed : Z) (calls count : nat) :
  Forall (fun ev => is_solving ev = false) (rand_events E seed calls count).
Proof.
  apply List.Forall_forall. intros ev Hin. apply in_rand_events in Hin.
  destruct ev; try discriminate; reflexivity.
Qed.

(** X4 -- Assignment before use: on every command line that holds
    the program name, no run of [main] reads a local variable before
    it is assigned ([n], which has no initialiser and is assigned in
    the [switch] alone, included), and none dereferences [k] before
    [scs_calloc] has returned it; as long as no store has gone outside
    [k->q], no cell of [k->q] is read before it is written either. *)
Theorem assigned_before_use (E : libc) (fuel : nat) (a0 : arg) (rest : list arg)
    (s : St.t) :
  main E fuel (a0 :: rest) <> Fault Uninitialised s /\
  main E fuel (a0 :: rest) <> Fault Null_pointer s.
Proof.
  assert (H : forall w, main E fuel (a0 :: rest) = Fault w s ->
                        w = Division_by_zero \/ w = Out_of_bounds).
  { intros w Hmain.
    destruct (arguments_outcome E (a0 :: rest))
      as [(n & p_f & p_l & seed & Hargs)|(s' & Hargs & _)].
    2:{ rewrite (main_usage E fuel (a0 :: rest) s' Hargs) in Hmain. discriminate. }
    pose proof (main_outcomes E fuel (a0 :: rest) n p_f p_l seed Hargs) as H.
    cbn zeta in H.
    destruct (fgt (fadd p_f p_l) lit_1_0); [rewrite H in Hmain; discriminate|].
    destruct H as (bs & free & r & count & Hlen & [H|[[H H0]|[[H H0]|H]]]);
      rewrite H in Hmain; try discriminate; injection Hmain as <- <-.
    - left. reflexivity.
    - right. reflexivity. }
  split; intros Hmain; destruct (H _ Hmain); discriminate.
Qed.

(** X5 -- The exit statuses: on every command line a run of [main] that
    returns returns 0 after the usage text and nothing else, or 1 after
    the error message, with fractions whose sum exceeds 1.0, or 0 after
    the call of the solver. *)
Theorem exit_status_of_main (E : libc) (fuel : nat) (argv : list arg) (status : Z)
    (s : St.t) :
  main E fuel argv = Exit status s ->
  (status = 0 /\ St.trace s = [Print_usage]) \/
  (status = 1 /\ last (St.trace s) = Some Print_error /\
   exists p_f p_l, St.p_f s = Some p_f /\ St.p_l s = Some p_l /\
                   fgt (fadd p_f p_l) lit_1_0 = true) \/
  (status = 0 /\ In Call_scs (St.trace s) /\
   exists p_f p_l, St.p_f s = Some p_f /\ St.p_l s = Some p_l /\
                   fgt (fadd p_f p_l) lit_1_0 = false).
Proof.
  intros Hmain.
  destruct (arguments_outcome E argv) as [(n & p_f & p_l & seed & Hargs)|(s' & Hargs & Htr)].
  2:{ rewrite (main_usage E fuel argv s' Hargs) in Hmain. injection Hmain as <- <-.
      left. split; [reflexivity|exact Htr]. }
  pose proof (main_outcomes E fuel argv n p_f p_l seed Hargs) as H. cbn zeta in H.
  destruct (fgt (fadd p_f p_l) lit_1_0) eqn:Hgt.
  - rewrite H in Hmain. injection Hmain as <- <-.
    right. left. split; [reflexivity|]. split; [reflexivity|].
    exists p_f, p_l. repeat split. exact Hgt.
  - destruct H as (bs & free & r & count & Hlen & [H|[[H H0]|[[H H0]|H]]]);
      rewrite H in Hmain; try discriminate; injection Hmain as <- <-.
    right. right. split; [reflexivity|]. split.
    + cbn [finished St.trace]. apply in_or_app. right. do 6 right. left. reflexivity.
    + exists p_f, p_l. repeat split. exact Hgt.
Qed.

Lemma exit_status_of_main_witness :
  (1 = 0 /\
   St.trace (final (main sample_libc 0 [arg_prog; arg_10; arg_0_7; arg_0_5]))
   = [Print_usage]) \/
  (1 = 1 /\
   last (St.trace (final (main sample_libc 0 [arg_prog; arg_10; arg_0_7; arg_0_5])))
   = Some Print_error /\
   exists p_f p_l,
     St.p_f (final (main sample_libc 0 [arg_prog; arg_10; arg_0_7; arg_0_5])) = Some p_f /\
     St.p_l (final (main sample_libc 0 [arg_prog; arg_10; arg_0_7; arg_0_5])) = Some p_l /\
     fgt (fadd p_f p_l) lit_1_0 = true) \/
  (1 = 0 /\
   In Call_scs (St.trace (final (main sample_libc 0 [arg_prog; arg_10; arg_0_7; arg_0_5]))) /\
   exists p_f p_l,
     St.p_f (final (main sample_libc 0 [arg_prog; arg_10; arg_0_7; arg_0_5])) = Some p_f /\
     St.p_l (final (main sample_libc 0 [arg_prog; arg_10; arg_0_7; arg_0_5])) = Some p_l /\
     fgt (fadd p_f p_l) lit_1_0 = false).
Proof.
  apply (exit_status_of_main sample_libc 0 [arg_prog; arg_10; arg_0_7; arg_0_5]).
  vm_compute. reflexivity.
Defined.

(** X6 -- The solver: on every command line, a run of [main] whose trace
    holds the call of [scs] has returned 0, and the instance builder,
    [setScsParams] and [scs] were called once each, in that order, at
    the end of the trace; by then [d->m] and [d->n] are [m] and [n],
    the cone has no semidefinite and no exponential part, the first
    [k->qsize] cells of [k->q] are all written and [q_total] is their
    sum (as an [idxint]). *)
Theorem solver_called_last (E : libc) (fuel : nat) (argv : list arg) :
  In Call_scs (St.trace (final (main E fuel argv))) ->
  exists s pre m n nnz col_nnz c,
    main E fuel argv = Exit 0 s /\
    St.trace s = pre ++ solving nnz col_nnz /\
    Forall (fun ev => is_solving ev = false) pre /\
    St.m s = Some m /\ St.n s = Some n /\ St.d s = Some (m, n) /\
    St.nnz s = Some nnz /\ St.col_nnz s = Some col_nnz /\
    St.k s = Some c /\
    Cone.ssize c = 0 /\ Cone.ep c = 0 /\ Cone.ed c = 0 /\
    Cone.qsize c = Z.of_nat (length (Cone.blocks c)) /\
    Cone.qsize c <= Z.of_nat (length (Cone.q c)) /\
    St.q_total s = Some (wsum (Cone.blocks c)).
Proof.
  intros Hin.
  assert (Hquiet : forall tr, Forall (fun ev => is_solving ev = false) tr ->
                              ~ In Call_scs tr).
  { intros tr Hall Hscs. rewrite List.Forall_forall in Hall.
    specialize (Hall _ Hscs). discriminate. }
  destruct (arguments_outcome E argv) as [(n & p_f & p_l & seed & Hargs)|(s' & Hargs & Htr)].
  2:{ rewrite (main_usage E fuel argv s' Hargs) in Hin. cbn [final] in Hin.
      rewrite Htr in Hin. destruct Hin as [Hin|[]]. discriminate. }
  pose proof (main_outcomes E fuel argv n p_f p_l seed Hargs) as H. cbn zeta in H.
  assert (Hpre : forall count,
             Forall (fun ev => is_solving ev = false)
               (St.trace (at_check E n p_f p_l seed)
                ++ [Call_malloc (wrap (wrap (wrap (3 * n) - rows_of E n p_f)
                                       - rows_of E n p_l))]
                ++ rand_events E seed 0 count)).
  { intros count. apply Forall_app. split; [repeat constructor|].
    apply Forall_app. split; [repeat constructor|]. apply rand_events_not_solving. }
  destruct (fgt (fadd p_f p_l) lit_1_0).
  { rewrite H in Hin. exfalso. revert Hin. apply Hquiet. repeat constructor. }
  destruct H as (bs & free & r & count & Hlen & [H|[[H H0]|[[H H0]|H]]]);
    rewrite H in Hin |- *.
  2-4: exfalso; revert Hin; apply Hquiet; exact (Hpre count).
  eexists. eexists. exists (wrap (3 * n)), n, (wrap (n * col_nnz_of E n)), (col_nnz_of E n).
  eexists. split; [reflexivity|].
  cbn [finished St.trace St.m St.n St.d St.nnz St.col_nnz St.k St.q_total].
  split.
  { exact (app_assoc _ [_; _; _] (solving _ _)). }
  split.
  { apply Forall_app. split; [exact (Hpre count)|repeat constructor]. }
  repeat (split; [reflexivity|]).
  rewrite blocks_finished. cbn [Cone.qsize Cone.q].
  split; [reflexivity|]. split; [|reflexivity].
  rewrite List.length_app, length_fmap. lia.
Qed.

Lemma solver_called_last_witness :
  exists s pre m n nnz col_nnz c,
    main sample_libc 300 [arg_prog; arg_100] = Exit 0 s /\
    St.trace s = pre ++ solving nnz col_nnz /\
    Forall (fun ev => is_solving ev = false) pre /\
    St.m s = Some m /\ St.n s = Some n /\ St.d s = Some (m, n) /\
    St.nnz s = Some nnz /\ St.col_nnz s = Some col_nnz /\
    St.k s = Some c /\
    Cone.ssize c = 0 /\ Cone.ep c = 0 /\ Cone.ed c = 0 /\
    Cone.qsize c = Z.of_nat (length (Cone.blocks c)) /\
    Cone.qsize c <= Z.of_nat (length (Cone.q c)) /\
    St.q_total s = Some (wsum (Cone.blocks c)).
Proof.
  apply (solver_called_last sample_libc 300 [arg_prog; arg_100]).
  vm_compute. repeat (first [left; reflexivity | right]).
Defined.

(** *** The square root of line 80 *)

(** The integer square root and the remainder from which [sqrt] rounds,
    for a double of 53 digits below [2 ^ 31]. *)
Lemma sqrt_core (m : positive) (dn : Z) :
  Zdigits2 (Zpos m) = 53 -> 1 <= dn <= 31 ->
  let h := (dn + 1) / 2 in
  exists q r,
    SFsqrt_core_binary prec emax (Zpos m) (dn - 53)
    = (q, h - 53,
       if r =? 0 then loc_Exact else loc_Inexact (if r <=? q then Lt else Gt)) /\
    Zpos m * 2 ^ (dn + 53 - 2 * h) = q * q + r /\ 0 <= r <= 2 * q.
Proof.
  intros Hd Hdn h.
  assert (Hh : 2 * h <= dn + 1 <= 2 * h + 1).
  { unfold h. pose proof (Z.div_mod (dn + 1) 2 ltac:(lia)).
    pose proof (Z.mod_pos_bound (dn + 1) 2 ltac:(lia)). lia. }
  unfold SFsqrt_core_binary. rewrite Hd.
  replace (53 + (dn - 53) + 1) with (dn + 1) by lia.
  rewrite !Z.div2_div. fold h. rewrite fexp_eq.
  assert (He2 : -26 <= (dn - 53) / 2).
  { apply Z.div_le_lower_bound; lia. }
  replace (Z.min (Z.max (h - 53) (-1074)) ((dn - 53) / 2)) with (h - 53) by lia.
  replace (dn - 53 - 2 * (h - 53)) with (dn + 53 - 2 * h) by lia.
  destruct (dn + 53 - 2 * h) as [|p|p] eqn:Hs; try lia.
  rewrite Z.shiftl_mul_pow2 by lia.
  pose proof (Z.sqrtrem_spec (Zpos m * 2 ^ Zpos p)) as Hspec.
  destruct (Z.sqrtrem (Zpos m * 2 ^ Zpos p)) as [q r].
  exists q, r. split; [reflexivity|].
  apply Hspec. pose proof (pow2_pos (Zpos p) ltac:(lia)). lia.
Qed.

(** [(int) ceil(sqrt(n))] is the least integer whose square is at least
    [n]. *)
Lemma ceil_sqrt_of_int (E : libc) (n : Z) :
  0 < n <= INT_MAX ->
  let c := to_idxint E (ceil (sqrt (of_int n))) in
  1 <= c /\ (c - 1) * (c - 1) < n <= c * c.
Proof.
  intros Hn. cbn zeta. unfold INT_MAX in Hn.
  assert (HN53 : 0 < n < 2 ^ 53) by (change (2 ^ 53) with 9007199254740992; lia).
  pose proof (Zdigits2_pos n ltac:(lia)) as Hd0.
  assert (Hd31 : Zdigits2 n <= 31)
    by (apply Zdigits2_le; [lia|change (2 ^ 31) with 2147483648; lia]).
  pose proof (Zdigits2_bounds n ltac:(lia)) as Hnb.
  unfold of_int.
  destruct (normalize_int n false HN53) as (m & Heq & Hm & Hd).
  rewrite Heq.
  set (dn := Zdigits2 n) in *.
  destruct (sqrt_core m dn Hd ltac:(lia)) as (q & r & Hcore & Hqr & Hr).
  set (h := (dn + 1) / 2) in *.
  assert (Hh : 2 * h <= dn + 1 <= 2 * h + 1).
  { unfold h. pose proof (Z.div_mod (dn + 1) 2 ltac:(lia)).
    pose proof (Z.mod_pos_bound (dn + 1) 2 ltac:(lia)). lia. }
  unfold sqrt, SFsqrt. rewrite Hcore.
  set (l := if r =? 0 then loc_Exact else loc_Inexact (if r <=? q then Lt else Gt)) in *.
  (* the square the root is taken from *)
  set (P := 2 ^ (53 - h)).
  assert (HP : 0 < P) by (apply pow2_pos; lia).
  assert (HP37 : 2 ^ 37 <= P) by (apply pow2_le; lia).
  assert (HnP : Zpos m * 2 ^ (dn + 53 - 2 * h) = n * (P * P)).
  { rewrite Hm. unfold P. rewrite <- Z.mul_assoc. f_equal.
    rewrite <- !Z.pow_add_r by lia. f_equal. lia. }
  rewrite HnP in Hqr.
  (* [q] has 53 digits *)
  assert (Hlow : 2 ^ 104 <= n * (P * P) < 2 ^ 106).
  { unfold P. rewrite <- Z.pow_add_r by lia.
    assert (H1 : 2 ^ (dn - 1) * 2 ^ (53 - h + (53 - h)) <= n * 2 ^ (53 - h + (53 - h))).
    { apply Z.mul_le_mono_nonneg_r; [apply Z.pow_nonneg|]; lia. }
    assert (H2 : n * 2 ^ (53 - h + (53 - h)) < 2 ^ dn * 2 ^ (53 - h + (53 - h))).
    { apply Z.mul_lt_mono_pos_r; [apply pow2_pos|]; lia. }
    rewrite <- Z.pow_add_r in H1, H2 by lia.
    assert (2 ^ 104 <= 2 ^ (dn - 1 + (53 - h + (53 - h)))) by (apply pow2_le; lia).
    assert (2 ^ (dn + (53 - h + (53 - h))) <= 2 ^ 106) by (apply pow2_le; lia).
    lia. }
  assert (Hq : 2 ^ 52 <= q < 2 ^ 53).
  { change (2 ^ 104) with (2 ^ 52 * 2 ^ 52) in Hlow.
    change (2 ^ 106) with (2 ^ 53 * 2 ^ 53) in Hlow.
    assert (0 <= q) by lia.
    split.
    - destruct (Z.le_gt_cases (2 ^ 52) q) as [|Hlt]; [assumption|exfalso].
      assert ((q + 1) * (q + 1) <= 2 ^ 52 * 2 ^ 52) by (apply Z.mul_le_mono_nonneg; lia).
      lia.
    - destruct (Z.lt_ge_cases q (2 ^ 53)) as [|Hge]; [assumption|exfalso].
      assert (2 ^ 53 * 2 ^ 53 <= q * q) by (apply Z.mul_le_mono_nonneg; lia).
      lia. }
  assert (Hdq : Zdigits2 q = 53).
  { pose proof (Zdigits2_le q 53 ltac:(lia) ltac:(lia)).
    pose proof (Zdigits2_ge q 52 ltac:(lia) ltac:(lia)). lia. }
  destruct (binary_round_aux_spec false q (h - 53) l ltac:(lia)) as (m' & Hm' & Hexact & _ & Hrep).
  rewrite Hdq, fexp_eq in Hm', Hexact, Hrep.
  replace (Z.max (h - 53) (Z.max (53 + (h - 53) - 53) (-1074))) with (h - 53)
    in Hm', Hexact, Hrep by lia.
  rewrite Z.sub_diag in Hm'. change (2 ^ 0) with 1 in Hm'. rewrite Z.div_1_r in Hm'.
  destruct (represents_scaled _ _ _ Hrep ltac:(lia)) as [Hfin Hsc].
  set (x := binary_round_aux prec emax false q (h - 53) l) in *.
  assert (H1074 : P * 2 ^ (h - 53 + 1074) = 2 ^ 1074).
  { unfold P. rewrite <- Z.pow_add_r by lia. f_equal. lia. }
  set (U := 2 ^ (h - 53 + 1074)) in *.
  assert (HU : 0 < U) by (apply pow2_pos; lia).
  pose proof (pow2_pos 1074 ltac:(lia)) as Hp1074.
  (* the integer square root of [n] *)
  pose proof (Z.sqrt_spec n ltac:(lia)) as Hk. cbn zeta in Hk.
  set (k := Z.sqrt n) in *.
  assert (Hk0 : 0 < k).
  { pose proof (Z.sqrt_nonneg n) as Hk'. fold k in Hk'.
    destruct (Z.eq_dec k 0) as [H0|]; [|lia].
    rewrite H0 in Hk. change (Z.succ 0 * Z.succ 0) with 1 in Hk. lia. }
  assert (Hk16 : k < 2 ^ 16).
  { destruct (Z.lt_ge_cases k (2 ^ 16)) as [|Hge]; [assumption|exfalso].
    assert (2 ^ 16 * 2 ^ 16 <= k * k) by (apply Z.mul_le_mono_nonneg; lia).
    change (2 ^ 16 * 2 ^ 16) with 4294967296 in *. lia. }
  change (2 ^ 16) with 65536 in Hk16. change (2 ^ 37) with 137438953472 in HP37.
  (* bounds on the rounded root *)
  assert (Hbounds : (n = k * k /\ scaled x = k * 2 ^ 1074) \/
                    (k * k < n /\ k * 2 ^ 1074 < scaled x <= (k + 1) * 2 ^ 1074)).
  { destruct (Z.eq_dec n (k * k)) as [Hsq|Hns].
    - left. split; [assumption|].
      assert (Hq' : q = k * P).
      { assert (Hle : (k * P) * (k * P) <= n * (P * P)) by (rewrite Hsq; lia).
        assert (Hlt : n * (P * P) < (k * P + 1) * (k * P + 1)) by (rewrite Hsq; nia).
        assert (0 <= k * P) by nia. nia. }
      assert (Hr0 : r = 0) by (rewrite Hq', Hsq in Hqr; lia).
      assert (Hl : l = loc_Exact) by (unfold l; rewrite Hr0; reflexivity).
      rewrite Hsc, (Hexact Hl eq_refl), Hq', <- Z.mul_assoc, H1074. reflexivity.
    - right. assert (Hkn : k * k < n) by lia. split; [assumption|].
      assert (HkP : 0 < k * P) by nia.
      assert (Hq1 : k * P + 1 <= q).
      { destruct (Z.le_gt_cases (k * P + 1) q) as [|Hlt]; [assumption|exfalso].
        assert (Hs1 : (q + 1) * (q + 1) <= (k * P + 1) * (k * P + 1))
          by (apply Z.mul_le_mono_nonneg; lia).
        assert (Hs2 : (k * k + 1) * (P * P) <= n * (P * P))
          by (apply Z.mul_le_mono_nonneg_r; nia).
        assert (Hs3 : 2 * (k * P) + 1 < P * P) by nia.
        nia. }
      assert (Hq2 : q + 1 <= (k + 1) * P).
      { destruct (Z.le_gt_cases (q + 1) ((k + 1) * P)) as [|Hlt]; [assumption|exfalso].
        assert (Hs1 : ((k + 1) * P) * ((k + 1) * P) <= q * q)
          by (apply Z.mul_le_mono_nonneg; nia).
        assert (Hs2 : n * (P * P) < (k + 1) * (k + 1) * (P * P))
          by (apply Z.mul_lt_mono_pos_r; nia).
        nia. }
      rewrite Hsc, <- H1074.
      split.
      + apply Z.lt_le_trans with (q * U); [|apply Z.mul_le_mono_nonneg_r; lia].
        rewrite Z.mul_assoc. apply Z.mul_lt_mono_pos_r; lia.
      + apply Z.le_trans with ((q + 1) * U); [apply Z.mul_le_mono_nonneg_r; lia|].
        rewrite Z.mul_assoc. apply Z.mul_le_mono_nonneg_r; lia. }
  assert (Hin : scaled x <= INT_MAX * 2 ^ 1074).
  { assert ((k + 1) * 2 ^ 1074 <= INT_MAX * 2 ^ 1074)
      by (apply Z.mul_le_mono_nonneg_r; unfold INT_MAX; lia).
    destruct Hbounds as [[_ ->]|[_ [_ Hu]]]; [|lia].
    assert (k * 2 ^ 1074 <= (k + 1) * 2 ^ 1074) by (apply Z.mul_le_mono_nonneg_r; lia). lia. }
  pose proof (to_idxint_ceil_ge E x Hfin Hin) as Hge.
  pose proof (to_idxint_ceil E x Hfin Hin) as Hlt.
  set (c := to_idxint E (ceil x)) in *.
  destruct Hbounds as [[Hsq Hx]|[Hkn [Hlo Hhi]]].
  - rewrite Hx in Hge, Hlt.
    destruct Hlt as [Hlt|[Hz _]]; [|nia].
    apply Z.mul_le_mono_pos_r in Hge; [|assumption].
    apply Z.mul_lt_mono_pos_r in Hlt; [|assumption].
    assert (c = k) by lia. subst c. lia.
  - destruct Hlt as [Hlt|[Hz _]]; [|nia].
    assert (H1 : k * 2 ^ 1074 < c * 2 ^ 1074) by lia.
    assert (H2 : (c - 1) * 2 ^ 1074 < (k + 1) * 2 ^ 1074) by lia.
    apply Z.mul_lt_mono_pos_r in H1; [|assumption].
    apply Z.mul_lt_mono_pos_r in H2; [|assumption].
    assert (Hc : c = k + 1) by lia. rewrite Hc.
    replace (k + 1 - 1) with k by lia.
    unfold Z.succ in Hk. lia.
Qed.

(** X7 -- Line 80: for a positive [n], [col_nnz] is the least integer whose
    square is at least [n] (the square root of [n] rounded up, without
    any error from the floating-point root), at most 46341. *)
Theorem col_nnz_is_ceil_sqrt (E : libc) (argv : list arg) (n : Z) (p_f p_l : pfloat)
    (seed : Z) :
  arguments E argv St.init = Ok tt (parsed n p_f p_l seed) ->
  0 < n <= INT_MAX ->
  exists s c,
    prologue E argv St.init = Ok tt s /\ St.col_nnz s = Some c /\
    1 <= c <= 46341 /\ (c - 1) * (c - 1) < n <= c * c.
Proof.
  intros Hparsed Hn.
  exists (at_check E n p_f p_l seed), (col_nnz_of E n).
  split; [exact (prologue_parsed E argv n p_f p_l seed Hparsed)|].
  split; [reflexivity|].
  destruct (ceil_sqrt_of_int E n Hn) as [H1 H2]. fold (col_nnz_of E n) in H1, H2.
  split; [|exact H2]. split; [exact H1|].
  unfold INT_MAX in Hn.
  destruct (Z.le_gt_cases (col_nnz_of E n) 46341) as [|Hgt]; [assumption|exfalso].
  assert (46341 * 46341 <= (col_nnz_of E n - 1) * (col_nnz_of E n - 1))
    by (apply Z.mul_le_mono_nonneg; lia).
  lia.
Qed.

Lemma col_nnz_is_ceil_sqrt_witness :
  exists s c,
    prologue sample_libc [arg_prog; arg_100] St.init = Ok tt s /\
    St.col_nnz s = Some c /\
    1 <= c <= 46341 /\ (c - 1) * (c - 1) < 100 <= c * c.
Proof.
  apply (col_nnz_is_ceil_sqrt sample_libc [arg_prog; arg_100] 100 lit_0_1 lit_0_3
           (wrap (now sample_libc))).
  - reflexivity.
  - vm_compute. split; [reflexivity|congruence].
Defined.

(** X8 -- Line 81: the product [n * col_nnz] fits an [idxint] exactly as long
    as [n] is at most 1664100 (the square of 1290); for a larger [n]
    the value of [nnz] that is printed and passed to the instance
    builder is not the product. *)
Theorem nnz_overflow_threshold (E : libc) (argv : list arg) (n : Z) (p_f p_l : pfloat)
    (seed : Z) :
  arguments E argv St.init = Ok tt (parsed n p_f p_l seed) ->
  0 < n <= INT_MAX ->
  exists s c nnz,
    prologue E argv St.init = Ok tt s /\ St.col_nnz s = Some c /\
    St.nnz s = Some nnz /\
    (nnz = n * c <-> n <= 1664100).
Proof.
  intros Hparsed Hn.
  exists (at_check E n p_f p_l seed), (col_nnz_of E n), (wrap (n * col_nnz_of E n)).
  split; [exact (prologue_parsed E argv n p_f p_l seed Hparsed)|].
  split; [reflexivity|]. split; [reflexivity|].
  destruct (ceil_sqrt_of_int E n Hn) as [H1 H2]. fold (col_nnz_of E n) in H1, H2.
  set (c := col_nnz_of E n) in *. unfold INT_MAX in Hn.
  destruct (Z.le_gt_cases n 1664100) as [Hle|Hgt].
  - split; [intros _; assumption|intros _].
    assert (Hc : c <= 1290).
    { destruct (Z.le_gt_cases c 1290) as [|Hc]; [assumption|exfalso].
      assert (1290 * 1290 <= (c - 1) * (c - 1)) by (apply Z.mul_le_mono_nonneg; lia).
      lia. }
    assert (n * c <= 1664100 * 1290) by (apply Z.mul_le_mono_nonneg; lia).
    assert (0 < n * c) by (apply Z.mul_pos_pos; lia).
    apply wrap_small. unfold INT_MIN, INT_MAX. lia.
  - split; [intros Heq; exfalso|intros; lia].
    assert (Hc : 1291 <= c).
    { destruct (Z.le_gt_cases 1291 c) as [|Hc]; [assumption|exfalso].
      assert (c * c <= 1290 * 1290) by (apply Z.mul_le_mono_nonneg; lia).
      lia. }
    assert (1664101 * 1291 <= n * c) by (apply Z.mul_le_mono_nonneg; lia).
    pose proof (wrap_range (n * c)) as Hw. unfold INT_MAX in Hw. lia.
Qed.

Lemma nnz_overflow_threshold_witness :
  exists s c nnz,
    prologue sample_libc [arg_prog; arg_100] St.init = Ok tt s /\
    St.col_nnz s = Some c /\ St.nnz s = Some nnz /\
    (nnz = 100 * c <-> 100 <= 1664100).
Proof.
  apply (nnz_overflow_threshold sample_libc [arg_prog; arg_100] 100 lit_0_1 lit_0_3
           (wrap (now sample_libc))).
  - reflexivity.
  - vm_compute. split; [reflexivity|congruence].
Defined.

(** *** The fractions *)

Lemma scaled_le_0_33 (x : pfloat) :
  nonneg x -> fle x lit_0_33 = true ->
  fin_nonneg x /\ 0 <= scaled x <= 5944751508129055 * 2 ^ 1020.
Proof.
  intros Hx Hle. destruct (nonneg_cases x Hx) as [Fx| ->]; [|discriminate].
  split; [assumption|]. split; [exact (scaled_nonneg x Fx)|].
  destruct Hx as [V _].
  destruct x as [s|s| |s m e]; cbn in Fx; try contradiction.
  - cbn [scaled]. pose proof (pow2_pos 1020 ltac:(lia)). lia.
  - destruct Fx as (-> & _). cbn [scaled cond_Zopp].
    assert (V33 : valid_binary prec emax lit_0_33 = true) by reflexivity.
    exact (fle_finite_scaled _ _ _ _ V V33 Hle).
Qed.

(** With a fraction of at most 0.33 the cone takes fewer than a third
    of the [N] rows. *)
Lemma rows_below_third (E : libc) (n : Z) (x : pfloat) :
  0 < n -> 3 * n <= INT_MAX -> nonneg x -> fle x lit_0_33 = true ->
  to_idxint E (floor (fmul (of_int (3 * n)) x)) < n.
Proof.
  intros Hn Hfit Hx Hle. unfold INT_MAX in Hfit.
  destruct (scaled_le_0_33 x Hx Hle) as (Fx & Hx0 & Hx33).
  set (P := 2 ^ 1020) in *.
  assert (HP : 0 < P) by (apply pow2_pos; lia).
  assert (H1074 : 2 ^ 1074 = 18014398509481984 * P) by reflexivity.
  assert (H1075 : 2 ^ 1075 = 36028797018963968 * P) by reflexivity.
  assert (H1053 : 2 ^ 1053 = 8589934592 * P) by reflexivity.
  assert (HN31 : 0 < 3 * n < 2 ^ 31) by (change (2 ^ 31) with 2147483648; lia).
  destruct (fmul_int_upper (3 * n) x HN31 Fx ltac:(lia)) as [Fr Hr].
  set (r := fmul (of_int (3 * n)) x) in *.
  assert (HnP : P <= n * P) by (apply (Z.mul_le_mono_nonneg_r 1 n P); lia).
  assert (Hmul : 3 * n * scaled x <= 3 * n * (5944751508129055 * P))
    by (apply Z.mul_le_mono_nonneg_l; lia).
  replace (3 * n * (5944751508129055 * P)) with (17834254524387165 * (n * P)) in Hmul by ring.
  assert (Hn1074 : n * 2 ^ 1074 = 18014398509481984 * (n * P)) by (rewrite H1074; ring).
  change (2 ^ 31) with 2147483648 in *.
  destruct (to_idxint_floor E r Fr ltac:(lia)) as [Hf0 Hf].
  set (f := to_idxint E (floor r)) in *.
  destruct (Z.lt_ge_cases f n) as [|Hge]; [assumption|exfalso].
  assert (n * 2 ^ 1074 <= f * 2 ^ 1074) by (apply Z.mul_le_mono_nonneg_r; lia).
  lia.
Qed.

(** X9 -- Lines 62-64 and 90: with a fraction [p_f] of at most 0.33 the
    zero cone gets fewer rows than there are variables, on every valid
    input. *)
Theorem fewer_equalities_than_variables (E : libc) (fuel : nat) (argv : list arg)
    (n : Z) (p_f p_l : pfloat) (seed : Z) :
  rand_in_range E -> log_sane E (3 * n) -> valid_input E argv n p_f p_l seed ->
  3 * n <= Z.of_nat fuel ->
  fle p_f lit_0_33 = true ->
  exists s c, main E fuel argv = Exit 0 s /\ St.k s = Some c /\ 0 <= Cone.f c < n.
Proof.
  intros Hrand Hlog Hvalid Hfuel Hle.
  destruct (valid_run E fuel argv n p_f p_l seed Hrand Hlog Hvalid Hfuel)
    as (Hf & _ & _ & _ & bs & free & r & calls & tr & Hrun & _).
  destruct Hvalid as [_ Hn Hfit Hpf _ _].
  eexists. eexists. split; [exact Hrun|]. cbn [finished St.k]. split; [reflexivity|].
  cbn [Cone.f]. split; [exact Hf|].
  destruct (three_n_bounds n Hn Hfit) as [_ Hw].
  unfold rows_of. rewrite Hw. exact (rows_below_third E n p_f Hn Hfit Hpf Hle).
Qed.

Lemma fewer_equalities_than_variables_witness :
  exists s c,
    main sample_libc 300 [arg_prog; arg_100] = Exit 0 s /\ St.k s = Some c /\
    0 <= Cone.f c < 100.
Proof.
  apply (fewer_equalities_than_variables sample_libc 300 [arg_prog; arg_100] 100
           lit_0_1 lit_0_3 (wrap (now sample_libc))).
  - exact sample_rand_in_range.
  - repeat split; reflexivity.
  - constructor; try reflexivity; try (split; reflexivity); vm_compute; congruence.
  - vm_compute. congruence.
  - reflexivity.
Defined.

Lemma rows_of_zero (E : libc) (x : pfloat) : fin_nonneg x -> rows_of E 0 x = 0.
Proof. destruct x as [s|s| |s m e]; cbn; try contradiction; reflexivity. Qed.

(** X10 -- No variable at all: with [n = 0], a logarithm that is minus
    infinity at 0 and fractions that pass the test, the bound [max_q]
    is 0 but the remainder of line 99 is never taken: no row is left,
    the loop is not entered, and [main] builds and solves an instance
    with no row and no column, and an empty cone. *)
Theorem zero_variables (E : libc) (fuel : nat) (argv : list arg) (p_f p_l : pfloat)
    (seed : Z) :
  arguments E argv St.init = Ok tt (parsed 0 p_f p_l seed) ->
  log E (S754_zero false) = S754_infinity true ->
  nonneg p_f -> nonneg p_l -> fle (fadd p_f p_l) lit_1_0 = true ->
  (1 <= fuel)%nat ->
  main E fuel argv = Exit 0 (finished_empty p_f p_l seed).
Proof.
  intros Hparsed Hlog Hpf Hpl Hsum Hfuel.
  pose proof (fle_one_not_gt _ Hsum) as Hgt.
  destruct (fractions_finite p_f p_l Hpf Hpl Hgt) as [Ff Fl].
  assert (Hcol : col_nnz_of E 0 = 0) by reflexivity.
  assert (Hmq : max_q_of E 0 = 0).
  { unfold max_q_of. change (of_int (wrap (3 * 0))) with (S754_zero false).
    rewrite Hlog. reflexivity. }
  pose proof (rows_of_zero E p_f Ff) as Hf. pose proof (rows_of_zero E p_l Fl) as Hl.
  destruct fuel as [|fuel]; [lia|].
  unfold main, main_from. cbn [bind].
  rewrite (prologue_parsed E argv 0 p_f p_l seed Hparsed).
  unfold at_check. rewrite Hcol, Hmq.
  unfold check_fractions, cone_structure, zero_and_linear, allocate_q. run.
  rewrite Hgt. run.
  fold (rows_of E 0 p_f). fold (rows_of E 0 p_l). rewrite Hf, Hl.
  reflexivity.
Qed.

Lemma zero_variables_witness :
  main sample_libc 1 [arg_prog; arg_0]
  = Exit 0 (finished_empty lit_0_1 lit_0_3 (wrap (now sample_libc))).
Proof.
  apply (zero_variables sample_libc 1 [arg_prog; arg_0] lit_0_1 lit_0_3
           (wrap (now sample_libc))).
  - reflexivity.
  - reflexivity.
  - split; reflexivity.
  - split; reflexivity.
  - reflexivity.
  - lia.
Defined.

(** X11 -- A fraction that is not a number is not rejected: the comparison of
    line 85 is false as soon as [p_f] or [p_l] is a NaN, so that
    [main] does not return 1 and goes on to convert a NaN to the rows
    of a cone. *)
Theorem nan_fraction_accepted (E : libc) (fuel : nat) (argv : list arg) (n : Z)
    (p_f p_l : pfloat) (seed : Z) :
  arguments E argv St.init = Ok tt (parsed n p_f p_l seed) ->
  p_f = S754_nan \/ p_l = S754_nan ->
  (forall s, main E fuel argv <> Exit 1 s) /\
  exists s c,
    (prologue E argv ;; check_fractions ;; zero_and_linear E) St.init = Ok tt s /\
    St.k s = Some c /\
    (p_f = S754_nan -> Cone.f c = indefinite E) /\
    (p_l = S754_nan -> Cone.l c = indefinite E).
Proof.
  intros Hparsed Hnan.
  assert (Hgt : fgt (fadd p_f p_l) lit_1_0 = false).
  { destruct Hnan as [-> | ->]; [reflexivity|]. destruct p_f as [|[]| |]; reflexivity. }
  assert (Hrows : forall x, to_idxint E (floor (fmul x S754_nan)) = indefinite E).
  { intros x. destruct x as [|[]| |]; reflexivity. }
  split.
  - intros s Hmain.
    pose proof (main_outcomes E fuel argv n p_f p_l seed Hparsed) as H. cbn zeta in H.
    rewrite Hgt in H.
    destruct H as (bs & free & r & count & _ & [H|[[H _]|[[H _]|H]]]);
      rewrite H in Hmain; discriminate.
  - cbn [bind]. rewrite (prologue_parsed E argv n p_f p_l seed Hparsed).
    unfold check_fractions, zero_and_linear, at_check. run. rewrite Hgt. run.
    eexists. eexists. split; [reflexivity|]. cbn [St.k]. split; [reflexivity|].
    cbn [Cone.f Cone.l]. split; intros ->; apply Hrows.
Qed.

Lemma nan_fraction_accepted_witness :
  (forall s, main sample_libc 0 [arg_prog; arg_10; arg_nan; arg_0_5] <> Exit 1 s) /\
  exists s c,
    (prologue sample_libc [arg_prog; arg_10; arg_nan; arg_0_5] ;; check_fractions ;;
     zero_and_linear sample_libc) St.init = Ok tt s /\
    St.k s = Some c /\
    (S754_nan = S754_nan -> Cone.f c = indefinite sample_libc) /\
    (lit_0_5 = S754_nan -> Cone.l c = indefinite sample_libc).
Proof.
  apply (nan_fraction_accepted sample_libc 0 [arg_prog; arg_10; arg_nan; arg_0_5] 10
           S754_nan lit_0_5 (wrap (now sample_libc))).
  - reflexivity.
  - left. reflexivity.
Defined.

(** X12 -- Lines 97-107 when the rows left do not exceed [max_q]: on a valid
    input the loop body is not run, [rand()] is not called, and the
    rows left, if any, make a single block. *)
Theorem few_rows_single_block (E : libc) (fuel : nat) (argv : list arg) (n : Z)
    (p_f p_l : pfloat) (seed : Z) :
  log_sane E (3 * n) -> valid_input E argv n p_f p_l seed -> (1 <= fuel)%nat ->
  3 * n - rows_of E n p_f - rows_of E n p_l <= max_q_of E n ->
  exists s c,
    main E fuel argv = Exit 0 s /\ St.k s = Some c /\
    Cone.f c + Cone.l c <= 3 * n /\
    Cone.blocks c = (if 0 <? 3 * n - Cone.f c - Cone.l c
                     then [3 * n - Cone.f c - Cone.l c] else []) /\
    St.rng_calls s = 0%nat.
Proof.
  intros Hlog [Hparsed Hn Hfit Hpf Hpl Hsum] Hfuel Hfew.
  pose proof (fle_one_not_gt _ Hsum) as Hgt.
  destruct (three_n_bounds n Hn Hfit) as [H3n Hw].
  destruct (zero_and_linear_rows E (3 * n) p_f p_l ltac:(lia) Hpf Hpl Hgt) as (Hf & Hl & Hfl).
  pose proof (max_q_bounds E (3 * n) H3n Hlog) as Hmq.
  pose proof (main_from_loop E fuel argv n p_f p_l seed Hparsed Hgt) as Hrun.
  cbn zeta in Hrun. unfold rows_of, max_q_of in *. rewrite Hw in *.
  set (f := to_idxint E (floor (fmul (of_int (3 * n)) p_f))) in *.
  set (l := to_idxint E (floor (fmul (of_int (3 * n)) p_l))) in *.
  set (max_q := to_idxint E (ceil (fdiv (of_int (3 * n)) (log E (of_int (3 * n)))))) in *.
  rewrite (wrap_small (3 * n - f)) in Hrun by (unfold INT_MIN, INT_MAX in *; lia).
  rewrite (wrap_small (3 * n - f - l)) in Hrun by (unfold INT_MIN, INT_MAX in *; lia).
  set (R := 3 * n - f - l) in *.
  set (s0 := at_check E n p_f p_l seed) in *.
  set (c0 := Cone.Make f l [] 0 0 0 0) in *.
  set (tr := St.trace s0 ++ [Call_malloc R]) in *.
  assert (Hmax : St.max_q s0 = Some max_q).
  { unfold s0, at_check, max_q_of. cbn [St.max_q]. rewrite Hw. reflexivity. }
  destruct fuel as [|fuel]; [lia|].
  assert (Hpart : partition E (S fuel) (in_loop s0 c0 [] (Z.to_nat R) R 0 tr)
                  = Ok tt (in_loop s0 c0 (if 0 <? R then [R] else [])
                             (Z.to_nat R - (if 0 <? R then 1 else 0)) R 0 tr)).
  { unfold partition. cbn [while bind]. rewrite (loop_cond_in_loop s0 c0 max_q Hmax).
    replace (max_q <? R) with false by (symmetry; apply Z.ltb_ge; lia).
    cbn [ret].
    change (get St.q_num_rows (in_loop s0 c0 [] (Z.to_nat R) R 0 tr))
      with (Ok R (in_loop s0 c0 [] (Z.to_nat R) R 0 tr)).
    cbn iota beta. destruct (Z.ltb_spec 0 R) as [Hpos|Hzero].
    - rewrite push_q_in_loop by (cbn [length]; unfold INT_MAX in *; lia). reflexivity.
    - rewrite Nat.sub_0_r. reflexivity. }
  cbn [bind] in Hrun. rewrite Hpart in Hrun. cbn iota beta in Hrun.
  rewrite total_any in Hrun.
  pose proof (finish_in_loop (Upd.q_total (wsum (if 0 <? R then [R] else [])) s0) c0
                (if 0 <? R then [R] else []) (Z.to_nat R - (if 0 <? R then 1 else 0)) R 0 tr
                (3 * n) n (col_nnz_of E n) (wrap (n * col_nnz_of E n))
                (wsum (if 0 <? R then [R] else []))
                ltac:(cbn [St.m Upd.q_total s0 at_check]; rewrite Hw; reflexivity)
                eq_refl eq_refl eq_refl eq_refl) as Hfin.
  cbn [bind] in Hfin. rewrite Hfin in Hrun.
  eexists. eexists. split; [exact Hrun|].
  cbn [finished St.k St.rng_calls]. split; [reflexivity|].
  rewrite blocks_finished. cbn [Cone.f Cone.l c0]. fold R.
  split; [lia|]. split; reflexivity.
Qed.

Lemma few_rows_single_block_witness :
  exists s c,
    main sample_libc 1 [arg_prog; arg_1] = Exit 0 s /\ St.k s = Some c /\
    Cone.f c + Cone.l c <= 3 * 1 /\
    Cone.blocks c = (if 0 <? 3 * 1 - Cone.f c - Cone.l c
                     then [3 * 1 - Cone.f c - Cone.l c] else []) /\
    St.rng_calls s = 0%nat.
Proof.
  apply (few_rows_single_block sample_libc 1 [arg_prog; arg_1] 1 lit_0_1 lit_0_3
           (wrap (now sample_libc))).
  - repeat split; reflexivity.
  - constructor; try reflexivity; try (split; reflexivity); vm_compute; congruence.
  - lia.
  - vm_compute. congruence.
Defined.

(** *** The rows of a cone and the exact product *)

(** The rounded product of an [int] and a double is less than half a
    unit of [2 ^ -21] below the exact one. *)
Lemma fmul_int_lower (N : Z) (y : spec_float) :
  0 < N < 2 ^ 31 -> fin_nonneg y -> scaled y < 2 ^ 1075 ->
  N * scaled y < scaled (fmul (of_int N) y) + 2 ^ 1053.
Proof.
  intros HN Hy Hsy. unfold of_int.
  destruct (normalize_int N false ltac:(lia)) as (mN & -> & HmN & HdN).
  pose proof (Zdigits2_pos N ltac:(lia)) as HdN0.
  assert (HdN31 : Zdigits2 N <= 31) by (apply Zdigits2_le; lia).
  set (dN := Zdigits2 N) in *.
  pose proof (pow2_pos 1053 ltac:(lia)) as Hp1053.
  destruct y as [s|s| |s my ey]; cbn in Hy; try contradiction.
  { cbn. lia. }
  destruct Hy as (-> & Hey & Hmy). cbn [scaled cond_Zopp] in Hsy |- *.
  destruct (scaled_lt_pow my ey 1075 Hey Hsy) as [Hmy1 Hey0].
  replace (1075 - 1074 - ey) with (1 - ey) in Hmy1 by lia.
  unfold fmul. cbn [SFmul xorb].
  set (M := Zpos (mN * my)). set (e := dN - 53 + ey).
  assert (HM : M = Zpos mN * Zpos my) by reflexivity.
  assert (HMpos : 0 < M) by (unfold M; lia).
  destruct (binary_round_aux_spec false M e loc_Exact HMpos) as (m' & Hb & _ & HEmin & Hrep).
  set (E := Z.max e (fexp prec emax (Zdigits2 M + e))) in *.
  pose proof (Zdigits2_bounds (Zpos mN) ltac:(lia)) as [_ HmNu]. rewrite HdN in HmNu.
  assert (HdM : Zdigits2 M <= 54 - ey).
  { apply Zdigits2_le; [assumption|].
    replace (54 - ey) with (53 + (1 - ey)) by lia. rewrite Z.pow_add_r by lia. nia. }
  assert (HE : E <= -21) by (unfold E, e; rewrite fexp_eq; lia).
  destruct (represents_scaled _ _ _ Hrep ltac:(lia)) as [Hfin Hsc].
  rewrite Hsc.
  set (k := E - e) in *.
  assert (Hk : 0 <= k) by (unfold k, E; lia).
  pose proof (pow2_pos k Hk) as Hpk.
  pose proof (Z.div_mod M (2 ^ k) ltac:(lia)) as Hdm.
  pose proof (Z.mod_pos_bound M (2 ^ k) Hpk) as Hmod.
  pose proof (pow2_pos (ey + 1074) ltac:(lia)) as Hpa.
  pose proof (pow2_pos (53 - dN) ltac:(lia)) as Hpb.
  pose proof (pow2_pos (E + 1074) ltac:(lia)) as HpE.
  assert (Hexp : 2 ^ (E + 1074) * 2 ^ (53 - dN) = 2 ^ k * 2 ^ (ey + 1074)).
  { rewrite <- !Z.pow_add_r by lia. f_equal. unfold k, e. lia. }
  assert (Hmain : N * (Zpos my * 2 ^ (ey + 1074)) < (M / 2 ^ k + 1) * 2 ^ (E + 1074)).
  { apply (Z.mul_lt_mono_pos_r (2 ^ (53 - dN)) _ _ Hpb).
    rewrite <- (Z.mul_assoc (M / 2 ^ k + 1)), Hexp.
    replace (N * (Zpos my * 2 ^ (ey + 1074)) * 2 ^ (53 - dN))
      with (M * 2 ^ (ey + 1074)) by (rewrite HM, HmN; ring).
    rewrite Z.mul_assoc. apply Z.mul_lt_mono_pos_r; lia. }
  pose proof (pow2_le (E + 1074) 1053 ltac:(lia)).
  nia.
Qed.

Lemma to_idxint_floor_lt (E : libc) (r : pfloat) :
  fin_nonneg r -> scaled r < 2 ^ 31 * 2 ^ 1074 ->
  scaled r < (to_idxint E (floor r) + 1) * 2 ^ 1074.
Proof.
  intros Hr Hs. destruct r as [s|s| |s m e]; cbn in Hr; try contradiction.
  - cbn. pose proof (pow2_pos 1074 ltac:(lia)). lia.
  - destruct Hr as (-> & He & Hm). cbn [floor scaled cond_Zopp] in *.
    destruct (Zfloor_spec m e He) as (H0 & Hl & Hu).
    pose proof (pow2_pos 1074 ltac:(lia)) as Hp.
    assert (Zfloor false m e < 2 ^ 31) by nia.
    rewrite to_idxint_normalize by (unfold INT_MAX; lia). lia.
Qed.

(** X13 -- Lines 90-91: on every valid input the rows of the zero cone
    and of the linear cone are the products [3 n p_f] and [3 n p_l]
    rounded down, up to the rounding of the product in double
    precision: each lies less than [1 + 2 ^ -21] below and at most
    [2 ^ -21] above the exact product.  ([scaled p] is the exact value
    of the double [p] times [2 ^ 1074].) *)
Theorem rows_near_exact_product (E : libc) (fuel : nat) (argv : list arg)
    (n : Z) (p_f p_l : pfloat) (seed : Z) :
  rand_in_range E -> log_sane E (3 * n) -> valid_input E argv n p_f p_l seed ->
  3 * n <= Z.of_nat fuel ->
  exists s c,
    main E fuel argv = Exit 0 s /\ St.k s = Some c /\
    Cone.f c * 2 ^ 1074 <= 3 * n * scaled p_f + 2 ^ 1053 /\
    3 * n * scaled p_f < (Cone.f c + 1) * 2 ^ 1074 + 2 ^ 1053 /\
    Cone.l c * 2 ^ 1074 <= 3 * n * scaled p_l + 2 ^ 1053 /\
    3 * n * scaled p_l < (Cone.l c + 1) * 2 ^ 1074 + 2 ^ 1053.
Proof.
  intros Hrand Hlog Hvalid Hfuel.
  destruct (valid_run E fuel argv n p_f p_l seed Hrand Hlog Hvalid Hfuel)
    as (_ & _ & _ & _ & bs & free & r & calls & tr & Hrun & _).
  destruct Hvalid as [_ Hn Hfit Hpf Hpl Hsum].
  pose proof (fle_one_not_gt _ Hsum) as Hgt.
  destruct (fractions_finite p_f p_l Hpf Hpl Hgt) as [Ff Fl].
  pose proof (fadd_not_gt_one p_f p_l Ff Fl Hgt) as Hadd.
  pose proof (scaled_nonneg p_f Ff) as Hf0. pose proof (scaled_nonneg p_l Fl) as Hl0.
  destruct (three_n_bounds n Hn Hfit) as [H3n Hw].
  eexists. eexists. split; [exact Hrun|]. cbn [finished St.k]. split; [reflexivity|].
  cbn [Cone.f Cone.l]. unfold rows_of. rewrite Hw.
  unfold INT_MAX in *.
  assert (HN31 : 0 < 3 * n < 2 ^ 31) by (change (2 ^ 31) with 2147483648; lia).
  set (P := 2 ^ 1022) in *.
  assert (HP : 0 < P) by (apply pow2_pos; lia).
  assert (H1074 : 2 ^ 1074 = 4503599627370496 * P) by reflexivity.
  assert (H1075 : 2 ^ 1075 = 9007199254740992 * P) by reflexivity.
  assert (H1053 : 2 ^ 1053 = 2147483648 * P) by reflexivity.
  assert (Hbound : forall x, fin_nonneg x -> 0 <= scaled x -> scaled x < 2 ^ 1074 + P ->
            let f := to_idxint E (floor (fmul (of_int (3 * n)) x)) in
            f * 2 ^ 1074 <= 3 * n * scaled x + 2 ^ 1053 /\
            3 * n * scaled x < (f + 1) * 2 ^ 1074 + 2 ^ 1053).
  { intros x Fx Hx0 Hx. cbn zeta.
    destruct (fmul_int_upper (3 * n) x HN31 Fx ltac:(lia)) as [Fr Hup].
    pose proof (fmul_int_lower (3 * n) x HN31 Fx ltac:(lia)) as Hlo.
    set (rx := fmul (of_int (3 * n)) x) in *.
    assert (Hrx : scaled rx < 2 ^ 31 * 2 ^ 1074).
    { assert (3 * n * scaled x <= 2147483646 * (2 ^ 1074 + P))
        by (apply Z.mul_le_mono_nonneg; lia).
      change (2 ^ 31) with 2147483648. lia. }
    destruct (to_idxint_floor E rx Fr Hrx) as [_ Hfl].
    pose proof (to_idxint_floor_lt E rx Fr Hrx) as Hfu.
    split; lia. }
  destruct (Hbound p_f Ff Hf0 ltac:(lia)) as [H1 H2].
  destruct (Hbound p_l Fl Hl0 ltac:(lia)) as [H3 H4].
  cbn zeta in H1, H2, H3, H4.
  split; [exact H1|]. split; [exact H2|]. split; [exact H3|exact H4].
Qed.

Lemma rows_near_exact_product_witness :
  exists s c,
    main sample_libc 300 [arg_prog; arg_100] = Exit 0 s /\ St.k s = Some c /\
    Cone.f c * 2 ^ 1074 <= 3 * 100 * scaled lit_0_1 + 2 ^ 1053 /\
    3 * 100 * scaled lit_0_1 < (Cone.f c + 1) * 2 ^ 1074 + 2 ^ 1053 /\
    Cone.l c * 2 ^ 1074 <= 3 * 100 * scaled lit_0_3 + 2 ^ 1053 /\
    3 * 100 * scaled lit_0_3 < (Cone.l c + 1) * 2 ^ 1074 + 2 ^ 1053.
Proof.
  apply (rows_near_exact_product sample_libc 300 [arg_prog; arg_100] 100 lit_0_1 lit_0_3
           (wrap (now sample_libc))).
  - exact sample_rand_in_range.
  - repeat split; reflexivity.
  - constructor; try reflexivity; try (split; reflexivity); vm_compute; congruence.
  - vm_compute. congruence.
Defined.
